(** * lldb-platform: the platform mode of lldb-server

    A shallow embedding of [lldb/tools/lldb-server/lldb-platform.cpp].

    The daemon talks to many collaborators (the acceptor, the process
    launcher, the protocol session object, the file system).  Each call to a
    collaborator is recorded as an [Event] in a chronological trace, and the
    answer of the collaborator is read from an environment record, so that
    the control flow of the C++ functions is kept as it is written.  The
    functions live in a small state-and-exit monad: [exit()] leaves the
    program from anywhere, dereferencing an empty [std::optional] is
    undefined behaviour, and a blocking call whose scripted answers are used
    up leaves the daemon waiting.  The signal handlers ([SIGPIPE] ignored,
    [SIGHUP] aborting the process) act at any moment and are left out. *)

From Stdlib Require Import Ascii String ZArith.
From stdpp Require Import base list strings gmap pretty.

Local Open Scope Z_scope.
Local Open Scope string_scope.

(** ** Constants and plain data *)

(** [lldb::pid_t] and its invalid value. *)
Definition pid_t := Z.
Definition LLDB_INVALID_PROCESS_ID : pid_t := 0.

(** The user port range (the branch of the source that is not for Apple). *)
Definition LOW_PORT : Z := 1024.
Definition HIGH_PORT : Z := 49151.

Definition SIGTERM : Z := 15.

(** The line feed written as a backslash-n in the C++ string literals. *)
Definition nl : string := String "010"%char EmptyString.

(** [lldb_private::Status]: success, or a failure carrying its message. *)
Inductive Status :=
| StatusOk
| StatusError (msg : string).

Definition Fail (e : Status) : bool :=
  match e with StatusOk => false | StatusError _ => true end.

Definition Success (e : Status) : bool := negb (Fail e).

Definition AsCString (e : Status) : string :=
  match e with StatusOk => EmptyString | StatusError msg => msg end.

(** [FileSpec]: a directory and a file name; [operator bool] holds when
    either is set. *)
Record FileSpec := {
  Directory : string;
  Filename : string
}.

Definition FileSpec_empty : FileSpec :=
  {| Directory := EmptyString; Filename := EmptyString |}.

Definition nonempty (s : string) : bool :=
  match s with EmptyString => false | String _ _ => true end.

Definition FileSpec_bool (f : FileSpec) : bool :=
  nonempty (Directory f) || nonempty (Filename f).

(** [GDBRemoteCommunication::PacketResult]. *)
Inductive PacketResult :=
| PR_Success
| PR_ErrorSendFailed
| PR_ErrorSendAck
| PR_ErrorReplyFailed
| PR_ErrorReplyTimeout
| PR_ErrorReplyInvalid
| PR_ErrorReplyAck
| PR_ErrorDisconnected
| PR_ErrorNoSequenceLock.

Definition is_PR_Success (r : PacketResult) : bool :=
  match r with PR_Success => true | _ => false end.

(** ** The port map interface

    [GDBRemoteCommunicationServerPlatform::PortMap] is declared in a header
    that is not part of this file; the daemon only calls its methods.  The
    methods are taken as an interface, and everything below is stated for
    an arbitrary implementation of it. *)
Class PortPool (PortMap : Type) := {
  (** [PortMap()] *)
  PortMap_default : PortMap;
  (** [PortMap(min_port, max_port)] *)
  PortMap_range : Z -> Z -> PortMap;
  AllowPort : Z -> PortMap -> PortMap;
  (** [llvm::Expected<uint16_t>]: a port, or an error that the caller
      consumes. *)
  GetNextAvailablePort : PortMap -> option Z * PortMap;
  AssociatePortWithProcess : Z -> pid_t -> PortMap -> PortMap;
  FreePort : Z -> PortMap -> PortMap;
  FreePortForProcess : pid_t -> PortMap -> PortMap
}.

(** ** Helpers of the host libraries

    Pure helpers of LLVM and of the LLDB host layer that the daemon calls and
    whose code is elsewhere: they are parameters of the model. *)
Record HostLib := {
  (** [llvm::to_integer] into a [uint16_t] *)
  to_integer_u16 : string -> option Z;
  (** [llvm::to_integer] into a [uint64_t] *)
  to_integer_u64 : string -> option Z;
  (** [SharedSocket::kInvalidFD] *)
  kInvalidFD : Z;
  (** the cast [(shared_fd_t)_fd] *)
  to_shared_fd : Z -> Z;
  (** [FileSpec::SetFile(optarg, FileSpec::Style::native)] *)
  FileSpec_SetFile : string -> FileSpec;
  (** [FileSpec::GetPath()] *)
  GetPath : FileSpec -> string;
  (** [Args::GetCommandString] *)
  GetCommandString : list string -> string
}.

(** ** Observable events *)

Inductive Stream :=
| Stdout            (* printf *)
| Stderr            (* fprintf(stderr, ...) *)
| WithColor_error   (* llvm::WithColor::error() *)
| Log_Platform.     (* LLDB_LOG / LLDB_LOGF on GetLog(LLDBLog::Platform) *)

(** A file action appended to the launch info. *)
Inductive FileAction :=
| CloseFileAction (fd : Z)
| SuppressFileAction (fd : Z) (read write : bool).

Definition STDIN_FILENO : Z := 0.
Definition STDOUT_FILENO : Z := 1.
Definition STDERR_FILENO : Z := 2.

(** What [spawn_process] stores into its [ProcessLaunchInfo]. *)
Record ProcessLaunchInfo := {
  ExecutableFile : string;
  add_exe_file_as_first_arg : bool;
  Arguments : list string;
  LaunchInSeparateProcessGroup : bool;
  Environment : list string;
  MonitorProcessCallback_spawn_process_reaped : bool;
  DisableSTDIO : bool;
  FileActions : list FileAction
}.

Inductive PoolOp :=
| OpAllowPort (port : Z)
| OpAssignRange (min_port max_port : Z)
| OpGetNextAvailablePort (r : option Z)
| OpAssociatePortWithProcess (port : Z) (pid : pid_t)
| OpFreePort (port : Z)
| OpFreePortForProcess (pid : pid_t).

Section Daemon.

Context {PortMap : Type} {pool : PortPool PortMap}.
Variable host : HostLib.

Inductive Event :=
| EvWrite (s : Stream) (text : string)
| EvLock                                  (* gdbserver_portmap_mutex taken *)
| EvUnlock                                (* gdbserver_portmap_mutex released *)
| EvPool (op : PoolOp)                    (* a call on gdbserver_portmap *)
| EvSetupLogging (log_file log_channels : string)
| EvGetNativeSocket (fd : Z)
| EvAcceptorCreate (listen_host_port : string) (child_processes_inherit : bool)
| EvListen (backlog : Z)
| EvAccept (child_processes_inherit : bool)
| EvAcceptorReset
| EvDeleteConn (conn : Z)
| EvCreateDirectory (path : string)
| EvWriteTemp (path content : string)
| EvPublish (temp path : string)
| EvSharedSocket (conn_socket : Z)
| EvLaunchProcess (info : ProcessLaunchInfo)
| EvCompleteSending (pid : pid_t)
| EvKill (pid : pid_t) (signo : Z)
| EvPlatformCreate (protocol scheme : string)
| EvSetPortOffset (port_offset : Z)
| EvSetPortMap (pm : PortMap)
| EvSetConnection (conn : Z)
| EvLaunchGDBServer (args : list string) (hostname : string)
| EvSetPendingGdbServer (pid : pid_t) (port : Z) (socket_name : string)
| EvGetPacketAndSendResponse (r : PacketResult).

(** ** Program state: the globals of the file, the files that the daemon
    itself writes (through [llvm::writeToOutput]: the discovery file; the log
    file is opened and written by the logging library and is not kept here)
    and the trace of events so far (oldest first). *)
Record State := {
  g_debug : Z;
  g_verbose : Z;
  g_server : Z;
  gdbserver_portmap : PortMap;
  files : gmap string string;
  trace : list Event
}.

Definition initial_state : State :=
  {| g_debug := 0; g_verbose := 0; g_server := 0;
     gdbserver_portmap := PortMap_default;
     files := ∅; trace := [] |}.

Definition set_trace (t : list Event) (s : State) : State :=
  {| g_debug := g_debug s; g_verbose := g_verbose s; g_server := g_server s;
     gdbserver_portmap := gdbserver_portmap s;
     files := files s; trace := t |}.

Definition set_portmap (pm : PortMap) (s : State) : State :=
  {| g_debug := g_debug s; g_verbose := g_verbose s; g_server := g_server s;
     gdbserver_portmap := pm;
     files := files s; trace := trace s |}.

Definition set_files (f : gmap string string) (s : State) : State :=
  {| g_debug := g_debug s; g_verbose := g_verbose s; g_server := g_server s;
     gdbserver_portmap := gdbserver_portmap s;
     files := f; trace := trace s |}.

Definition set_g_debug (v : Z) (s : State) : State :=
  {| g_debug := v; g_verbose := g_verbose s; g_server := g_server s;
     gdbserver_portmap := gdbserver_portmap s;
     files := files s; trace := trace s |}.

Definition set_g_verbose (v : Z) (s : State) : State :=
  {| g_debug := g_debug s; g_verbose := v; g_server := g_server s;
     gdbserver_portmap := gdbserver_portmap s;
     files := files s; trace := trace s |}.

Definition set_g_server (v : Z) (s : State) : State :=
  {| g_debug := g_debug s; g_verbose := g_verbose s; g_server := v;
     gdbserver_portmap := gdbserver_portmap s;
     files := files s; trace := trace s |}.

(** ** The monad *)

Inductive Result (A : Type) :=
| Ret (a : A) (s : State)       (* the computation returned [a] *)
| Exit (code : Z) (s : State)   (* [exit(code)] was called *)
| Undefined (s : State)         (* undefined behaviour was reached *)
| Waiting (s : State).          (* blocked in a call the script does not answer *)

Arguments Ret {A} a s.
Arguments Exit {A} code s.
Arguments Undefined {A} s.
Arguments Waiting {A} s.

Definition M (A : Type) : Type := State -> Result A.

Definition ret {A} (a : A) : M A := fun s => Ret a s.

Definition bind {A B} (c : M A) (k : A -> M B) : M B :=
  fun s =>
    match c s with
    | Ret a s' => k a s'
    | Exit code s' => Exit code s'
    | Undefined s' => Undefined s'
    | Waiting s' => Waiting s'
    end.

Definition exit {A} (code : Z) : M A := fun s => Exit code s.
Definition undefined {A} : M A := fun s => Undefined s.
Definition waiting {A} : M A := fun s => Waiting s.

Definition emit (e : Event) : M unit :=
  fun s => Ret tt (set_trace (trace s ++ [e]) s).

Definition final_state {A} (r : Result A) : State :=
  match r with
  | Ret _ s | Exit _ s | Undefined s | Waiting s => s
  end.

Notation "x <- c ;; k" := (bind c (fun x => k))
  (at level 20, c at level 99, k at level 200, only parsing).
Notation "c ;;; k" := (bind c (fun _ => k))
  (at level 100, k at level 200, only parsing, right associativity).

(** ** Calls on the global port map *)

(** [std::lock_guard<std::mutex> guard(gdbserver_portmap_mutex)] around a
    block: the mutex is taken, the block runs, the mutex is released when the
    guard leaves its scope. *)
Definition with_lock_guard {A} (c : M A) : M A :=
  emit EvLock ;;;
  a <- c ;;
  emit EvUnlock ;;;
  ret a.

Definition pool_AllowPort (port : Z) : M unit :=
  fun s => Ret tt (set_portmap (AllowPort port (gdbserver_portmap s))
                     (set_trace (trace s ++ [EvPool (OpAllowPort port)]) s)).

Definition pool_assign_range (min_port max_port : Z) : M unit :=
  fun s => Ret tt (set_portmap (PortMap_range min_port max_port)
                     (set_trace (trace s ++ [EvPool (OpAssignRange min_port max_port)]) s)).

Definition pool_GetNextAvailablePort : M (option Z) :=
  fun s =>
    let '(r, pm) := GetNextAvailablePort (gdbserver_portmap s) in
    Ret r (set_portmap pm
             (set_trace (trace s ++ [EvPool (OpGetNextAvailablePort r)]) s)).

Definition pool_AssociatePortWithProcess (port : Z) (pid : pid_t) : M unit :=
  fun s => Ret tt (set_portmap (AssociatePortWithProcess port pid (gdbserver_portmap s))
                     (set_trace (trace s ++ [EvPool (OpAssociatePortWithProcess port pid)]) s)).

Definition pool_FreePort (port : Z) : M unit :=
  fun s => Ret tt (set_portmap (FreePort port (gdbserver_portmap s))
                     (set_trace (trace s ++ [EvPool (OpFreePort port)]) s)).

Definition pool_FreePortForProcess (pid : pid_t) : M unit :=
  fun s => Ret tt (set_portmap (FreePortForProcess pid (gdbserver_portmap s))
                     (set_trace (trace s ++ [EvPool (OpFreePortForProcess pid)]) s)).

(** [std::move(gdbserver_portmap)]: the value is handed over and the global
    is left as a default-constructed map. *)
Definition move_gdbserver_portmap : M PortMap :=
  fun s => Ret (gdbserver_portmap s) (set_portmap PortMap_default s).

(** ** display_usage *)

Definition usage_text (progname subcommand : string) : string :=
  "Usage:" ++ nl ++ "  " ++ progname ++ " " ++ subcommand ++
  " [--log-file log-file-name] [--log-channels " ++
  "log-channel-list] [--port-file port-file-path] --server " ++
  "--listen port" ++ nl.

Definition display_usage (progname subcommand : string) : M unit :=
  emit (EvWrite Stderr (usage_text progname subcommand)) ;;;
  exit 0.

(** ** save_socket_id_to_file *)

(** Modelled from the spec: [llvm::writeToOutput] is defined in LLVM's
    support library, which is not among the sources.  The spec asks for an
    atomic write, "write-then-publish, not write-in-place": the content goes
    to a temporary file next to the target, which is then published under
    the target's name.  [outcome] is what the file system answers; on a
    failure nothing is published. *)
Definition writeToOutput (path content : string) (outcome : Status) : M Status :=
  match outcome with
  | StatusOk =>
      let temp := path ++ ".temp-stream" in
      emit (EvWriteTemp temp content) ;;;
      (fun s => Ret tt (set_files (<[temp := content]> (files s)) s)) ;;;
      emit (EvPublish temp path) ;;;
      (fun s => Ret tt (set_files (<[path := content]> (delete temp (files s))) s)) ;;;
      ret StatusOk
  | StatusError msg => ret (StatusError msg)
  end.

(** What the file system answers to the two calls of
    [save_socket_id_to_file]: to the making of a directory that has a name,
    and to the write. *)
Record FsEnv := {
  create_directory_result : Status;
  write_result : Status
}.

(** Modelled from the spec: [llvm::sys::fs::create_directory] is defined in
    LLVM's support library, which is not among the sources.  It is asked for
    one directory, the one that [path] names, and makes no directory above it.
    The empty path names no directory, and the call fails on it; on any other
    path its outcome is what the file system answers. *)
Definition create_directory (fs : FsEnv) (path : string) : Status :=
  if nonempty path then create_directory_result fs
  else StatusError "No such file or directory".

Definition save_socket_id_to_file (fs : FsEnv) (socket_id : string)
    (file_spec : FileSpec) : M Status :=
  let temp_file_spec := FileSpec_SetFile host (Directory file_spec) in
  emit (EvCreateDirectory (GetPath host temp_file_spec)) ;;;
  let error := create_directory fs (GetPath host temp_file_spec) in
  if Fail error then
    ret (StatusError ("Failed to create directory " ++
                      GetPath host temp_file_spec ++ ": " ++ AsCString error))
  else
    Err <- writeToOutput (GetPath host file_spec) socket_id (write_result fs) ;;
    if Fail Err then
      ret (StatusError ("Failed to atomically write file " ++
                        GetPath host file_spec ++ ": " ++ AsCString Err))
    else ret StatusOk.

(** What [create_directory] answers when [save_socket_id_to_file] is called
    for [file_spec]. *)
Definition directory_answer (fs : FsEnv) (file_spec : FileSpec) : Status :=
  create_directory fs (GetPath host (FileSpec_SetFile host (Directory file_spec))).

(** ** client_handle *)

(** One call of [GetPacketAndSendResponse]: its result and the values it
    leaves in the by-reference flags [interrupt] and [done]. *)
Record PacketStep := {
  packet_result : PacketResult;
  packet_interrupt : bool;
  packet_done : bool
}.

(** What the protocol session object answers during one session. *)
Record SessionEnv := {
  IsConnected : bool;
  (** [LaunchGDBServer]: the status and the by-reference results *)
  LaunchGDBServer_error : Status;
  LaunchGDBServer_pid : pid_t;
  LaunchGDBServer_port : option Z;
  LaunchGDBServer_socket_name : string;
  (** the successive calls of [GetPacketAndSendResponse] *)
  packets : list PacketStep
}.

(** The loop [while (!interrupt && !done)] of [client_handle]. *)
Fixpoint packet_loop (script : list PacketStep) (interrupt done : bool) : M unit :=
  if negb interrupt && negb done then
    match script with
    | [] => waiting
    | p :: rest =>
        emit (EvGetPacketAndSendResponse (packet_result p)) ;;;
        if negb (is_PR_Success (packet_result p)) then ret tt
        else packet_loop rest (packet_interrupt p) (packet_done p)
    end
  else ret tt.

(** The block [if (args.GetArgumentCount() > 0) { ... }]. *)
Definition launch_stub (env : SessionEnv) (args : list string) : M unit :=
  if (0 <? Z.of_nat (length args))%Z then
    emit (EvLaunchGDBServer args EmptyString) ;;;
    let error := LaunchGDBServer_error env in
    let pid := LaunchGDBServer_pid env in
    let port := LaunchGDBServer_port env in
    let socket_name := LaunchGDBServer_socket_name env in
    if Success error then
      match port with
      | Some p => emit (EvSetPendingGdbServer pid p socket_name)
      | None => undefined
      end
    else
      emit (EvWrite Stderr ("failed to start gdbserver: " ++ AsCString error ++ nl))
  else ret tt.

Definition client_handle (env : SessionEnv) (args : list string) : M unit :=
  if negb (IsConnected env) then ret tt
  else
    launch_stub env args ;;;
    packet_loop (packets env) false false ;;;
    emit (EvWrite Stdout ("Disconnected." ++ nl)).

(** ** spawn_process_reaped and spawn_process *)

(** The monitor callback: [signal] and [status] are not looked at. *)
Definition spawn_process_reaped (pid : pid_t) (signal status : Z) : M unit :=
  with_lock_guard (pool_FreePortForProcess pid).

(** What the socket and process layers answer during one spawn. *)
Record SpawnEnv := {
  (** the constructor [SharedSocket(conn_socket, error)] *)
  SharedSocket_error : Status;
  GetSendableFD : Z;
  (** [Host::GetEnvironment()] *)
  GetEnvironment : list string;
  (** [Host::LaunchProcess] and [launch_info.GetProcessID()] *)
  LaunchProcess_error : Status;
  GetProcessID : pid_t;
  (** [shared_socket.CompleteSending(child_pid)] *)
  CompleteSending_error : Status
}.

(** The argument list appended to [launch_info.GetArguments()]. *)
Definition spawn_self_args (sendable_fd gdb_port port_offset : Z)
    (args : list string) (log_file log_channels : string) : list string :=
  (["platform"; "--child-platform-fd"; pretty sendable_fd] ++
   (if negb (gdb_port =? 0)%Z then ["--gdbserver-port"; pretty gdb_port] else []) ++
   (if (port_offset >? 0)%Z then ["--port-offset"; pretty port_offset] else []) ++
   (if nonempty log_file then ["--log-file"; log_file] else []) ++
   (if nonempty log_channels then ["--log-channels"; log_channels] else []) ++
   (if (0 <? Z.of_nat (length args))%Z then "--" :: args else []))%list.

Definition spawn_launch_info (progname : string) (self_args : list string)
    (environment : list string) : ProcessLaunchInfo :=
  {| ExecutableFile := progname;
     add_exe_file_as_first_arg := true;
     Arguments := self_args;
     LaunchInSeparateProcessGroup := false;
     Environment := environment;
     MonitorProcessCallback_spawn_process_reaped := true;
     DisableSTDIO := true;
     FileActions :=
       [CloseFileAction STDIN_FILENO;
        CloseFileAction STDOUT_FILENO;
        CloseFileAction STDERR_FILENO;
        SuppressFileAction STDIN_FILENO true false;
        SuppressFileAction STDOUT_FILENO false true;
        SuppressFileAction STDERR_FILENO false true] |}.

Definition spawn_process (env : SpawnEnv) (progname : string) (conn_socket : Z)
    (gdb_port port_offset : Z) (args : list string)
    (log_file log_channels : string) : M Status :=
  emit (EvSharedSocket conn_socket) ;;;
  let error := SharedSocket_error env in
  if Fail error then ret error
  else
    let self_args :=
      spawn_self_args (GetSendableFD env) gdb_port port_offset args
                      log_file log_channels in
    let launch_info :=
      spawn_launch_info progname self_args (GetEnvironment env) in
    let cmd := GetCommandString host self_args in
    emit (EvLaunchProcess launch_info) ;;;
    let error := LaunchProcess_error env in
    if Fail error then ret error
    else
      let child_pid := GetProcessID env in
      if (child_pid =? LLDB_INVALID_PROCESS_ID)%Z then ret (StatusError "invalid pid")
      else
        emit (EvWrite Log_Platform
                ("lldb-platform launched '" ++ cmd ++ "', pid=" ++ pretty child_pid)) ;;;
        with_lock_guard (pool_AssociatePortWithProcess gdb_port child_pid) ;;;
        emit (EvCompleteSending child_pid) ;;;
        let error := CompleteSending_error env in
        if Fail error then
          emit (EvKill child_pid SIGTERM) ;;;
          ret error
        else ret StatusOk.

(** ** Option parsing *)

(** The options of [g_long_options] that set a flag variable: for them
    [getopt_long_only] stores 1 through the flag pointer and returns 0. *)
Inductive LongFlag := flag_debug | flag_verbose | flag_server.

(** The other values [getopt_long_only] returns: the [val] of an option of
    the table, ['h'], ['?'], or a value no case of the switch handles. *)
Inductive OptChar :=
| ch_L | ch_l | ch_c | ch_f | ch_p | ch_P | ch_m | ch_M
| ch_2          (* --child-platform-fd *)
| ch_h | ch_question
| ch_unhandled.

(** One return of [getopt_long_only], with [optarg]. *)
Inductive GetoptResult :=
| GotFlag (f : LongFlag)
| GotOpt (ch : OptChar) (optarg : string).

(** The local variables of [main_platform] that the options set. *)
Record Options := {
  listen_host_port : string;
  log_file : string;
  log_channels : string;
  fd : Z;
  min_gdbserver_port : Z;
  max_gdbserver_port : Z;
  port_offset : Z;
  socket_file : FileSpec;
  show_usage : bool;
  option_error : Z
}.

Definition socket_error : Z := -1.

Definition initial_options : Options :=
  {| listen_host_port := EmptyString; log_file := EmptyString;
     log_channels := EmptyString; fd := kInvalidFD host;
     min_gdbserver_port := 0; max_gdbserver_port := 0; port_offset := 0;
     socket_file := FileSpec_empty; show_usage := false; option_error := 0 |}.

Definition set_listen_host_port (v : string) (o : Options) : Options :=
  {| listen_host_port := v; log_file := log_file o;
     log_channels := log_channels o; fd := fd o;
     min_gdbserver_port := min_gdbserver_port o;
     max_gdbserver_port := max_gdbserver_port o; port_offset := port_offset o;
     socket_file := socket_file o; show_usage := show_usage o;
     option_error := option_error o |}.

Definition set_log_file (v : string) (o : Options) : Options :=
  {| listen_host_port := listen_host_port o; log_file := v;
     log_channels := log_channels o; fd := fd o;
     min_gdbserver_port := min_gdbserver_port o;
     max_gdbserver_port := max_gdbserver_port o; port_offset := port_offset o;
     socket_file := socket_file o; show_usage := show_usage o;
     option_error := option_error o |}.

Definition set_log_channels (v : string) (o : Options) : Options :=
  {| listen_host_port := listen_host_port o; log_file := log_file o;
     log_channels := v; fd := fd o;
     min_gdbserver_port := min_gdbserver_port o;
     max_gdbserver_port := max_gdbserver_port o; port_offset := port_offset o;
     socket_file := socket_file o; show_usage := show_usage o;
     option_error := option_error o |}.

Definition set_fd (v : Z) (o : Options) : Options :=
  {| listen_host_port := listen_host_port o; log_file := log_file o;
     log_channels := log_channels o; fd := v;
     min_gdbserver_port := min_gdbserver_port o;
     max_gdbserver_port := max_gdbserver_port o; port_offset := port_offset o;
     socket_file := socket_file o; show_usage := show_usage o;
     option_error := option_error o |}.

Definition set_min_gdbserver_port (v : Z) (o : Options) : Options :=
  {| listen_host_port := listen_host_port o; log_file := log_file o;
     log_channels := log_channels o; fd := fd o;
     min_gdbserver_port := v;
     max_gdbserver_port := max_gdbserver_port o; port_offset := port_offset o;
     socket_file := socket_file o; show_usage := show_usage o;
     option_error := option_error o |}.

Definition set_max_gdbserver_port (v : Z) (o : Options) : Options :=
  {| listen_host_port := listen_host_port o; log_file := log_file o;
     log_channels := log_channels o; fd := fd o;
     min_gdbserver_port := min_gdbserver_port o;
     max_gdbserver_port := v; port_offset := port_offset o;
     socket_file := socket_file o; show_usage := show_usage o;
     option_error := option_error o |}.

Definition set_port_offset (v : Z) (o : Options) : Options :=
  {| listen_host_port := listen_host_port o; log_file := log_file o;
     log_channels := log_channels o; fd := fd o;
     min_gdbserver_port := min_gdbserver_port o;
     max_gdbserver_port := max_gdbserver_port o; port_offset := v;
     socket_file := socket_file o; show_usage := show_usage o;
     option_error := option_error o |}.

Definition set_socket_file (v : FileSpec) (o : Options) : Options :=
  {| listen_host_port := listen_host_port o; log_file := log_file o;
     log_channels := log_channels o; fd := fd o;
     min_gdbserver_port := min_gdbserver_port o;
     max_gdbserver_port := max_gdbserver_port o; port_offset := port_offset o;
     socket_file := v; show_usage := show_usage o;
     option_error := option_error o |}.

Definition set_show_usage (v : bool) (o : Options) : Options :=
  {| listen_host_port := listen_host_port o; log_file := log_file o;
     log_channels := log_channels o; fd := fd o;
     min_gdbserver_port := min_gdbserver_port o;
     max_gdbserver_port := max_gdbserver_port o; port_offset := port_offset o;
     socket_file := socket_file o; show_usage := v;
     option_error := option_error o |}.

Definition set_option_error (v : Z) (o : Options) : Options :=
  {| listen_host_port := listen_host_port o; log_file := log_file o;
     log_channels := log_channels o; fd := fd o;
     min_gdbserver_port := min_gdbserver_port o;
     max_gdbserver_port := max_gdbserver_port o; port_offset := port_offset o;
     socket_file := socket_file o; show_usage := show_usage o;
     option_error := v |}.

Definition out_of_user_range (port : Z) : bool :=
  (port <? LOW_PORT)%Z || (port >? HIGH_PORT)%Z.

Definition range_text : string :=
  pretty LOW_PORT ++ " - " ++ pretty HIGH_PORT ++ nl.

(** The store [getopt_long_only] does for a flag option. *)
Definition store_flag (f : LongFlag) : M unit :=
  fun s =>
    Ret tt match f with
           | flag_debug => set_g_debug 1 s
           | flag_verbose => set_g_verbose 1 s
           | flag_server => set_g_server 1 s
           end.

(** The cases ['P'], ['m'] and ['M'] of the switch. *)
Definition parse_port_option (ch : OptChar) (optarg : string) (o : Options)
    : M Options :=
  match to_integer_u16 host optarg with
  | None =>
      emit (EvWrite WithColor_error
              ("invalid port number string " ++ optarg ++ nl)) ;;;
      ret (set_option_error 2 o)
  | Some portnum =>
      if out_of_user_range portnum then
        emit (EvWrite WithColor_error
                ("port number " ++ pretty portnum ++
                 " is not in the valid user port range of " ++ range_text)) ;;;
        ret (set_option_error 1 o)
      else
        match ch with
        | ch_P => pool_AllowPort portnum ;;; ret o
        | ch_m => ret (set_min_gdbserver_port portnum o)
        | _ => ret (set_max_gdbserver_port portnum o)
        end
  end.

(** The body of the switch for one return of [getopt_long_only]. *)
Definition parse_option (g : GetoptResult) (o : Options) : M Options :=
  match g with
  | GotFlag f => store_flag f ;;; ret o
  | GotOpt ch optarg =>
      match ch with
      | ch_L => ret (set_listen_host_port (listen_host_port o ++ optarg) o)
      | ch_l => ret (if nonempty optarg then set_log_file optarg o else o)
      | ch_c => ret (if nonempty optarg then set_log_channels optarg o else o)
      | ch_f =>
          ret (if nonempty optarg
               then set_socket_file (FileSpec_SetFile host optarg) o else o)
      | ch_p =>
          match to_integer_u16 host optarg with
          | None =>
              emit (EvWrite WithColor_error
                      ("invalid port offset string " ++ optarg ++ nl)) ;;;
              ret (set_option_error 4 o)
          | Some v =>
              let o := set_port_offset v o in
              if out_of_user_range v then
                emit (EvWrite WithColor_error
                        ("port offset " ++ pretty v ++
                         " is not in the valid user port range of " ++
                         range_text)) ;;;
                ret (set_option_error 5 o)
              else ret o
          end
      | ch_P | ch_m | ch_M => parse_port_option ch optarg o
      | ch_2 =>
          match to_integer_u64 host optarg with
          | None =>
              emit (EvWrite WithColor_error ("invalid fd " ++ optarg ++ nl)) ;;;
              ret (set_option_error 6 o)
          | Some _fd => ret (set_fd (to_shared_fd host _fd) o)
          end
      | ch_h | ch_question => ret (set_show_usage true o)
      | ch_unhandled => ret o
      end
  end.

(** The loop [while ((ch = getopt_long_only(...)) != -1)]. *)
Fixpoint parse_options (parsed : list GetoptResult) (o : Options) : M Options :=
  match parsed with
  | [] => ret o
  | g :: rest => o' <- parse_option g o ;; parse_options rest o'
  end.

(** ** main_platform *)

(** One return of [acceptor_up->Accept], with what the collaborators answer
    while that connection is handled. *)
Record Arrival := {
  Accept_error : Status;
  Accept_conn : Z;
  arrival_spawn : SpawnEnv;
  arrival_session : SessionEnv
}.

(** What the collaborators answer during one run of [main_platform]. *)
Record Env := {
  SetupLogging : bool;
  (** [SharedSocket::GetNativeSocket(fd, socket)] *)
  GetNativeSocket_error : Status;
  GetNativeSocket_socket : Z;
  (** [Acceptor::Create] and the acceptor it makes *)
  Acceptor_Create_error : Status;
  Listen_error : Status;
  GetLocalSocketId : string;
  GetSocketProtocol : string;
  GetSocketScheme : string;
  fs_env : FsEnv;
  (** the session of a child process *)
  child_session : SessionEnv;
  (** the successive returns of [Accept] *)
  arrivals : list Arrival
}.

Definition backlog : Z := 100.
Definition children_inherit_listen_socket : bool := false.
Definition children_inherit_accept_socket : bool := true.

Definition nonzero (z : Z) : bool := negb (z =? 0)%Z.

Definition read_g_server : M bool := fun s => Ret (nonzero (g_server s)) s.

(** The branch [if (g_server)] of the loop body, up to [delete conn]. *)
Definition serve_connection (a : Arrival) (progname : string) (o : Options)
    (inferior_arguments : list string) : M unit :=
  available_port <- with_lock_guard pool_GetNextAvailablePort ;;
  match available_port with
  | None =>
      emit (EvWrite Stderr
              ("no available gdbserver port for connection - dropping..." ++ nl))
  | Some p =>
      error <- spawn_process (arrival_spawn a) progname (Accept_conn a) p
                 (port_offset o) inferior_arguments (log_file o)
                 (log_channels o) ;;
      if Fail error then
        with_lock_guard (pool_FreePort p) ;;;
        emit (EvWrite Log_Platform ("spawn_process failed: " ++ AsCString error)) ;;;
        emit (EvWrite WithColor_error
                ("spawn_process failed: " ++ AsCString error ++ nl))
      else ret tt
  end ;;;
  emit (EvDeleteConn (Accept_conn a)).

(** The loop [do { ... } while (g_server)]; each turn takes one return of
    [Accept], and a daemon whose script is used up is blocked in [Accept]. *)
Fixpoint accept_loop (script : list Arrival) (progname : string) (o : Options)
    (inferior_arguments : list string) : M unit :=
  match script with
  | [] => waiting
  | a :: rest =>
      emit (EvAccept children_inherit_accept_socket) ;;;
      if Fail (Accept_error a) then
        emit (EvWrite WithColor_error (AsCString (Accept_error a) ++ nl)) ;;;
        exit socket_error
      else
        emit (EvWrite Stdout ("Connection established." ++ nl)) ;;;
        server <- read_g_server ;;
        if server then
          serve_connection a progname o inferior_arguments ;;;
          (* continue *)
          again <- read_g_server ;;
          if again then accept_loop rest progname o inferior_arguments
          else ret tt
        else
          emit EvAcceptorReset ;;;
          pm <- move_gdbserver_portmap ;;
          emit (EvSetPortMap pm) ;;;
          emit (EvSetConnection (Accept_conn a)) ;;;
          client_handle (arrival_session a) inferior_arguments ;;;
          again <- read_g_server ;;
          if again then accept_loop rest progname o inferior_arguments
          else ret tt
  end.

(** The part of [main_platform] that makes the port map for a port range. *)
Definition make_port_range (o : Options) : M Options :=
  if nonzero (min_gdbserver_port o) &&
     (min_gdbserver_port o <? max_gdbserver_port o)%Z then
    pool_assign_range (min_gdbserver_port o) (max_gdbserver_port o) ;;;
    ret o
  else if nonzero (min_gdbserver_port o) || nonzero (max_gdbserver_port o) then
    emit (EvWrite WithColor_error
            ("--min-gdbserver-port (" ++ pretty (min_gdbserver_port o) ++
             ") is not lower than --max-gdbserver-port (" ++
             pretty (max_gdbserver_port o) ++ ")" ++ nl)) ;;;
    ret (set_option_error 3 o)
  else ret o.

(** The branch [if (fd != SharedSocket::kInvalidFD)]. *)
Definition child_platform (env : Env) (o : Options)
    (inferior_arguments : list string) : M Z :=
  if nonempty (listen_host_port o) then
    emit (EvWrite Log_Platform
            ("lldb-platform child: " ++
             "ambiguous parameters --listen and --child-platform-fd")) ;;;
    ret socket_error
  else
    emit (EvGetNativeSocket (fd o)) ;;;
    let error := GetNativeSocket_error env in
    if Fail error then
      emit (EvWrite Log_Platform ("lldb-platform child: " ++ AsCString error)) ;;;
      ret socket_error
    else
      emit (EvPlatformCreate "ProtocolTcp" "tcp") ;;;
      (if (port_offset o >? 0)%Z then emit (EvSetPortOffset (port_offset o))
       else ret tt) ;;;
      pm <- move_gdbserver_portmap ;;
      emit (EvSetPortMap pm) ;;;
      emit (EvSetConnection (GetNativeSocket_socket env)) ;;;
      client_handle (child_session env) inferior_arguments ;;;
      ret 0%Z.

(** The rest of [main_platform], from [Acceptor::Create] on. *)
Definition parent_platform (env : Env) (progname : string) (o : Options)
    (inferior_arguments : list string) : M Z :=
  emit (EvAcceptorCreate (listen_host_port o) children_inherit_listen_socket) ;;;
  let error := Acceptor_Create_error env in
  if Fail error then
    emit (EvWrite Stderr ("failed to create acceptor: " ++ AsCString error)) ;;;
    exit socket_error
  else
    emit (EvListen backlog) ;;;
    let error := Listen_error env in
    if Fail error then
      emit (EvWrite Stdout ("failed to listen: " ++ AsCString error ++ nl)) ;;;
      exit socket_error
    else
      saved <-
        (if FileSpec_bool (socket_file o) then
           save_socket_id_to_file (fs_env env) (GetLocalSocketId env)
                                  (socket_file o)
         else ret StatusOk) ;;
      if Fail saved then
        emit (EvWrite Stderr
                ("failed to write socket id to " ++
                 GetPath host (socket_file o) ++ ": " ++ AsCString saved ++ nl)) ;;;
        ret 1%Z
      else
        emit (EvPlatformCreate (GetSocketProtocol env) (GetSocketScheme env)) ;;;
        (if (port_offset o >? 0)%Z then emit (EvSetPortOffset (port_offset o))
         else ret tt) ;;;
        accept_loop (arrivals env) progname o inferior_arguments ;;;
        emit (EvWrite Stderr ("lldb-server exiting..." ++ nl)) ;;;
        ret 0%Z.

(** [main_platform].  [parsed] is what the successive calls of
    [getopt_long_only] return on [argv], and [inferior_arguments] is what is
    left of [argv] after the options. *)
Definition main_platform (env : Env) (progname subcommand : string)
    (parsed : list GetoptResult) (inferior_arguments : list string) : M Z :=
  o <- parse_options parsed initial_options ;;
  emit (EvSetupLogging (log_file o) (log_channels o)) ;;;
  if negb (SetupLogging env) then ret (-1)%Z
  else
    o <- make_port_range o ;;
    let o :=
      if negb (nonempty (listen_host_port o)) && (fd o =? kInvalidFD host)%Z
      then set_show_usage true o else o in
    (if show_usage o || nonzero (option_error o) then
       display_usage progname subcommand ;;;
       exit (option_error o)
     else ret tt) ;;;
    if negb (fd o =? kInvalidFD host)%Z then
      child_platform env o inferior_arguments
    else
      parent_platform env progname o inferior_arguments.

(** The status with which the process ends, when it ends. *)
Definition exit_status {A} (code_of : A -> Z) (r : Result A) : option Z :=
  match r with
  | Ret a _ => Some (code_of a)
  | Exit code _ => Some code
  | Undefined _ => None
  | Waiting _ => None
  end.

(** ** Vocabulary of the properties *)

(** The state after some more events. *)
Definition log (evs : list Event) (s : State) : State :=
  set_trace (trace s ++ evs) s.

Definition is_accept (e : Event) : bool :=
  match e with EvAccept _ => true | _ => false end.

Definition is_stub_launch (e : Event) : bool :=
  match e with EvLaunchGDBServer _ _ => true | _ => false end.

(** A call of the discovery-file step: [create_directory], or one of the two
    steps of [llvm::writeToOutput].  The log file is not written by these:
    [SetupLogging] opens it and the logging library writes it, which the trace
    shows as [EvSetupLogging] and [EvWrite Log_Platform]. *)
Definition is_file_event (e : Event) : bool :=
  match e with
  | EvCreateDirectory _ | EvWriteTemp _ _ | EvPublish _ _ => true
  | _ => false
  end.

Definition is_acceptor_create (e : Event) : bool :=
  match e with EvAcceptorCreate _ _ => true | _ => false end.

Definition not_accept (e : Event) : bool := negb (is_accept e).
Definition not_stub_launch (e : Event) : bool := negb (is_stub_launch e).
Definition not_file_event (e : Event) : bool := negb (is_file_event e).

(** The events a session can produce. *)
Definition session_event (e : Event) : bool :=
  match e with
  | EvWrite _ _ | EvLaunchGDBServer _ _ | EvSetPendingGdbServer _ _ _
  | EvGetPacketAndSendResponse _ => true
  | _ => false
  end.

Definition count_events (p : Event -> bool) (t : list Event) : nat :=
  length (List.filter p t).

(** The trace of [s'] is the trace of [s] with more events, all of them
    satisfying [p]. *)
Definition extends (p : Event -> bool) (s s' : State) : Prop :=
  exists later, trace s' = (trace s ++ later)%list /\ forallb p later = true.

(** [s'] comes after [s]: more events, all of them satisfying [p], the same
    files and the same [g_server]. *)
Definition follows (p : Event -> bool) (s s' : State) : Prop :=
  extends p s s' /\
  files s' = files s /\
  g_server s' = g_server s.

(** A computation that, however it ends, only adds events satisfying [p]. *)
Definition adds_only {A} (p : Event -> bool) (c : M A) : Prop :=
  forall s, extends p s (final_state (c s)).

Definition any_event (e : Event) : bool := true.

(** A computation that, however it ends, only adds events satisfying [p] and
    leaves the files and [g_server] alone. *)
Definition emits_only {A} (p : Event -> bool) (c : M A) : Prop :=
  forall s, follows p s (final_state (c s)).

(** Whether the loop of [client_handle] comes to its end within the script:
    a call fails, or leaves [interrupt] or [done] set. *)
Fixpoint script_ends (script : list PacketStep) (interrupt done : bool) : bool :=
  if negb interrupt && negb done then
    match script with
    | [] => false
    | p :: rest =>
        if negb (is_PR_Success (packet_result p)) then true
        else script_ends rest (packet_interrupt p) (packet_done p)
    end
  else true.

(** The launch of the stub does not read an empty port. *)
Definition launch_well_defined (env : SessionEnv) (args : list string) : bool :=
  match args, LaunchGDBServer_port env with
  | _ :: _, None => Fail (LaunchGDBServer_error env)
  | _, _ => true
  end.

(** The session comes to its end: the platform is not connected, or the
    launch is well defined and the script ends the loop. *)
Definition session_ends (env : SessionEnv) (args : list string) : bool :=
  negb (IsConnected env) ||
  (launch_well_defined env args && script_ends (packets env) false false).

(** Who reads what an event writes: text printed with [printf], [fprintf] or
    through the log stays with whoever runs the daemon; only the packets of
    [GetPacketAndSendResponse] travel over the connection to the peer. *)
Inductive Reader := Operator | Peer.

Definition reader_of (e : Event) : option Reader :=
  match e with
  | EvWrite _ _ => Some Operator
  | EvGetPacketAndSendResponse _ => Some Peer
  | _ => None
  end.

(** Some event of [evs] reaches the peer. *)
Definition reaches_peer (evs : list Event) : bool :=
  existsb (fun e => match reader_of e with Some Peer => true | _ => false end) evs.

(** The failure of a stub launch is reported to the peer: what
    [client_handle] does about the launch, before it enters its loop, produces
    an event that reaches the peer. *)
Definition failure_reported_to_peer (env : SessionEnv) (args : list string)
    (s : State) : Prop :=
  reaches_peer (drop (length (trace s))
                     (trace (final_state (launch_stub env args s)))) = true.

(** The events of the accept loop. *)
Definition connection_established : list Event :=
  [EvAccept children_inherit_accept_socket;
   EvWrite Stdout ("Connection established." ++ nl)%string].

Definition dropping : Event :=
  EvWrite Stderr
    ("no available gdbserver port for connection - dropping..." ++ nl)%string.

Definition spawn_failed (error : Status) : list Event :=
  [EvWrite Log_Platform ("spawn_process failed: " ++ AsCString error)%string;
   EvWrite WithColor_error
     ("spawn_process failed: " ++ AsCString error ++ nl)%string].

(** The state in which the loop goes on after [spawn_process] returned
    [error] in the state [s2], for the reserved port [p]. *)
Definition after_spawn (a : Arrival) (p : Z) (error : Status) (s2 : State) : State :=
  if Fail error then
    set_portmap (FreePort p (gdbserver_portmap s2))
      (log ([EvLock; EvPool (OpFreePort p); EvUnlock] ++ spawn_failed error ++
            [EvDeleteConn (Accept_conn a)]) s2)
  else log [EvDeleteConn (Accept_conn a)] s2.

Definition exiting : Event :=
  EvWrite Stderr ("lldb-server exiting..." ++ nl)%string.

(** The events of a single-shot session up to the call of [client_handle]. *)
Definition single_shot_events (a : Arrival) (pm : PortMap) : list Event :=
  (connection_established ++
   [EvAcceptorReset; EvSetPortMap pm; EvSetConnection (Accept_conn a)])%list.

(** The events and the files of a discovery file written with
    [save_socket_id_to_file]. *)
Definition discovery_events (o : Options) (content : string) : list Event :=
  let path := GetPath host (socket_file o) in
  [EvCreateDirectory
     (GetPath host (FileSpec_SetFile host (Directory (socket_file o))));
   EvWriteTemp (path ++ ".temp-stream")%string content;
   EvPublish (path ++ ".temp-stream")%string path].

Definition published (path content : string) (f : gmap string string)
    : gmap string string :=
  <[path := content]>
    (delete (path ++ ".temp-stream")%string
       (<[(path ++ ".temp-stream")%string := content]> f)).

(** The events of [main_platform] from [Acceptor::Create] to the accept loop,
    when every call succeeds. *)
Definition startup_events (env : Env) (o : Options) : list Event :=
  ([EvAcceptorCreate (listen_host_port o) children_inherit_listen_socket;
    EvListen backlog] ++
   (if FileSpec_bool (socket_file o)
    then discovery_events o (GetLocalSocketId env) else []) ++
   [EvPlatformCreate (GetSocketProtocol env) (GetSocketScheme env)] ++
   (if (port_offset o >? 0)%Z then [EvSetPortOffset (port_offset o)] else []))%list.

(** The state in which the accept loop starts. *)
Definition started (env : Env) (o : Options) (s : State) : State :=
  set_files
    (if FileSpec_bool (socket_file o)
     then published (GetPath host (socket_file o)) (GetLocalSocketId env) (files s)
     else files s)
    (log (startup_events env o) s).

(** The state in which a child process runs its session. *)
Definition child_state (env : Env) (o : Options) (s : State) : State :=
  set_portmap PortMap_default
    (log ([EvGetNativeSocket (fd o); EvPlatformCreate "ProtocolTcp" "tcp"] ++
          (if (port_offset o >? 0)%Z then [EvSetPortOffset (port_offset o)] else []) ++
          [EvSetPortMap (gdbserver_portmap s);
           EvSetConnection (GetNativeSocket_socket env)])%list s).

(** The run was stopped by [exit] and no acceptor was ever created. *)
Definition rejected_before_listening {A} (r : Result A) : Prop :=
  (exists code s, r = Exit code s) /\
  count_events is_acceptor_create (trace (final_state r)) = 0%nat.

(** ** Vocabulary of the further properties *)

Definition in_user_range (port : Z) : bool := negb (out_of_user_range port).

(** A port number handed to the port map or to the platform is a user port,
    and a range handed to the port map is a proper range of user ports. *)
Definition valid_port_event (e : Event) : bool :=
  match e with
  | EvPool (OpAllowPort port) => in_user_range port
  | EvPool (OpAssignRange min_port max_port) =>
      in_user_range min_port && in_user_range max_port &&
      (min_port <? max_port)%Z
  | EvSetPortOffset offset => in_user_range offset
  | _ => true
  end.

(** The events of option handling: messages, the set-up of the log and the
    configuration of the port map. *)
Definition config_event (e : Event) : bool :=
  match e with
  | EvWrite _ _ | EvSetupLogging _ _
  | EvPool (OpAllowPort _) | EvPool (OpAssignRange _ _) => true
  | _ => false
  end.

(** A port that is unset, or a user port. *)
Definition unset_or_user_port (port : Z) : Prop :=
  port = 0%Z \/ in_user_range port = true.

(** What option handling keeps true of the local variables. *)
Definition options_checked (o : Options) : Prop :=
  unset_or_user_port (min_gdbserver_port o) /\
  unset_or_user_port (max_gdbserver_port o) /\
  (option_error o = 0%Z -> unset_or_user_port (port_offset o)) /\
  (0 <= option_error o <= 6)%Z.

(** The arguments of the options [--listen], in order. *)
Definition listen_arguments (parsed : list GetoptResult) : list string :=
  omap (fun g => match g with
                 | GotOpt ch_L optarg => Some optarg
                 | _ => None
                 end) parsed.

Definition gives_server_flag (g : GetoptResult) : bool :=
  match g with GotFlag flag_server => true | _ => false end.

Definition gives_socket_file (g : GetoptResult) : bool :=
  match g with GotOpt ch_f optarg => nonempty optarg | _ => false end.

Definition asks_for_help (g : GetoptResult) : bool :=
  match g with GotOpt ch_h _ | GotOpt ch_question _ => true | _ => false end.

(** An event of option handling that carries valid ports only. *)
Definition checked_config_event (e : Event) : bool :=
  config_event e && valid_port_event e.

(** The events [spawn_process] can produce. *)
Definition spawn_event (e : Event) : bool :=
  match e with
  | EvSharedSocket _ | EvLaunchProcess _ | EvWrite _ _ | EvLock | EvUnlock
  | EvPool (OpAssociatePortWithProcess _ _) | EvCompleteSending _ | EvKill _ _ => true
  | _ => false
  end.

(** The events of the accept loop in server mode. *)
Definition server_event (e : Event) : bool :=
  spawn_event e ||
  match e with
  | EvAccept _ | EvDeleteConn _
  | EvPool (OpGetNextAvailablePort _) | EvPool (OpFreePort _) => true
  | _ => false
  end.

(** The events of the accept loop out of server mode. *)
Definition single_shot_event (e : Event) : bool :=
  session_event e ||
  match e with
  | EvAccept _ | EvAcceptorReset | EvSetPortMap _ | EvSetConnection _ => true
  | _ => false
  end.

(** The events of the child process after its options. *)
Definition child_event (o : Options) (e : Event) : bool :=
  session_event e ||
  match e with
  | EvGetNativeSocket _ | EvPlatformCreate _ _ | EvSetPortMap _
  | EvSetConnection _ => true
  | EvSetPortOffset offset =>
      (offset =? port_offset o)%Z && (offset >? 0)%Z
  | _ => false
  end.

(** The events of the parent process after its options. *)
Definition parent_event (o : Options) (e : Event) : bool :=
  server_event e || single_shot_event e || is_file_event e ||
  match e with
  | EvAcceptorCreate _ _ | EvListen _ | EvPlatformCreate _ _ => true
  | EvSetPortOffset offset =>
      (offset =? port_offset o)%Z && (offset >? 0)%Z
  | _ => false
  end.

(** The strings of a list, one after the other. *)
Definition join (l : list string) : string :=
  foldr String.append EmptyString l.

(** The events of a run that works on a handoff token. *)
Definition child_run_event (e : Event) : bool :=
  config_event e || session_event e ||
  match e with
  | EvGetNativeSocket _ | EvPlatformCreate _ _ | EvSetPortMap _
  | EvSetConnection _ | EvSetPortOffset _ => true
  | _ => false
  end.

(** The events of a run that does not resolve a handoff token. *)
Definition parent_run_event (e : Event) : bool :=
  match e with EvGetNativeSocket _ => false | _ => true end.

Definition accept_ok (a : Arrival) : bool := negb (Fail (Accept_error a)).


Definition is_delete (e : Event) : bool :=
  match e with EvDeleteConn _ => true | _ => false end.



Definition is_free_port (e : Event) : bool :=
  match e with EvPool (OpFreePort _) => true | _ => false end.

Definition is_free_of (port : Z) (e : Event) : bool :=
  match e with EvPool (OpFreePort q) => (q =? port)%Z | _ => false end.

(** A worker with a valid pid was started. *)
Definition launched (env : SpawnEnv) : bool :=
  negb (Fail (SharedSocket_error env)) &&
  negb (Fail (LaunchProcess_error env)) &&
  negb (GetProcessID env =? LLDB_INVALID_PROCESS_ID)%Z.

(** The worker was started and the connection was handed to it. *)
Definition handed_over (env : SpawnEnv) : bool :=
  launched env && negb (Fail (CompleteSending_error env)).

Definition count_if (b : bool) : nat := if b then 1%nat else 0%nat.


(** The port map with which the loop goes on after [spawn_process] was called
    for the reserved port [p], [pm] being the map after the reservation. *)
Definition port_map_after (env : SpawnEnv) (p : Z) (pm : PortMap) : PortMap :=
  let pm1 := if launched env
             then AssociatePortWithProcess p (GetProcessID env) pm else pm in
  if negb (handed_over env) then FreePort p pm1 else pm1.


(** A call on [gdbserver_portmap] of the kind made while worker processes and
    their monitor threads may exist. *)
Definition guarded_call (e : Event) : bool :=
  match e with
  | EvPool (OpGetNextAvailablePort _) | EvPool (OpAssociatePortWithProcess _ _)
  | EvPool (OpFreePort _) | EvPool (OpFreePortForProcess _) => true
  | _ => false
  end.

(** One event read with [gdbserver_portmap_mutex] held or not: the mutex is
    not taken when held nor released when free, and an event other than these
    two is a guarded call exactly when the mutex is held.  [None] when the
    event breaks this rule. *)
Definition lock_step (held : bool) (e : Event) : option bool :=
  match e with
  | EvLock => if held then None else Some true
  | EvUnlock => if held then Some false else None
  | _ => if Bool.eqb (guarded_call e) held then Some held else None
  end.

Fixpoint lock_scan (held : bool) (evs : list Event) : option bool :=
  match evs with
  | [] => Some held
  | e :: rest =>
      match lock_step held e with
      | Some held' => lock_scan held' rest
      | None => None
      end
  end.

(** An event that has nothing to do with the mutex. *)
Definition lock_neutral (e : Event) : bool :=
  match e with
  | EvLock | EvUnlock => false
  | _ => negb (guarded_call e)
  end.

(** From [s] to [s'] the mutex was used by the rule, and is free at the end. *)
Definition well_locked (s s' : State) : Prop :=
  exists later,
    trace s' = (trace s ++ later)%list /\ lock_scan false later = Some false.


(** The arguments of the options [--log-file] and [--log-channels], in order. *)
Definition log_file_arguments (parsed : list GetoptResult) : list string :=
  omap (fun g => match g with
                 | GotOpt ch_l optarg => Some optarg
                 | _ => None
                 end) parsed.

Definition log_channels_arguments (parsed : list GetoptResult) : list string :=
  omap (fun g => match g with
                 | GotOpt ch_c optarg => Some optarg
                 | _ => None
                 end) parsed.

(** The last string of a list that is not empty, or [d] when there is none. *)
Definition last_given (d : string) (l : list string) : string :=
  default d (last (List.filter nonempty l)).


(** An event of a session that the process serves itself. *)
Definition own_session_event (e : Event) : bool :=
  match e with
  | EvLaunchGDBServer _ _ | EvSetPendingGdbServer _ _ _
  | EvGetPacketAndSendResponse _ | EvAcceptorReset | EvSetPortMap _
  | EvSetConnection _ | EvGetNativeSocket _ => true
  | _ => false
  end.

(** An event of handing a connection to a worker process. *)
Definition worker_event (e : Event) : bool :=
  match e with
  | EvSharedSocket _ | EvLaunchProcess _ | EvCompleteSending _ | EvKill _ _
  | EvLock | EvUnlock | EvDeleteConn _ => true
  | _ => guarded_call e
  end.

Definition serves_nothing_itself (e : Event) : bool := negb (own_session_event e).

Definition spawns_nothing (e : Event) : bool := negb (worker_event e).


(** [run] is a run of the accept loop that has brought the state to [s1] and
    there goes on with the next [Accept]: it is the loop on the arrivals that
    are left, started in [s1]; with no arrival left it is blocked in [Accept]
    in the state [s1], and with one left the call of [Accept] is the next
    event after those of [s1]. *)
Definition goes_on_accepting (rest : list Arrival) (progname : string)
    (o : Options) (inferior_arguments : list string) (run : Result unit)
    (s1 : State) : Prop :=
  run = accept_loop rest progname o inferior_arguments s1 /\
  match rest with
  | [] => run = Waiting s1
  | _ :: _ =>
      exists later,
        trace (final_state run)
        = (trace s1 ++ EvAccept children_inherit_accept_socket :: later)%list
  end.


(** The option is not rejected when it is the only one: read with the
    variables as [main_platform] declares them, it sets no option error and
    does not ask for the usage text. *)
Definition accepted_alone (g : GetoptResult) : bool :=
  match parse_option g initial_options initial_state with
  | Ret o _ => (option_error o =? 0)%Z && negb (show_usage o)
  | _ => false
  end.

End Daemon.

(** ** A port pool after the spec, and a host library, to run the model *)

(** Who holds a port that is not free. *)
Inductive PortOwner :=
| Reserved                (* handed out, no worker recorded yet *)
| Worker (pid : pid_t).

Global Instance PortOwner_eq_dec : EqDecision PortOwner.
Proof. solve_decision. Defined.

(** Modelled from the spec: the class [PortMap] is defined with the platform
    protocol server, which is not among the sources.  The spec describes a set
    of allowed ports and a mapping from an allocated port to the worker that
    owns it; a port is free when it is allowed and nothing holds it. *)
Record SpecPortMap := {
  allowed : gset Z;
  assigned : gmap Z PortOwner
}.

Definition is_free (pm : SpecPortMap) (p : Z) : bool :=
  bool_decide (assigned pm !! p = None).

(** The least element of a list of ports. *)
Definition least (l : list Z) : option Z :=
  foldr (fun p acc => match acc with
                      | None => Some p
                      | Some q => Some (Z.min p q)
                      end) None l.

(** Modelled from the spec: "returns a free port following a deterministic
    policy (ascending numeric order among allowed ports); returns empty when
    exhausted".  The port handed out is reserved. *)
Definition spec_allocate_next (pm : SpecPortMap) : option Z * SpecPortMap :=
  match least (filter (fun p => is_free pm p = true) (elements (allowed pm))) with
  | None => (None, pm)
  | Some p =>
      (Some p, {| allowed := allowed pm; assigned := <[p := Reserved]> (assigned pm) |})
  end.

(** Modelled from the spec: "records ownership"; assigned ports stay a subset
    of the allowed ports. *)
Definition spec_associate (port : Z) (pid : pid_t) (pm : SpecPortMap) : SpecPortMap :=
  if bool_decide (port ∈ allowed pm) then
    {| allowed := allowed pm; assigned := <[port := Worker pid]> (assigned pm) |}
  else pm.

(** Modelled from the spec: "unconditionally returns a port to the free set;
    idempotent". *)
Definition spec_free (port : Z) (pm : SpecPortMap) : SpecPortMap :=
  {| allowed := allowed pm; assigned := delete port (assigned pm) |}.

(** Modelled from the spec: "looks up and frees whatever port (if any) is
    associated with that worker". *)
Definition spec_free_for_worker (pid : pid_t) (pm : SpecPortMap) : SpecPortMap :=
  {| allowed := allowed pm;
     assigned := filter (fun kv => kv.2 ≠ Worker pid) (assigned pm) |}.

(** Modelled from the spec: a pool is configured from an enumerated set of
    allowed ports or from a contiguous range [min, max]. *)
Definition spec_range (min_port max_port : Z) : SpecPortMap :=
  {| allowed := list_to_set (seqZ min_port (max_port - min_port + 1));
     assigned := ∅ |}.

Definition spec_allow (port : Z) (pm : SpecPortMap) : SpecPortMap :=
  {| allowed := {[port]} ∪ allowed pm; assigned := assigned pm |}.

Global Instance SpecPortPool : PortPool SpecPortMap := {|
  PortMap_default := {| allowed := ∅; assigned := ∅ |};
  PortMap_range := spec_range;
  AllowPort := spec_allow;
  GetNextAvailablePort := spec_allocate_next;
  AssociatePortWithProcess := spec_associate;
  FreePort := spec_free;
  FreePortForProcess := spec_free_for_worker
|}.

(** Unsigned numerals, read as [llvm::to_integer] reads them with its
    default base 0: the radix is taken from the prefix ([0x] sixteen, [0b]
    two, [0o] eight, a [0] before a digit eight, else ten), every character
    after the prefix has to be a digit of that radix, and there has to be
    one. *)
Definition digit_of (c : ascii) : option Z :=
  let n := Z.of_nat (nat_of_ascii c) in
  if (48 <=? n)%Z && (n <=? 57)%Z then Some (n - 48)%Z
  else if (97 <=? n)%Z && (n <=? 122)%Z then Some (n - 97 + 10)%Z
  else if (65 <=? n)%Z && (n <=? 90)%Z then Some (n - 65 + 10)%Z
  else None.

Definition is_decimal_digit (c : ascii) : bool :=
  let n := Z.of_nat (nat_of_ascii c) in (48 <=? n)%Z && (n <=? 57)%Z.

(** [GetAutoSenseRadix]: the radix, and the numeral without its prefix. *)
Definition auto_sense_radix (s : string) : Z * string :=
  match s with
  | String "0" (String "x" r) | String "0" (String "X" r) => (16, r)
  | String "0" (String "b" r) | String "0" (String "B" r) => (2, r)
  | String "0" (String "o" r) => (8, r)
  | String "0" (String c r) =>
      if is_decimal_digit c then (8, String c r) else (10, s)
  | _ => (10, s)
  end%Z.

Fixpoint parse_digits (radix : Z) (s : string) (acc : Z) : option Z :=
  match s with
  | EmptyString => Some acc
  | String c r =>
      match digit_of c with
      | Some d =>
          if (d <? radix)%Z then parse_digits radix r (radix * acc + d)%Z
          else None
      | None => None
      end
  end.

Definition parse_unsigned (bits : Z) (s : string) : option Z :=
  let (radix, digits) := auto_sense_radix s in
  if nonempty digits then
    match parse_digits radix digits 0 with
    | Some v => if (v <? 2 ^ 64)%Z && (v <? 2 ^ bits)%Z then Some v else None
    | None => None
    end
  else None.

(** A path is split at its last slash. *)
Fixpoint split_path (s : string) : option string * string :=
  match s with
  | EmptyString => (None, EmptyString)
  | String c r =>
      match split_path r with
      | (Some d, f) => (Some (String c d), f)
      | (None, f) =>
          if Ascii.eqb c "/"%char then (Some EmptyString, f)
          else (None, String c f)
      end
  end.

Definition posix_SetFile (s : string) : FileSpec :=
  match split_path s with
  | (Some d, f) => {| Directory := d; Filename := f |}
  | (None, f) => {| Directory := EmptyString; Filename := f |}
  end.

Definition posix_GetPath (f : FileSpec) : string :=
  if nonempty (Directory f) then
    if nonempty (Filename f) then Directory f ++ "/" ++ Filename f
    else Directory f
  else Filename f.

(** Modelled from the spec: [llvm::to_integer], [SharedSocket], [FileSpec] and
    [Args] are not among the sources, and the spec only says what they are for
    (a port value, a handoff token, a file path, a command line).  This host
    is one implementation of them, on which the model runs on concrete command
    lines: it reads numerals as [llvm::to_integer] does with base 0, has
    [int] descriptors with -1 as the invalid one, and joins a command line
    with spaces. *)
Definition posix_host : HostLib :=
  {| to_integer_u16 := parse_unsigned 16;
     to_integer_u64 := parse_unsigned 64;
     kInvalidFD := (-1)%Z;
     to_shared_fd := fun z =>
       let r := (z mod 2 ^ 32)%Z in
       if (r <? 2 ^ 31)%Z then r else (r - 2 ^ 32)%Z;
     FileSpec_SetFile := posix_SetFile;
     GetPath := posix_GetPath;
     GetCommandString := String.concat " " |}.


Arguments Ret {PortMap A} a s.
Arguments Exit {PortMap A} code s.
Arguments Undefined {PortMap A} s.
Arguments Waiting {PortMap A} s.

(** ** Sample answers of the collaborators *)

Definition done_step : PacketStep :=
  {| packet_result := PR_Success; packet_interrupt := false; packet_done := true |}.

Definition interrupt_step : PacketStep :=
  {| packet_result := PR_Success; packet_interrupt := true; packet_done := false |}.

Definition error_step : PacketStep :=
  {| packet_result := PR_ErrorDisconnected; packet_interrupt := false;
     packet_done := false |}.

Definition more_step : PacketStep :=
  {| packet_result := PR_Success; packet_interrupt := false; packet_done := false |}.

(** A session whose stub launch succeeds on port 9100. *)
Definition session_ok (script : list PacketStep) : SessionEnv :=
  {| IsConnected := true;
     LaunchGDBServer_error := StatusOk;
     LaunchGDBServer_pid := 4242;
     LaunchGDBServer_port := Some 9100%Z;
     LaunchGDBServer_socket_name := EmptyString;
     packets := script |}.

(** A session whose stub launch fails. *)
Definition session_launch_fails (script : list PacketStep) : SessionEnv :=
  {| IsConnected := true;
     LaunchGDBServer_error := StatusError "unable to launch a GDB server";
     LaunchGDBServer_pid := LLDB_INVALID_PROCESS_ID;
     LaunchGDBServer_port := None;
     LaunchGDBServer_socket_name := EmptyString;
     packets := script |}.

(** A session whose stub launch reports success and leaves the port empty. *)
Definition session_no_port (script : list PacketStep) : SessionEnv :=
  {| IsConnected := true;
     LaunchGDBServer_error := StatusOk;
     LaunchGDBServer_pid := 4242;
     LaunchGDBServer_port := None;
     LaunchGDBServer_socket_name := EmptyString;
     packets := script |}.

Definition spawn_ok (pid : pid_t) : SpawnEnv :=
  {| SharedSocket_error := StatusOk; GetSendableFD := 5;
     GetEnvironment := ["PATH=/usr/bin"];
     LaunchProcess_error := StatusOk; GetProcessID := pid;
     CompleteSending_error := StatusOk |}.

Definition spawn_launch_fails : SpawnEnv :=
  {| SharedSocket_error := StatusOk; GetSendableFD := 5;
     GetEnvironment := ["PATH=/usr/bin"];
     LaunchProcess_error := StatusError "posix_spawn failed";
     GetProcessID := LLDB_INVALID_PROCESS_ID;
     CompleteSending_error := StatusOk |}.

Definition spawn_handoff_fails (pid : pid_t) : SpawnEnv :=
  {| SharedSocket_error := StatusOk; GetSendableFD := 5;
     GetEnvironment := ["PATH=/usr/bin"];
     LaunchProcess_error := StatusOk; GetProcessID := pid;
     CompleteSending_error := StatusError "cannot complete sending" |}.

Definition arrival (conn : Z) (sp : SpawnEnv) (se : SessionEnv) : Arrival :=
  {| Accept_error := StatusOk; Accept_conn := conn;
     arrival_spawn := sp; arrival_session := se |}.

(** A run in which every start-up call succeeds. *)
Definition sample_env (child : SessionEnv) (script : list Arrival) : Env :=
  {| SetupLogging := true;
     GetNativeSocket_error := StatusOk;
     GetNativeSocket_socket := 7;
     Acceptor_Create_error := StatusOk;
     Listen_error := StatusOk;
     GetLocalSocketId := "45678";
     GetSocketProtocol := "ProtocolTcp";
     GetSocketScheme := "tcp";
     fs_env := {| create_directory_result := StatusOk; write_result := StatusOk |};
     child_session := child;
     arrivals := script |}.

(** The state the program starts in, with the pool after the spec. *)
Definition start : @State SpecPortMap := initial_state.

(** The pool of a daemon started with the range 9000 to 9002. *)
Definition serving (pm : SpecPortMap) : @State SpecPortMap :=
  set_g_server 1 (set_portmap pm initial_state).

(** The options of a parent that listens on [*:0] and writes its socket id
    to a discovery file. *)
Definition discovery_options : Options :=
  set_socket_file (posix_SetFile "/tmp/lldb/socket.txt")
    (set_listen_host_port "*:0" (initial_options posix_host)).

(** A command line with a listen address, an allowed port and a port range. *)
Definition port_and_range : list GetoptResult :=
  ([GotOpt ch_L "*:1234"] ++
   GotOpt ch_P "2000" :: [GotOpt ch_m "9000"; GotOpt ch_M "9002"])%list.

(** What the options of [port_and_range] leave behind. *)
Definition port_and_range_options : Options :=
  set_max_gdbserver_port 9002
    (set_min_gdbserver_port 9000
       (set_listen_host_port "*:1234" (initial_options posix_host))).

Definition port_and_range_state : @State SpecPortMap :=
  set_portmap (spec_allow 2000 PortMap_default)
    (log [EvPool (OpAllowPort 2000)] start).

(** The command line of a child process. *)
Definition child_options : list GetoptResult := [GotOpt ch_2 "7"].

(** A run whose log cannot be set up. *)
Definition sample_env_without_log : Env :=
  {| SetupLogging := false;
     GetNativeSocket_error := StatusOk;
     GetNativeSocket_socket := 7;
     Acceptor_Create_error := StatusOk;
     Listen_error := StatusOk;
     GetLocalSocketId := "45678";
     GetSocketProtocol := "ProtocolTcp";
     GetSocketScheme := "tcp";
     fs_env := {| create_directory_result := StatusOk; write_result := StatusOk |};
     child_session := session_ok [];
     arrivals := [] |}.

(** A command line with a listen address and a handoff token. *)
Definition listen_and_token : list GetoptResult :=
  [GotOpt ch_L "*:1234"; GotOpt ch_2 "7"].

Definition listen_and_token_options : Options :=
  set_fd (to_shared_fd posix_host 7)
    (set_listen_host_port "*:1234" (initial_options posix_host)).

(** A command line with a lower bound for the ports and no upper bound. *)
Definition lower_bound_alone : list GetoptResult :=
  [GotOpt ch_L "*:1234"; GotOpt ch_m "9000"].

Definition lower_bound_alone_options : Options :=
  set_min_gdbserver_port 9000
    (set_listen_host_port "*:1234" (initial_options posix_host)).


(** The same command line with the allowed port after the range. *)
Definition range_and_port : list GetoptResult :=
  ([GotOpt ch_L "*:1234"; GotOpt ch_m "9000"; GotOpt ch_M "9002"] ++
   GotOpt ch_P "2000" :: [])%list.


(** * Properties *)

Section Properties.

Context {PortMap : Type} {pool : PortPool PortMap}.
Variable host : HostLib.

Local Abbreviation State := (@State PortMap).
Local Abbreviation Event := (@Event PortMap).
Local Abbreviation M := (@M PortMap).

Local Open Scope list_scope.

(** ** Equations of the monad *)

Lemma bind_ret {A B} (a : A) (k : A -> M B) (s : State) :
  bind (ret a) k s = k a s.
Proof. reflexivity. Qed.

Lemma bind_emit {B} (e : Event) (k : unit -> M B) (s : State) :
  bind (emit e) k s = k tt (log [e] s).
Proof. reflexivity. Qed.

Lemma emit_run (e : Event) (s : State) : emit e s = Ret tt (log [e] s).
Proof. reflexivity. Qed.

Lemma bind_assoc {A B C} (c : M A) (k : A -> M B) (k' : B -> M C) (s : State) :
  bind (bind c k) k' s = bind c (fun a => bind (k a) k') s.
Proof. unfold bind. destruct (c s); reflexivity. Qed.

Lemma bind_Ret {A B} (c : M A) (k : A -> M B) (s s' : State) (a : A) :
  c s = Ret a s' -> bind c k s = k a s'.
Proof. intros E. unfold bind. rewrite E. reflexivity. Qed.

Lemma log_log (evs evs' : list Event) (s : State) :
  log evs' (log evs s) = log (evs ++ evs') s.
Proof. unfold log, set_trace. simpl. rewrite <- app_assoc. reflexivity. Qed.

Lemma log_nil (s : State) : log [] s = s.
Proof. destruct s. unfold log, set_trace. simpl. rewrite app_nil_r. reflexivity. Qed.

Lemma log_set_portmap (evs : list Event) (pm : PortMap) (s : State) :
  log evs (set_portmap pm s) = set_portmap pm (log evs s).
Proof. reflexivity. Qed.

(** ** Computations that only add events of one kind *)

Lemma follows_refl (p : Event -> bool) (s : State) : follows p s s.
Proof.
  split; [| split; reflexivity].
  exists []. split; [symmetry; apply app_nil_r | reflexivity].
Qed.

Lemma follows_trans (p : Event -> bool) (s1 s2 s3 : State) :
  follows p s1 s2 -> follows p s2 s3 -> follows p s1 s3.
Proof.
  intros [[l1 [E1 P1]] [F1 G1]] [[l2 [E2 P2]] [F2 G2]].
  split; [| split; congruence].
  exists (l1 ++ l2). split.
  - rewrite E2, E1, app_assoc. reflexivity.
  - rewrite forallb_app, P1, P2. reflexivity.
Qed.

Lemma follows_log (p : Event -> bool) (evs : list Event) (s : State) :
  forallb p evs = true -> follows p s (log evs s).
Proof.
  intros P. split; [| split; reflexivity]. exists evs. split; [reflexivity | exact P].
Qed.

Lemma follows_weaken (p q : Event -> bool) (s s' : State) :
  (forall e, p e = true -> q e = true) -> follows p s s' -> follows q s s'.
Proof.
  intros I [[l [E P]] FG]. split; [| exact FG].
  exists l. split; [exact E |].
  rewrite forallb_forall in *. intros e He. apply I, P, He.
Qed.

Lemma emits_only_ret {A} (p : Event -> bool) (a : A) : emits_only p (ret a).
Proof. intros s. apply follows_refl. Qed.

Lemma emits_only_exit {A} (p : Event -> bool) (code : Z) :
  emits_only p (exit (A:=A) code).
Proof. intros s. apply follows_refl. Qed.

Lemma emits_only_undefined {A} (p : Event -> bool) : emits_only p (undefined (A:=A)).
Proof. intros s. apply follows_refl. Qed.

Lemma emits_only_waiting {A} (p : Event -> bool) : emits_only p (waiting (A:=A)).
Proof. intros s. apply follows_refl. Qed.

Lemma emits_only_emit (p : Event -> bool) (e : Event) :
  p e = true -> emits_only p (emit e).
Proof. intros P s. apply (follows_log p [e]). simpl. rewrite P. reflexivity. Qed.

Lemma emits_only_bind {A B} (p : Event -> bool) (c : M A) (k : A -> M B) :
  emits_only p c -> (forall a, emits_only p (k a)) -> emits_only p (bind c k).
Proof.
  intros Hc Hk s. specialize (Hc s). unfold bind.
  destruct (c s) as [a s'| code s' | s' | s']; simpl in *; try exact Hc.
  eapply follows_trans; [exact Hc | apply Hk].
Qed.

Lemma emits_only_read_g_server (p : Event -> bool) : emits_only p read_g_server.
Proof. intros s. apply follows_refl. Qed.

Lemma emits_only_move (p : Event -> bool) : emits_only p move_gdbserver_portmap.
Proof. intros s. split; [| split; reflexivity]. exists []. split; [symmetry; apply app_nil_r | reflexivity]. Qed.

Lemma follows_pool (p : Event -> bool) (op : PoolOp) (pm : PortMap) (s : State) :
  p (EvPool op) = true ->
  follows p s (set_portmap pm (set_trace (trace s ++ [EvPool op]) s)).
Proof.
  intros P. split; [| split; reflexivity].
  exists [EvPool op]. split; [reflexivity | simpl; rewrite P; reflexivity].
Qed.

Lemma emits_only_pool_AllowPort (p : Event -> bool) (port : Z) :
  (forall op, p (EvPool op) = true) -> emits_only p (pool_AllowPort port).
Proof. intros P s. apply follows_pool, P. Qed.

Lemma emits_only_pool_assign_range (p : Event -> bool) (lo hi : Z) :
  (forall op, p (EvPool op) = true) -> emits_only p (pool_assign_range lo hi).
Proof. intros P s. apply follows_pool, P. Qed.

Lemma emits_only_pool_GetNextAvailablePort (p : Event -> bool) :
  (forall op, p (EvPool op) = true) -> emits_only p pool_GetNextAvailablePort.
Proof.
  intros P s. unfold pool_GetNextAvailablePort.
  destruct (GetNextAvailablePort (gdbserver_portmap s)) as [r pm].
  apply follows_pool, P.
Qed.

Lemma emits_only_pool_AssociatePortWithProcess (p : Event -> bool) (port : Z) (pid : pid_t) :
  (forall op, p (EvPool op) = true) ->
  emits_only p (pool_AssociatePortWithProcess port pid).
Proof. intros P s. apply follows_pool, P. Qed.

Lemma emits_only_pool_FreePort (p : Event -> bool) (port : Z) :
  (forall op, p (EvPool op) = true) -> emits_only p (pool_FreePort port).
Proof. intros P s. apply follows_pool, P. Qed.

Lemma emits_only_pool_FreePortForProcess (p : Event -> bool) (pid : pid_t) :
  (forall op, p (EvPool op) = true) -> emits_only p (pool_FreePortForProcess pid).
Proof. intros P s. apply follows_pool, P. Qed.

Lemma emits_only_with_lock_guard {A} (p : Event -> bool) (c : M A) :
  p EvLock = true -> p EvUnlock = true ->
  emits_only p c -> emits_only p (with_lock_guard c).
Proof.
  intros PL PU Hc. unfold with_lock_guard.
  apply emits_only_bind; [apply emits_only_emit, PL | intros _].
  apply emits_only_bind; [exact Hc | intros a].
  apply emits_only_bind; [apply emits_only_emit, PU | intros _].
  apply emits_only_ret.
Qed.

(** The same for the trace alone, for computations that write files. *)

Lemma extends_refl (p : Event -> bool) (s : State) : extends p s s.
Proof. exists []. split; [symmetry; apply app_nil_r | reflexivity]. Qed.

Lemma extends_trans (p : Event -> bool) (s1 s2 s3 : State) :
  extends p s1 s2 -> extends p s2 s3 -> extends p s1 s3.
Proof.
  intros [l1 [E1 P1]] [l2 [E2 P2]]. exists (l1 ++ l2). split.
  - rewrite E2, E1, app_assoc. reflexivity.
  - rewrite forallb_app, P1, P2. reflexivity.
Qed.

Lemma adds_only_of_emits {A} (p : Event -> bool) (c : M A) :
  emits_only p c -> adds_only p c.
Proof. intros E s. apply E. Qed.

Lemma adds_only_bind {A B} (p : Event -> bool) (c : M A) (k : A -> M B) :
  adds_only p c -> (forall a, adds_only p (k a)) -> adds_only p (bind c k).
Proof.
  intros Hc Hk s. specialize (Hc s). unfold bind.
  destruct (c s) as [a s'| code s' | s' | s']; simpl in *; try exact Hc.
  eapply extends_trans; [exact Hc | apply Hk].
Qed.

Ltac emits_step :=
  first
    [ apply emits_only_ret
    | apply emits_only_exit
    | apply emits_only_undefined
    | apply emits_only_waiting
    | apply emits_only_read_g_server
    | apply emits_only_move
    | apply emits_only_emit; reflexivity
    | apply emits_only_with_lock_guard; [reflexivity | reflexivity |]
    | apply emits_only_pool_AllowPort; intros ?; reflexivity
    | apply emits_only_pool_assign_range; intros ?; reflexivity
    | apply emits_only_pool_GetNextAvailablePort; intros ?; reflexivity
    | apply emits_only_pool_AssociatePortWithProcess; intros ?; reflexivity
    | apply emits_only_pool_FreePort; intros ?; reflexivity
    | apply emits_only_pool_FreePortForProcess; intros ?; reflexivity
    | apply emits_only_bind; [| intros ?]
    | match goal with
      | |- emits_only _ (if ?b then _ else _) => destruct b
      | |- emits_only _ (match ?x with _ => _ end) => destruct x
      end ].

Ltac emits := repeat emits_step.

(** Events that do not satisfy [q] leave the count of [q] as it was. *)
Lemma follows_count (p q : Event -> bool) (s s' : State) :
  (forall e, p e = true -> q e = false) ->
  follows p s s' ->
  count_events q (trace s') = count_events q (trace s).
Proof.
  intros I [[later [E P]] _]. unfold count_events. rewrite E.
  rewrite List.filter_app, length_app.
  assert (Z0 : List.filter q later = []).
  { clear E. induction later as [|e l IH]; [reflexivity |].
    simpl in P. apply andb_prop in P as [Pe Pl].
    simpl. rewrite (I e Pe). apply IH, Pl. }
  rewrite Z0. simpl. lia.
Qed.

(** ** The session driver *)

Lemma packet_loop_emits (p : Event -> bool) (script : list PacketStep) :
  (forall r, p (EvGetPacketAndSendResponse r) = true) ->
  forall interrupt done, emits_only p (packet_loop script interrupt done).
Proof.
  intros P. induction script as [|step rest IH]; intros interrupt done; simpl.
  - destruct (negb interrupt && negb done); emits.
  - destruct (negb interrupt && negb done); [| emits].
    apply emits_only_bind; [apply emits_only_emit, P | intros _].
    destruct (negb (is_PR_Success (packet_result step))); [emits | apply IH].
Qed.

Lemma packet_loop_defined (script : list PacketStep) (interrupt done : bool)
    (s s' : State) :
  packet_loop script interrupt done s <> Undefined s'.
Proof.
  revert interrupt done s.
  induction script as [|step rest IH]; intros interrupt done s; simpl.
  - destruct (negb interrupt && negb done); discriminate.
  - destruct (negb interrupt && negb done); [| discriminate].
    rewrite bind_emit.
    destruct (negb (is_PR_Success (packet_result step))); [discriminate | apply IH].
Qed.

(** The loop returns exactly when the script brings it to its end. *)
Lemma packet_loop_returns (script : list PacketStep) (interrupt done : bool)
    (s : State) :
  script_ends script interrupt done = true ->
  exists s', packet_loop script interrupt done s = Ret tt s'.
Proof.
  revert interrupt done s.
  induction script as [|step rest IH]; intros interrupt done s; simpl.
  - destruct (negb interrupt && negb done); [discriminate | eauto].
  - destruct (negb interrupt && negb done); [| eauto].
    rewrite bind_emit.
    destruct (negb (is_PR_Success (packet_result step))); [eauto | apply IH].
Qed.

Lemma packet_loop_waits (script : list PacketStep) (interrupt done : bool)
    (s : State) :
  script_ends script interrupt done = false ->
  exists s', packet_loop script interrupt done s = Waiting s'.
Proof.
  revert interrupt done s.
  induction script as [|step rest IH]; intros interrupt done s; simpl.
  - destruct (negb interrupt && negb done); [eauto | discriminate].
  - destruct (negb interrupt && negb done); [| discriminate].
    rewrite bind_emit.
    destruct (negb (is_PR_Success (packet_result step))); [discriminate | apply IH].
Qed.

Lemma launch_stub_emits (p : Event -> bool) (env : SessionEnv) (args : list string) :
  (forall e, session_event e = true -> p e = true) ->
  emits_only p (launch_stub env args).
Proof.
  intros P. unfold launch_stub.
  destruct (0 <? Z.of_nat (length args))%Z; [| emits].
  apply emits_only_bind; [apply emits_only_emit, P; reflexivity | intros _].
  destruct (Success (LaunchGDBServer_error env)).
  - destruct (LaunchGDBServer_port env); [| emits].
    apply emits_only_emit, P. reflexivity.
  - apply emits_only_emit, P. reflexivity.
Qed.

Lemma client_handle_emits (p : Event -> bool) (env : SessionEnv) (args : list string) :
  (forall e, session_event e = true -> p e = true) ->
  emits_only p (client_handle env args).
Proof.
  intros P. unfold client_handle.
  destruct (negb (IsConnected env)); [emits |].
  apply emits_only_bind; [apply launch_stub_emits, P | intros _].
  apply emits_only_bind; [| intros _; apply emits_only_emit, P; reflexivity].
  apply packet_loop_emits. intros r. apply P. reflexivity.
Qed.

Lemma launch_stub_no_args (env : SessionEnv) (s : State) :
  launch_stub env [] s = Ret tt s.
Proof. reflexivity. Qed.

Lemma length_positive (args : list string) :
  args <> [] -> (0 <? Z.of_nat (length args))%Z = true.
Proof. destruct args; [congruence | intros _; apply Z.ltb_lt; simpl; lia]. Qed.

Lemma launch_stub_failure (env : SessionEnv) (args : list string) (s : State) :
  args <> [] -> Fail (LaunchGDBServer_error env) = true ->
  launch_stub env args s =
    Ret tt (log [EvLaunchGDBServer args EmptyString;
                 EvWrite Stderr ("failed to start gdbserver: " ++
                                 AsCString (LaunchGDBServer_error env) ++ nl)%string] s).
Proof.
  intros Ha Hf. unfold launch_stub. rewrite (length_positive _ Ha).
  rewrite bind_emit. unfold Success. rewrite Hf. simpl.
  unfold emit, log, set_trace. simpl. rewrite <- app_assoc. reflexivity.
Qed.

Lemma launch_stub_count (env : SessionEnv) (args : list string) (s : State) :
  (count_events is_stub_launch (trace (final_state (launch_stub env args s)))
   <= count_events is_stub_launch (trace s) + 1)%nat.
Proof.
  unfold launch_stub, count_events.
  destruct (0 <? Z.of_nat (length args))%Z; [| simpl; lia].
  destruct (Success (LaunchGDBServer_error env));
    [destruct (LaunchGDBServer_port env) |];
    simpl; rewrite ?List.filter_app, ?length_app; simpl; lia.
Qed.

Lemma final_state_bind {A B} (c : M A) (k : A -> M B) (s : State) :
  final_state (bind c k s) =
    match c s with
    | Ret a s' => final_state (k a s')
    | _ => final_state (c s)
    end.
Proof. unfold bind. destruct (c s); reflexivity. Qed.

Lemma after_launch_emits (env : SessionEnv) :
  emits_only (PortMap:=PortMap) not_stub_launch
    (bind (packet_loop (packets env) false false)
          (fun _ => emit (EvWrite Stdout ("Disconnected." ++ nl)%string))).
Proof.
  apply emits_only_bind; [| intros _; emits].
  apply packet_loop_emits. reflexivity.
Qed.

(** C4, as amended.  In every session [client_handle] launches a debug stub at
    most once, and not at all without inferior arguments.  When the launch
    fails, the failure is printed on the standard error stream of the daemon,
    nothing about it travels to the peer, and the session goes on into the
    packet loop. *)
Theorem client_handle_stub_launch (env : SessionEnv) (args : list string) (s : State) :
  let r := client_handle env args s in
  (count_events is_stub_launch (trace (final_state r))
   <= count_events is_stub_launch (trace s) + 1)%nat /\
  (args = [] ->
   count_events is_stub_launch (trace (final_state r))
   = count_events is_stub_launch (trace s)) /\
  (IsConnected env = true -> args <> [] ->
   Fail (LaunchGDBServer_error env) = true ->
   let report :=
     [EvLaunchGDBServer args EmptyString;
      EvWrite Stderr ("failed to start gdbserver: " ++
                      AsCString (LaunchGDBServer_error env) ++ nl)%string] in
   launch_stub env args s = Ret tt (log report s) /\
   reaches_peer report = false /\
   r = bind (packet_loop (packets env) false false)
            (fun _ => emit (EvWrite Stdout ("Disconnected." ++ nl)%string))
            (log report s)).
Proof.
  assert (N : forall e : Event, not_stub_launch e = true -> is_stub_launch e = false)
    by (intros e; apply negb_true_iff).
  cbv zeta. split; [| split].
  - unfold client_handle. destruct (negb (IsConnected env)); [simpl; lia |].
    rewrite final_state_bind.
    pose proof (launch_stub_count env args s) as C.
    destruct (launch_stub env args s) as [[] s1 | code s1 | s1 | s1]; simpl in C |- *;
      try exact C.
    rewrite (follows_count _ is_stub_launch s1 _ N (after_launch_emits env s1)).
    exact C.
  - intros ->. unfold client_handle. destruct (negb (IsConnected env)); [reflexivity |].
    rewrite final_state_bind, launch_stub_no_args.
    apply (follows_count _ is_stub_launch s _ N (after_launch_emits env s)).
  - intros Hc Ha Hf. split; [| split].
    + apply launch_stub_failure; assumption.
    + reflexivity.
    + unfold client_handle. rewrite Hc. cbn [negb].
      rewrite (bind_Ret (launch_stub env args) _ s _ tt
                 (launch_stub_failure env args s Ha Hf)).
      reflexivity.
Qed.

(** C9.  When [LaunchGDBServer] reports success, [client_handle] reads the
    port out of the optional without looking whether it holds one: with a port
    the pending stub is recorded, with an empty optional the behaviour is
    undefined; and this is the only way for [client_handle] to go wrong, so
    it is safe exactly when a successful launch always carries a port. *)
Theorem client_handle_port_dereference (env : SessionEnv) (args : list string) (s : State) :
  (IsConnected env = true -> args <> [] ->
   Success (LaunchGDBServer_error env) = true ->
   match LaunchGDBServer_port env with
   | Some p =>
       launch_stub env args s =
         Ret tt (log [EvLaunchGDBServer args EmptyString;
                      EvSetPendingGdbServer (LaunchGDBServer_pid env) p
                        (LaunchGDBServer_socket_name env)] s)
   | None =>
       client_handle env args s =
         Undefined (log [EvLaunchGDBServer args EmptyString] s)
   end) /\
  (forall s', client_handle env args s = Undefined s' ->
   IsConnected env = true /\ args <> [] /\
   Success (LaunchGDBServer_error env) = true /\
   LaunchGDBServer_port env = None).
Proof.
  split.
  - intros Hc Ha Hs. unfold client_handle, launch_stub.
    rewrite Hc, (length_positive _ Ha), Hs. cbn [negb].
    destruct (LaunchGDBServer_port env) as [p|].
    + rewrite bind_emit. unfold emit, log, set_trace. simpl.
      rewrite <- app_assoc. reflexivity.
    + reflexivity.
  - intros s' U. unfold client_handle in U.
    destruct (IsConnected env); [| discriminate]. cbn [negb] in U.
    unfold launch_stub in U.
    destruct args as [|a args]; simpl in U.
    { rewrite bind_ret in U. unfold bind in U.
      pose proof (packet_loop_defined (packets env) false false s) as D.
      destruct (packet_loop (packets env) false false s); try discriminate.
      exfalso. eapply D. reflexivity. }
    replace (0 <? Z.pos (Pos.of_succ_nat (length args)))%Z with true in U
      by (symmetry; apply Z.ltb_lt; lia).
    rewrite bind_assoc, bind_emit in U.
    destruct (Success (LaunchGDBServer_error env)) eqn:Hs.
    + destruct (LaunchGDBServer_port env) as [p|] eqn:Hp.
      * exfalso. rewrite bind_emit in U. unfold bind in U.
        match type of U with
        | match packet_loop ?sc ?i ?d ?st with _ => _ end = _ =>
            pose proof (packet_loop_defined sc i d st) as D;
            destruct (packet_loop sc i d st); try discriminate
        end.
        eapply D. reflexivity.
      * repeat split; congruence.
    + exfalso. rewrite bind_emit in U. unfold bind in U.
      match type of U with
      | match packet_loop ?sc ?i ?d ?st with _ => _ end = _ =>
          pose proof (packet_loop_defined sc i d st) as D;
          destruct (packet_loop sc i d st); try discriminate
      end.
      eapply D. reflexivity.
Qed.

(** ** The worker spawner *)

Lemma gdbserver_portmap_log (evs : list Event) (s : State) :
  gdbserver_portmap (log evs s) = gdbserver_portmap s.
Proof. reflexivity. Qed.

Lemma g_server_log (evs : list Event) (s : State) :
  g_server (log evs s) = g_server s.
Proof. reflexivity. Qed.

Lemma g_server_set_portmap (pm : PortMap) (s : State) :
  g_server (set_portmap pm s) = g_server s.
Proof. reflexivity. Qed.

Lemma set_portmap_twice (pm pm' : PortMap) (s : State) :
  set_portmap pm' (set_portmap pm s) = set_portmap pm' s.
Proof. reflexivity. Qed.

Lemma gdbserver_portmap_set (pm : PortMap) (s : State) :
  gdbserver_portmap (set_portmap pm s) = pm.
Proof. reflexivity. Qed.

Lemma bind_lock_GetNextAvailablePort {B} (k : option Z -> M B) (s : State) :
  bind (with_lock_guard pool_GetNextAvailablePort) k s =
    k (GetNextAvailablePort (gdbserver_portmap s)).1
      (set_portmap (GetNextAvailablePort (gdbserver_portmap s)).2
         (log [EvLock;
               EvPool (OpGetNextAvailablePort
                         (GetNextAvailablePort (gdbserver_portmap s)).1);
               EvUnlock] s)).
Proof.
  unfold with_lock_guard, pool_GetNextAvailablePort, bind, emit, ret, log,
    set_trace, set_portmap.
  cbn [trace gdbserver_portmap files g_server g_debug g_verbose].
  destruct (GetNextAvailablePort (gdbserver_portmap s)) as [r pm].
  cbn [fst snd trace gdbserver_portmap files g_server g_debug g_verbose].
  rewrite <- !app_assoc. reflexivity.
Qed.

Lemma bind_lock_AssociatePortWithProcess {B} (port : Z) (pid : pid_t)
    (k : unit -> M B) (s : State) :
  bind (with_lock_guard (pool_AssociatePortWithProcess port pid)) k s =
    k tt (set_portmap (AssociatePortWithProcess port pid (gdbserver_portmap s))
            (log [EvLock; EvPool (OpAssociatePortWithProcess port pid); EvUnlock] s)).
Proof.
  unfold with_lock_guard, pool_AssociatePortWithProcess, bind, emit, ret, log,
    set_trace, set_portmap.
  cbn [trace gdbserver_portmap files g_server g_debug g_verbose].
  rewrite <- !app_assoc. reflexivity.
Qed.

Lemma bind_lock_FreePort {B} (port : Z) (k : unit -> M B) (s : State) :
  bind (with_lock_guard (pool_FreePort port)) k s =
    k tt (set_portmap (FreePort port (gdbserver_portmap s))
            (log [EvLock; EvPool (OpFreePort port); EvUnlock] s)).
Proof.
  unfold with_lock_guard, pool_FreePort, bind, emit, ret, log,
    set_trace, set_portmap.
  cbn [trace gdbserver_portmap files g_server g_debug g_verbose].
  rewrite <- !app_assoc. reflexivity.
Qed.

(** The exit reaper takes the mutex, frees the port of the worker and
    releases the mutex. *)
Lemma spawn_process_reaped_run (pid : pid_t) (signal status : Z) (s : State) :
  spawn_process_reaped pid signal status s =
    Ret tt (set_portmap (FreePortForProcess pid (gdbserver_portmap s))
              (log [EvLock; EvPool (OpFreePortForProcess pid); EvUnlock] s)).
Proof.
  unfold spawn_process_reaped, with_lock_guard, pool_FreePortForProcess, bind,
    emit, ret, log, set_trace, set_portmap.
  cbn [trace gdbserver_portmap files g_server g_debug g_verbose].
  rewrite <- !app_assoc. reflexivity.
Qed.

(** Brings a state to the form [set_portmap pm (log evs s)]. *)
Ltac tidy :=
  rewrite ?log_set_portmap, ?log_log, ?set_portmap_twice,
    ?gdbserver_portmap_set, ?gdbserver_portmap_log;
  cbn [app].

Section Spawn.

Variables (env : SpawnEnv) (progname : string) (conn_socket gdb_port offset : Z)
          (args : list string) (lf lc : string).

Let self_args :=
  spawn_self_args (GetSendableFD env) gdb_port offset args lf lc.
Let info := spawn_launch_info progname self_args (GetEnvironment env).
Let launched :=
  EvWrite (PortMap:=PortMap) Log_Platform
    ("lldb-platform launched '" ++ GetCommandString host self_args ++
     "', pid=" ++ pretty (GetProcessID env))%string.

Lemma spawn_process_no_socket (s : State) :
  Fail (SharedSocket_error env) = true ->
  spawn_process host env progname conn_socket gdb_port offset args lf lc s =
    Ret (SharedSocket_error env) (log [EvSharedSocket conn_socket] s).
Proof.
  intros F. unfold spawn_process. rewrite bind_emit, F. reflexivity.
Qed.

Lemma spawn_process_launch_fails (s : State) :
  Fail (SharedSocket_error env) = false ->
  Fail (LaunchProcess_error env) = true ->
  spawn_process host env progname conn_socket gdb_port offset args lf lc s =
    Ret (LaunchProcess_error env)
        (log [EvSharedSocket conn_socket; EvLaunchProcess info] s).
Proof.
  intros F1 F2. unfold spawn_process.
  rewrite bind_emit, F1. cbv zeta. rewrite bind_emit, F2, log_log. reflexivity.
Qed.

Lemma spawn_process_invalid_pid (s : State) :
  Fail (SharedSocket_error env) = false ->
  Fail (LaunchProcess_error env) = false ->
  GetProcessID env = LLDB_INVALID_PROCESS_ID ->
  spawn_process host env progname conn_socket gdb_port offset args lf lc s =
    Ret (StatusError "invalid pid")
        (log [EvSharedSocket conn_socket; EvLaunchProcess info] s).
Proof.
  intros F1 F2 P. unfold spawn_process.
  rewrite bind_emit, F1. cbv zeta. rewrite bind_emit, F2, log_log, P. reflexivity.
Qed.

Lemma spawn_process_handoff_fails (s : State) :
  Fail (SharedSocket_error env) = false ->
  Fail (LaunchProcess_error env) = false ->
  GetProcessID env <> LLDB_INVALID_PROCESS_ID ->
  Fail (CompleteSending_error env) = true ->
  spawn_process host env progname conn_socket gdb_port offset args lf lc s =
    Ret (CompleteSending_error env)
        (set_portmap
           (AssociatePortWithProcess gdb_port (GetProcessID env) (gdbserver_portmap s))
           (log [EvSharedSocket conn_socket; EvLaunchProcess info; launched;
                 EvLock;
                 EvPool (OpAssociatePortWithProcess gdb_port (GetProcessID env));
                 EvUnlock;
                 EvCompleteSending (GetProcessID env);
                 EvKill (GetProcessID env) SIGTERM] s)).
Proof.
  intros F1 F2 P F3. unfold spawn_process.
  rewrite bind_emit, F1. cbv zeta. rewrite bind_emit, F2.
  apply Z.eqb_neq in P. rewrite P.
  rewrite bind_emit, bind_lock_AssociatePortWithProcess, bind_emit, F3.
  try rewrite bind_emit. unfold ret. tidy. reflexivity.
Qed.

Lemma spawn_process_succeeds (s : State) :
  Fail (SharedSocket_error env) = false ->
  Fail (LaunchProcess_error env) = false ->
  GetProcessID env <> LLDB_INVALID_PROCESS_ID ->
  Fail (CompleteSending_error env) = false ->
  spawn_process host env progname conn_socket gdb_port offset args lf lc s =
    Ret StatusOk
        (set_portmap
           (AssociatePortWithProcess gdb_port (GetProcessID env) (gdbserver_portmap s))
           (log [EvSharedSocket conn_socket; EvLaunchProcess info; launched;
                 EvLock;
                 EvPool (OpAssociatePortWithProcess gdb_port (GetProcessID env));
                 EvUnlock;
                 EvCompleteSending (GetProcessID env)] s)).
Proof.
  intros F1 F2 P F3. unfold spawn_process.
  rewrite bind_emit, F1. cbv zeta. rewrite bind_emit, F2.
  apply Z.eqb_neq in P. rewrite P.
  rewrite bind_emit, bind_lock_AssociatePortWithProcess, bind_emit, F3.
  try rewrite bind_emit. unfold ret. tidy. reflexivity.
Qed.

(** [spawn_process] always returns to its caller: it never leaves the
    program and never waits. *)
Lemma spawn_process_returns (s : State) :
  exists error s',
    spawn_process host env progname conn_socket gdb_port offset args lf lc s
    = Ret error s'.
Proof.
  destruct (Fail (SharedSocket_error env)) eqn:F1;
    [rewrite spawn_process_no_socket by assumption; eauto |].
  destruct (Fail (LaunchProcess_error env)) eqn:F2;
    [rewrite spawn_process_launch_fails by assumption; eauto |].
  destruct (Z.eq_dec (GetProcessID env) LLDB_INVALID_PROCESS_ID) as [P|P];
    [rewrite spawn_process_invalid_pid by assumption; eauto |].
  destruct (Fail (CompleteSending_error env)) eqn:F3;
    [rewrite spawn_process_handoff_fails by assumption; eauto |].
  rewrite spawn_process_succeeds by assumption; eauto.
Qed.

Lemma spawn_process_emits (p : Event -> bool) :
  (forall e, is_file_event e || is_accept e = false -> p e = true) ->
  emits_only p (spawn_process host env progname conn_socket gdb_port offset args lf lc).
Proof.
  intros P. unfold spawn_process.
  apply emits_only_bind; [apply emits_only_emit, P; reflexivity | intros _].
  cbv zeta. destruct (Fail (SharedSocket_error env)); [emits |].
  apply emits_only_bind; [apply emits_only_emit, P; reflexivity | intros _].
  destruct (Fail (LaunchProcess_error env)); [emits |].
  destruct (GetProcessID env =? LLDB_INVALID_PROCESS_ID)%Z; [emits |].
  apply emits_only_bind; [apply emits_only_emit, P; reflexivity | intros _].
  apply emits_only_bind.
  { apply emits_only_with_lock_guard; try (apply P; reflexivity).
    apply emits_only_pool_AssociatePortWithProcess. intros op. apply P. reflexivity. }
  intros _.
  apply emits_only_bind; [apply emits_only_emit, P; reflexivity | intros _].
  destruct (Fail (CompleteSending_error env)); [| emits].
  apply emits_only_bind; [apply emits_only_emit, P; reflexivity | intros _].
  emits.
Qed.

End Spawn.

(** ** The accept loop in server mode *)

Section Serve.

Variables (a : Arrival) (progname : string) (o : Options)
          (inferior_arguments : list string).

Lemma serve_connection_no_port (s : State) (pm : PortMap) :
  GetNextAvailablePort (gdbserver_portmap s) = (None, pm) ->
  serve_connection host a progname o inferior_arguments s =
    Ret tt (set_portmap pm
              (log [EvLock; EvPool (OpGetNextAvailablePort None); EvUnlock;
                    dropping; EvDeleteConn (Accept_conn a)] s)).
Proof.
  intros G. unfold serve_connection.
  rewrite bind_lock_GetNextAvailablePort, G. cbn [fst snd].
  rewrite bind_emit. rewrite emit_run. tidy. reflexivity.
Qed.

Lemma serve_connection_port (s s2 : State) (pm : PortMap) (p : Z) (error : Status) :
  GetNextAvailablePort (gdbserver_portmap s) = (Some p, pm) ->
  spawn_process host (arrival_spawn a) progname (Accept_conn a) p (port_offset o)
      inferior_arguments (log_file o) (log_channels o)
      (set_portmap pm
         (log [EvLock; EvPool (OpGetNextAvailablePort (Some p)); EvUnlock] s))
    = Ret error s2 ->
  serve_connection host a progname o inferior_arguments s =
    Ret tt (after_spawn a p error s2).
Proof.
  intros G S. unfold serve_connection.
  rewrite bind_lock_GetNextAvailablePort, G. cbn [fst snd].
  rewrite bind_assoc, (bind_Ret _ _ _ _ _ S).
  unfold after_spawn, spawn_failed. destruct (Fail error).
  - rewrite bind_assoc, bind_lock_FreePort, bind_assoc, !bind_emit.
    rewrite emit_run. tidy. reflexivity.
  - rewrite bind_ret. reflexivity.
Qed.

Lemma serve_connection_emits (p : Event -> bool) :
  (forall e, is_file_event e || is_accept e = false -> p e = true) ->
  emits_only p (serve_connection host a progname o inferior_arguments).
Proof.
  intros P. unfold serve_connection.
  apply emits_only_bind.
  { apply emits_only_with_lock_guard; try (apply P; reflexivity).
    apply emits_only_pool_GetNextAvailablePort. intros op. apply P. reflexivity. }
  intros [port|].
  - apply emits_only_bind; [| intros _; apply emits_only_emit, P; reflexivity].
    apply emits_only_bind; [apply spawn_process_emits, P | intros error].
    destruct (Fail error); [| emits].
    apply emits_only_bind.
    { apply emits_only_with_lock_guard; try (apply P; reflexivity).
      apply emits_only_pool_FreePort. intros op. apply P. reflexivity. }
    intros _.
    apply emits_only_bind; apply emits_only_emit || intros _; try apply emits_only_emit;
      apply P; reflexivity.
  - apply emits_only_bind; [| intros _]; apply emits_only_emit, P; reflexivity.
Qed.

(** Serving a connection always comes back to the loop: it never leaves the
    program and never waits. *)
Lemma serve_connection_returns (s : State) :
  exists s', serve_connection host a progname o inferior_arguments s = Ret tt s' /\
             g_server s' = g_server s.
Proof.
  assert (G : forall s', serve_connection host a progname o inferior_arguments s
                         = Ret tt s' -> g_server s' = g_server s).
  { intros s' E.
    pose proof (serve_connection_emits (fun _ => true) (fun _ _ => eq_refl) s) as F.
    rewrite E in F. apply F. }
  destruct (GetNextAvailablePort (gdbserver_portmap s)) as [[p|] pm] eqn:E.
  - destruct (spawn_process_returns (arrival_spawn a) progname (Accept_conn a) p
                (port_offset o) inferior_arguments (log_file o) (log_channels o)
                (set_portmap pm
                   (log [EvLock; EvPool (OpGetNextAvailablePort (Some p)); EvUnlock] s)))
      as (error & s2 & S).
    pose proof (serve_connection_port s s2 pm p error E S) as R.
    eexists. split; [exact R | apply G, R].
  - pose proof (serve_connection_no_port s pm E) as R.
    eexists. split; [exact R | apply G, R].
Qed.

Lemma accept_loop_serves (rest : list Arrival) (s s' : State) :
  nonzero (g_server s) = true ->
  Fail (Accept_error a) = false ->
  serve_connection host a progname o inferior_arguments (log connection_established s)
    = Ret tt s' ->
  g_server s' = g_server s ->
  accept_loop host (a :: rest) progname o inferior_arguments s =
  accept_loop host rest progname o inferior_arguments s'.
Proof.
  intros Gs Fa S G'. cbn [accept_loop].
  rewrite bind_emit, Fa, bind_emit, log_log. cbn [app].
  unfold read_g_server at 1. unfold bind at 1. rewrite g_server_log, Gs.
  fold (@connection_established PortMap).
  rewrite (bind_Ret _ _ _ _ _ S).
  unfold read_g_server, bind. rewrite G', Gs. reflexivity.
Qed.

End Serve.

(** As long as [Accept] succeeds, a daemon in server mode stays in its loop:
    at the end of any script it is waiting for the next connection. *)
Lemma server_keeps_accepting (script : list Arrival) (progname : string)
    (o : Options) (inferior_arguments : list string) (s : State) :
  nonzero (g_server s) = true ->
  Forall (fun a => Fail (Accept_error a) = false) script ->
  exists s', accept_loop host script progname o inferior_arguments s = Waiting s'.
Proof.
  intros Gs All. revert s Gs.
  induction All as [|a rest Fa _ IH]; intros s Gs.
  - eexists. reflexivity.
  - destruct (serve_connection_returns a progname o inferior_arguments
                (log connection_established s)) as (s' & S & G').
    rewrite g_server_log in G'.
    rewrite (accept_loop_serves a progname o inferior_arguments rest s s' Gs Fa S G').
    apply IH. rewrite G'. exact Gs.
Qed.

(** ** The accept loop in single-shot mode *)

Lemma accept_loop_emits (p : Event -> bool) (script : list Arrival)
    (progname : string) (o : Options) (inferior_arguments : list string) :
  (forall e, is_file_event e = false -> p e = true) ->
  emits_only p (accept_loop host script progname o inferior_arguments).
Proof.
  intros P. induction script as [|a rest IH]; cbn [accept_loop]; [emits |].
  apply emits_only_bind; [apply emits_only_emit, P; reflexivity | intros _].
  destruct (Fail (Accept_error a)).
  { apply emits_only_bind; [apply emits_only_emit, P; reflexivity | intros _]. emits. }
  apply emits_only_bind; [apply emits_only_emit, P; reflexivity | intros _].
  apply emits_only_bind; [emits | intros server].
  destruct server.
  - apply emits_only_bind.
    { apply serve_connection_emits. intros e He. apply P.
      apply orb_false_iff in He. apply He. }
    intros _. apply emits_only_bind; [emits | intros again].
    destruct again; [exact IH | emits].
  - apply emits_only_bind; [apply emits_only_emit, P; reflexivity | intros _].
    apply emits_only_bind; [emits | intros pm].
    apply emits_only_bind; [apply emits_only_emit, P; reflexivity | intros _].
    apply emits_only_bind; [apply emits_only_emit, P; reflexivity | intros _].
    apply emits_only_bind.
    { apply client_handle_emits. intros e He. apply P. destruct e; try discriminate; reflexivity. }
    intros _. apply emits_only_bind; [emits | intros again].
    destruct again; [exact IH | emits].
Qed.

Lemma accept_loop_single_shot (a : Arrival) (rest : list Arrival)
    (progname : string) (o : Options) (inferior_arguments : list string)
    (s : State) :
  nonzero (g_server s) = false ->
  Fail (Accept_error a) = false ->
  accept_loop host (a :: rest) progname o inferior_arguments s =
  client_handle (arrival_session a) inferior_arguments
    (set_portmap PortMap_default
       (log (single_shot_events a (gdbserver_portmap s)) s)).
Proof.
  intros Gs Fa. cbn [accept_loop].
  rewrite bind_emit, Fa, bind_emit, log_log. cbn [app].
  unfold read_g_server at 1. unfold bind at 1. rewrite g_server_log, Gs.
  rewrite bind_emit.
  unfold move_gdbserver_portmap at 1. unfold bind at 1.
  rewrite !bind_emit. tidy.
  unfold single_shot_events, connection_established. cbn [app].
  set (s1 := set_portmap PortMap_default (log _ s)).
  pose proof (client_handle_emits (fun _ => true) (arrival_session a)
                inferior_arguments (fun _ _ => eq_refl) s1) as F.
  unfold bind at 1.
  destruct (client_handle (arrival_session a) inferior_arguments s1)
    as [[] s2 | code s2 | s2 | s2]; try reflexivity.
  destruct F as (_ & _ & G). cbn [final_state] in G.
  unfold read_g_server, bind. rewrite G. subst s1.
  rewrite g_server_set_portmap, g_server_log, Gs. reflexivity.
Qed.

(** ** Start-up of the parent *)

Lemma Fail_false (e : Status) : Fail e = false -> e = StatusOk.
Proof. destruct e; [reflexivity | discriminate]. Qed.

Lemma set_files_log (f : gmap string string) (evs : list Event) (s : State) :
  log evs (set_files f s) = set_files f (log evs s).
Proof. reflexivity. Qed.

Lemma set_files_twice (f f' : gmap string string) (s : State) :
  set_files f' (set_files f s) = set_files f' s.
Proof. reflexivity. Qed.

Lemma files_set_files (f : gmap string string) (s : State) :
  files (set_files f s) = f.
Proof. reflexivity. Qed.

Lemma files_log (evs : list Event) (s : State) : files (log evs s) = files s.
Proof. reflexivity. Qed.

Lemma set_files_same (evs : list Event) (s : State) :
  set_files (files s) (log evs s) = log evs s.
Proof. destruct s. reflexivity. Qed.

Lemma writeToOutput_ok (path content : string) (s : State) :
  writeToOutput path content StatusOk s =
    Ret StatusOk
      (set_files (published path content (files s))
         (log [EvWriteTemp (path ++ ".temp-stream")%string content;
               EvPublish (path ++ ".temp-stream")%string path] s)).
Proof.
  unfold writeToOutput, published, bind, emit, ret, log, set_files, set_trace.
  cbn [trace gdbserver_portmap files g_server g_debug g_verbose].
  rewrite <- !app_assoc. reflexivity.
Qed.

Lemma save_socket_id_to_file_ok (fs : FsEnv) (o : Options) (socket_id : string)
    (s : State) :
  Fail (directory_answer host fs (socket_file o)) = false ->
  Fail (write_result fs) = false ->
  save_socket_id_to_file host fs socket_id (socket_file o) s =
    Ret StatusOk
      (set_files (published (GetPath host (socket_file o)) socket_id (files s))
         (log (discovery_events host o socket_id) s)).
Proof.
  intros F1 F2. unfold directory_answer in F1.
  unfold save_socket_id_to_file. cbv zeta.
  rewrite bind_emit, F1, (Fail_false _ F2).
  rewrite (bind_Ret _ _ _ _ _ (writeToOutput_ok _ _ _)).
  cbn [Fail]. unfold ret, discovery_events. cbv zeta.
  rewrite files_log, log_log. reflexivity.
Qed.

(** A failing file system: nothing is written, and an error comes back. *)
Lemma save_socket_id_to_file_fails (fs : FsEnv) (o : Options) (socket_id : string)
    (s : State) :
  Fail (directory_answer host fs (socket_file o)) || Fail (write_result fs) = true ->
  exists msg,
    save_socket_id_to_file host fs socket_id (socket_file o) s =
      Ret (StatusError msg)
        (log [EvCreateDirectory
                (GetPath host (FileSpec_SetFile host (Directory (socket_file o))))] s).
Proof.
  intros F. unfold directory_answer in F.
  unfold save_socket_id_to_file. cbv zeta. rewrite bind_emit.
  destruct (Fail (create_directory fs _)) eqn:F1; [eexists; reflexivity |].
  cbn [orb] in F. destruct (write_result fs) as [|msg]; [discriminate |].
  eexists. reflexivity.
Qed.

(** After a start-up in which every call succeeds, the parent runs its accept
    loop in the state [started], then says that it exits, and returns 0. *)
Lemma parent_platform_started (env : Env) (progname : string) (o : Options)
    (inferior_arguments : list string) (s : State) :
  Fail (Acceptor_Create_error env) = false ->
  Fail (Listen_error env) = false ->
  (FileSpec_bool (socket_file o) = true ->
   Fail (directory_answer host (fs_env env) (socket_file o)) = false /\
   Fail (write_result (fs_env env)) = false) ->
  parent_platform host env progname o inferior_arguments s =
    bind (accept_loop host (arrivals env) progname o inferior_arguments)
         (fun _ => bind (emit exiting) (fun _ => ret 0%Z))
         (started host env o s).
Proof.
  intros F1 F2 Ffs. unfold parent_platform. cbv zeta.
  rewrite bind_emit, F1, bind_emit, F2, log_log. cbn [app].
  unfold started, startup_events.
  destruct (FileSpec_bool (socket_file o)).
  - destruct (Ffs eq_refl) as [F3 F4].
    rewrite (bind_Ret _ _ _ _ _ (save_socket_id_to_file_ok _ o _ _ F3 F4)).
    cbn [Fail]. rewrite bind_emit.
    destruct (port_offset o >? 0)%Z.
    + rewrite bind_emit, files_log, !set_files_log, !log_log. cbn [app]. reflexivity.
    + rewrite bind_ret, files_log, !set_files_log, !log_log. cbn [app]. reflexivity.
  - rewrite bind_ret. cbn [Fail]. rewrite bind_emit.
    destruct (port_offset o >? 0)%Z.
    + rewrite bind_emit, !log_log, set_files_same. cbn [app]. reflexivity.
    + rewrite bind_ret, !log_log, set_files_same. cbn [app]. reflexivity.
Qed.

Lemma count_events_app (p : Event -> bool) (t t' : list Event) :
  count_events p (t ++ t') = (count_events p t + count_events p t')%nat.
Proof. unfold count_events. rewrite List.filter_app, length_app. reflexivity. Qed.

Lemma startup_events_no_accept (env : Env) (o : Options) :
  count_events is_accept (startup_events (PortMap:=PortMap) host env o) = 0%nat.
Proof.
  unfold startup_events, discovery_events.
  destruct (FileSpec_bool (socket_file o)); destruct (port_offset o >? 0)%Z;
    reflexivity.
Qed.

(** C3.  Out of server mode, after a start-up that succeeded, the daemon
    serves the first accepted connection itself: the acceptor is reset, the
    whole port map of the daemon is moved into the platform object, and
    [client_handle] runs on the connection.  Nothing else of the script is
    looked at, so [Accept] is called exactly once; and when the session ends
    the daemon says that it exits and returns 0. *)
Theorem single_shot_serves_one_connection (env : Env) (a : Arrival)
    (rest : list Arrival) (progname : string) (o : Options)
    (inferior_arguments : list string) (s : State) :
  Fail (Acceptor_Create_error env) = false ->
  Fail (Listen_error env) = false ->
  (FileSpec_bool (socket_file o) = true ->
   Fail (directory_answer host (fs_env env) (socket_file o)) = false /\
   Fail (write_result (fs_env env)) = false) ->
  arrivals env = a :: rest ->
  nonzero (g_server s) = false ->
  Fail (Accept_error a) = false ->
  let s1 :=
    set_portmap PortMap_default
      (log (single_shot_events a (gdbserver_portmap s)) (started host env o s)) in
  let session := client_handle (arrival_session a) inferior_arguments s1 in
  let run := parent_platform host env progname o inferior_arguments s in
  run = match session with
        | Ret _ s2 => Ret 0%Z (log [exiting] s2)
        | Exit code s2 => Exit code s2
        | Undefined s2 => Undefined s2
        | Waiting s2 => Waiting s2
        end /\
  count_events is_accept (trace (final_state run))
    = (count_events is_accept (trace s) + 1)%nat.
Proof.
  intros F1 F2 Ffs Ea Gs Fa. cbv zeta.
  assert (Gs' : nonzero (g_server (started host env o s)) = false) by exact Gs.
  pose proof (accept_loop_single_shot a rest progname o inferior_arguments
                (started host env o s) Gs' Fa) as E.
  change (gdbserver_portmap (started host env o s)) with (gdbserver_portmap s) in E.
  assert (R : parent_platform host env progname o inferior_arguments s =
              bind (fun _ => client_handle (arrival_session a) inferior_arguments
                     (set_portmap PortMap_default
                        (log (single_shot_events a (gdbserver_portmap s))
                           (started host env o s))))
                   (fun _ => bind (emit exiting) (fun _ => ret 0%Z)) s).
  { rewrite (parent_platform_started env progname o inferior_arguments s F1 F2 Ffs), Ea.
    unfold bind at 1. rewrite E. reflexivity. }
  split.
  - rewrite R. unfold bind at 1.
    destruct (client_handle (arrival_session a) inferior_arguments _); reflexivity.
  - rewrite R, final_state_bind.
    pose proof (client_handle_emits not_accept (arrival_session a) inferior_arguments
                  (fun e He => ltac:(destruct e; try discriminate; reflexivity))
                  (set_portmap PortMap_default
                     (log (single_shot_events a (gdbserver_portmap s))
                        (started host env o s)))) as F.
    assert (C : count_events is_accept
                  (trace (set_portmap PortMap_default
                            (log (single_shot_events a (gdbserver_portmap s))
                               (started host env o s))))
                = (count_events is_accept (trace s) + 1)%nat).
    { unfold started, log, set_portmap, set_trace, set_files.
      cbn [trace gdbserver_portmap files g_server g_debug g_verbose].
      rewrite !count_events_app, startup_events_no_accept.
      change (count_events is_accept (single_shot_events a (gdbserver_portmap s)))
        with 1%nat.
      lia. }
    pose proof (follows_count not_accept is_accept _ _
                  (fun e => proj1 (negb_true_iff _)) F) as K.
    destruct (client_handle (arrival_session a) inferior_arguments _)
      as [[] s2 | code s2 | s2 | s2]; cbn [final_state] in K |- *;
      try (rewrite K; exact C).
    change (count_events is_accept (trace (log [exiting] s2))
            = (count_events is_accept (trace s) + 1)%nat).
    unfold log at 1, set_trace. cbn [trace].
    rewrite count_events_app, K, C.
    change (count_events is_accept [exiting]) with 0%nat. lia.
Qed.

(** With a discovery file configured and the acceptor listening, the parent
    asks once for the directory of the file to be made and, when that is
    answered with success, writes the socket id to a temporary file and
    publishes it under the configured path, before the accept loop starts;
    nothing after that touches the file, so it is written once and holds the
    socket id alone.  When the directory cannot be made or the file cannot be
    written, the daemon returns 1 without accepting and without writing. *)
Lemma discovery_file_written_once (env : Env) (progname : string)
    (o : Options) (inferior_arguments : list string) (s : State) :
  FileSpec_bool (socket_file o) = true ->
  Fail (Acceptor_Create_error env) = false ->
  Fail (Listen_error env) = false ->
  let path := GetPath host (socket_file o) in
  let id := GetLocalSocketId env in
  let run := parent_platform host env progname o inferior_arguments s in
  let listening :=
    [EvAcceptorCreate (listen_host_port o) children_inherit_listen_socket;
     EvListen backlog] in
  (Fail (directory_answer host (fs_env env) (socket_file o)) = false ->
   Fail (write_result (fs_env env)) = false ->
   exists later,
     trace (final_state run)
       = trace s ++ listening ++ discovery_events host o id ++ later /\
     forallb not_file_event later = true /\
     files (final_state run) = published path id (files s) /\
     files (final_state run) !! path = Some id) /\
  (Fail (directory_answer host (fs_env env) (socket_file o))
   || Fail (write_result (fs_env env)) = true ->
   exists msg,
     run = Ret 1%Z
             (log (listening ++
                   [EvCreateDirectory
                      (GetPath host
                         (FileSpec_SetFile host (Directory (socket_file o))));
                    EvWrite Stderr msg]) s)).
Proof.
  intros Sf F1 F2. cbv zeta. split.
  - intros F3 F4.
    rewrite (parent_platform_started env progname o inferior_arguments s F1 F2
               (fun _ => conj F3 F4)).
    assert (T : emits_only (PortMap:=PortMap) not_file_event
                  (bind (accept_loop host (arrivals env) progname o inferior_arguments)
                        (fun _ => bind (emit exiting) (fun _ => ret 0%Z)))).
    { apply emits_only_bind; [| intros _; emits].
      apply accept_loop_emits. intros e He. unfold not_file_event. rewrite He. reflexivity. }
    destruct (T (started host env o s)) as [[later [Et Pl]] [Ef _]].
    exists ([EvPlatformCreate (GetSocketProtocol env) (GetSocketScheme env)] ++
            (if (port_offset o >? 0)%Z then [EvSetPortOffset (port_offset o)] else []) ++
            later).
    split; [| split; [| split]].
    + rewrite Et. unfold started, startup_events, log, set_files, set_trace.
      cbn [trace gdbserver_portmap files g_server g_debug g_verbose].
      rewrite Sf. rewrite <- !app_assoc. reflexivity.
    + rewrite !forallb_app, Pl. destruct (port_offset o >? 0)%Z; reflexivity.
    + rewrite Ef. unfold started. rewrite files_set_files, Sf. reflexivity.
    + rewrite Ef. unfold started. rewrite files_set_files, Sf.
      unfold published. apply lookup_insert_eq.
  - intros Ff.
    destruct (save_socket_id_to_file_fails (fs_env env) o (GetLocalSocketId env)
                (log [EvAcceptorCreate (listen_host_port o)
                        children_inherit_listen_socket; EvListen backlog] s) Ff)
      as [msg E].
    eexists. unfold parent_platform. cbv zeta.
    rewrite bind_emit, F1, bind_emit, F2, log_log, Sf. cbn [app].
    rewrite (bind_Ret _ _ _ _ _ E). cbn [Fail].
    rewrite bind_emit, !log_log. cbn [app]. reflexivity.
Qed.

Lemma save_socket_id_to_file_adds (fs : FsEnv) (socket_id : string)
    (file_spec : FileSpec) :
  adds_only (PortMap:=PortMap) any_event
    (save_socket_id_to_file host fs socket_id file_spec).
Proof.
  unfold save_socket_id_to_file. cbv zeta.
  apply adds_only_bind; [apply adds_only_of_emits; emits | intros _].
  destruct (Fail (create_directory fs _)); [apply adds_only_of_emits; emits |].
  apply adds_only_bind.
  - intros s. destruct (write_result fs) as [|msg].
    + rewrite writeToOutput_ok. eexists. split; reflexivity.
    + apply extends_refl.
  - intros Err. apply adds_only_of_emits. emits.
Qed.

(** The parent begins with the creation of its acceptor, and whatever happens
    afterwards that event stays in the trace. *)
Lemma parent_platform_creates_acceptor (env : Env) (progname : string)
    (o : Options) (inferior_arguments : list string) (s : State) :
  exists later,
    trace (final_state (parent_platform host env progname o inferior_arguments s))
    = trace s ++
      EvAcceptorCreate (listen_host_port o) children_inherit_listen_socket :: later.
Proof.
  unfold parent_platform. cbv zeta. rewrite bind_emit.
  match goal with
  | |- context [final_state (?k (log _ s))] =>
      assert (A : adds_only (PortMap:=PortMap) any_event k)
  end.
  { destruct (Fail (Acceptor_Create_error env)); [apply adds_only_of_emits; emits |].
    apply adds_only_bind; [apply adds_only_of_emits; emits | intros _].
    destruct (Fail (Listen_error env)); [apply adds_only_of_emits; emits |].
    apply adds_only_bind.
    { destruct (FileSpec_bool (socket_file o));
        [apply save_socket_id_to_file_adds | apply adds_only_of_emits; emits]. }
    intros saved. destruct (Fail saved); apply adds_only_of_emits; [emits |].
    apply emits_only_bind; [emits | intros _].
    apply emits_only_bind; [emits | intros _].
    apply emits_only_bind; [| intros _; emits].
    apply accept_loop_emits. reflexivity. }
  destruct (A (log [EvAcceptorCreate (listen_host_port o)
                      children_inherit_listen_socket] s)) as [later [E _]].
  exists later. rewrite E. unfold log, set_trace. cbn [trace].
  rewrite <- app_assoc. reflexivity.
Qed.

(** ** Option parsing and the dispatch of [main_platform] *)

Lemma parse_option_returns (g : GetoptResult) (o : Options) (s : State) :
  exists o' s', parse_option host g o s = Ret o' s'.
Proof.
  destruct g as [f | ch optarg]; [eexists _, _; reflexivity |].
  unfold parse_option, parse_port_option.
  destruct ch; try (eexists _, _; reflexivity);
    try (destruct (to_integer_u16 host optarg) as [v|];
         [cbv zeta; destruct (out_of_user_range v) |];
         eexists _, _; reflexivity).
  destruct (to_integer_u64 host optarg); eexists _, _; reflexivity.
Qed.

(** Option parsing always comes to its end. *)
Lemma parse_options_returns (parsed : list GetoptResult) (o : Options) (s : State) :
  exists o' s', parse_options host parsed o s = Ret o' s'.
Proof.
  revert o s. induction parsed as [|g rest IH]; intros o s; cbn [parse_options].
  - eexists _, _. reflexivity.
  - destruct (parse_option_returns g o s) as (o1 & s1 & E).
    rewrite (bind_Ret _ _ _ _ _ E). apply IH.
Qed.

Lemma make_port_range_returns (o : Options) (s : State) :
  exists o' s', make_port_range o s = Ret o' s'.
Proof.
  unfold make_port_range.
  destruct (nonzero (min_gdbserver_port o) &&
            (min_gdbserver_port o <? max_gdbserver_port o)%Z);
    [eexists _, _; reflexivity |].
  destruct (nonzero (min_gdbserver_port o) || nonzero (max_gdbserver_port o));
    eexists _, _; reflexivity.
Qed.

Section Dispatch.

Variables (env : Env) (progname subcommand : string)
          (parsed : list GetoptResult) (inferior_arguments : list string)
          (s s1 s2 : State) (o o2 : Options).

Hypothesis parsed_options :
  parse_options host parsed (initial_options host) s = Ret o s1.
Hypothesis logging : SetupLogging env = true.
Hypothesis port_range :
  make_port_range o (log [EvSetupLogging (log_file o) (log_channels o)] s1)
  = Ret o2 s2.

(** After a configuration error or a request for help, the usage text is
    printed and [display_usage] leaves the program with status 0: the call
    [exit(option_error)] that follows it is never reached. *)
Lemma main_platform_usage :
  show_usage o2 || nonzero (option_error o2)
  || (negb (nonempty (listen_host_port o2)) && (fd o2 =? kInvalidFD host)%Z) = true ->
  main_platform host env progname subcommand parsed inferior_arguments s =
    Exit 0%Z (log [EvWrite Stderr (usage_text progname subcommand)] s2).
Proof.
  intros U. unfold main_platform.
  rewrite (bind_Ret _ _ _ _ _ parsed_options), bind_emit, logging. cbn [negb].
  rewrite (bind_Ret _ _ _ _ _ port_range). cbv zeta.
  destruct (negb (nonempty (listen_host_port o2)) && (fd o2 =? kInvalidFD host)%Z).
  - reflexivity.
  - rewrite orb_false_r in U. rewrite U. reflexivity.
Qed.

Lemma main_platform_dispatch :
  show_usage o2 = false ->
  option_error o2 = 0%Z ->
  negb (nonempty (listen_host_port o2)) && (fd o2 =? kInvalidFD host)%Z = false ->
  main_platform host env progname subcommand parsed inferior_arguments s =
    if negb (fd o2 =? kInvalidFD host)%Z
    then child_platform env o2 inferior_arguments s2
    else parent_platform host env progname o2 inferior_arguments s2.
Proof.
  intros U E L. unfold main_platform.
  rewrite (bind_Ret _ _ _ _ _ parsed_options), bind_emit, logging. cbn [negb].
  rewrite (bind_Ret _ _ _ _ _ port_range). cbv zeta.
  rewrite L, U, E. cbn [orb nonzero Z.eqb negb]. rewrite bind_ret.
  destruct (negb (fd o2 =? kInvalidFD host)%Z); reflexivity.
Qed.

End Dispatch.

(** ** The port map after the options *)

Lemma parse_options_app (l1 l2 : list GetoptResult) (o : Options) (s : State) :
  parse_options host (l1 ++ l2) o s =
  bind (parse_options host l1 o) (fun o' => parse_options host l2 o') s.
Proof.
  revert o s. induction l1 as [|g l1 IH]; intros o s; cbn [app parse_options].
  - reflexivity.
  - rewrite bind_assoc.
    destruct (parse_option_returns g o s) as (o1 & s1 & E).
    rewrite !(bind_Ret _ _ _ _ _ E). apply IH.
Qed.

(** Option parsing only adds events. *)
Lemma parse_option_extends (g : GetoptResult) (o o' : Options) (s s' : State) :
  parse_option host g o s = Ret o' s' ->
  exists later, trace s' = trace s ++ later.
Proof.
  intros E. destruct g as [f | ch optarg].
  - injection E as _ <-. exists []. destruct f; symmetry; apply app_nil_r.
  - unfold parse_option, parse_port_option in E.
    destruct ch;
      try (injection E as _ <-; exists []; symmetry; apply app_nil_r);
      try (destruct (to_integer_u16 host optarg) as [v|];
           [cbv zeta in E; destruct (out_of_user_range v) |];
           injection E as _ <-; eexists; cbn [trace];
           first [reflexivity | symmetry; apply app_nil_r]).
    destruct (to_integer_u64 host optarg); injection E as _ <-; eexists;
      first [reflexivity | symmetry; apply app_nil_r].
Qed.

Lemma parse_options_extends (parsed : list GetoptResult) (o o' : Options)
    (s s' : State) :
  parse_options host parsed o s = Ret o' s' ->
  exists later, trace s' = trace s ++ later.
Proof.
  revert o s. induction parsed as [|g rest IH]; intros o s E; cbn [parse_options] in E.
  - injection E as _ <-. exists []. symmetry. apply app_nil_r.
  - destruct (parse_option_returns g o s) as (o1 & s1 & E1).
    rewrite (bind_Ret _ _ _ _ _ E1) in E.
    destruct (parse_option_extends _ _ _ _ _ E1) as [l1 T1].
    destruct (IH _ _ E) as [l2 T2].
    exists (l1 ++ l2). rewrite T2, T1, app_assoc. reflexivity.
Qed.

(** An option [-P] with a port of the user range puts the port into the
    global port map and raises no error. *)
Lemma parse_option_P (optarg : string) (port : Z) (o : Options) (s : State) :
  to_integer_u16 host optarg = Some port ->
  out_of_user_range port = false ->
  parse_option host (GotOpt ch_P optarg) o s =
    Ret o (set_portmap (AllowPort port (gdbserver_portmap s))
             (log [EvPool (OpAllowPort port)] s)).
Proof.
  intros T R. unfold parse_option, parse_port_option. rewrite T, R. reflexivity.
Qed.

(** ** The child process *)

Lemma child_platform_run (env : Env) (o : Options)
    (inferior_arguments : list string) (s : State) :
  nonempty (listen_host_port o) = false ->
  Fail (GetNativeSocket_error env) = false ->
  child_platform env o inferior_arguments s =
    bind (client_handle (child_session env) inferior_arguments)
         (fun _ => ret 0%Z) (child_state env o s).
Proof.
  intros L F. unfold child_platform, child_state. cbv zeta.
  rewrite L, bind_emit, F, bind_emit.
  destruct (port_offset o >? 0)%Z.
  - rewrite bind_emit. unfold move_gdbserver_portmap at 1. unfold bind at 1.
    rewrite !bind_emit. tidy. reflexivity.
  - rewrite bind_ret. unfold move_gdbserver_portmap at 1. unfold bind at 1.
    rewrite !bind_emit. tidy. reflexivity.
Qed.

Lemma launch_stub_returns (env : SessionEnv) (args : list string) (s : State) :
  launch_well_defined env args = true ->
  exists s', launch_stub env args s = Ret tt s'.
Proof.
  unfold launch_well_defined, launch_stub. destruct args as [|a args].
  - eexists. reflexivity.
  - replace (0 <? Z.of_nat (length (a :: args)))%Z with true
      by (symmetry; apply Z.ltb_lt; cbn [length]; lia).
    rewrite bind_emit. unfold Success.
    destruct (LaunchGDBServer_port env) as [p|].
    + intros _. destruct (Fail (LaunchGDBServer_error env)); eexists; reflexivity.
    + intros ->. eexists. reflexivity.
Qed.

(** A session that comes to its end makes [client_handle] return. *)
Lemma client_handle_returns (env : SessionEnv) (args : list string) (s : State) :
  session_ends env args = true ->
  exists s', client_handle env args s = Ret tt s'.
Proof.
  unfold session_ends, client_handle.
  destruct (IsConnected env); cbn [negb orb]; [| eexists; reflexivity].
  intros E. apply andb_prop in E as [W Se].
  destruct (launch_stub_returns env args s W) as [s1 E1].
  rewrite (bind_Ret _ _ _ _ _ E1).
  destruct (packet_loop_returns (packets env) false false s1 Se) as [s2 E2].
  rewrite (bind_Ret _ _ _ _ _ E2). eexists. reflexivity.
Qed.

(** C10.  In a child process whose token was resolved to a socket, whatever
    [client_handle] leaves behind when it returns is the end of the run:
    [main_platform] returns 0.  The session returns whenever its script ends
    the loop, be it by a packet that sets [done], by an interrupt or by a
    failed exchange, and also when the platform is not connected. *)
Theorem child_returns_zero (env : Env) (progname subcommand : string)
    (parsed : list GetoptResult) (inferior_arguments : list string)
    (s s1 s2 : State) (o o2 : Options) :
  parse_options host parsed (initial_options host) s = Ret o s1 ->
  SetupLogging env = true ->
  make_port_range o (log [EvSetupLogging (log_file o) (log_channels o)] s1)
    = Ret o2 s2 ->
  show_usage o2 = false ->
  option_error o2 = 0%Z ->
  fd o2 <> kInvalidFD host ->
  nonempty (listen_host_port o2) = false ->
  Fail (GetNativeSocket_error env) = false ->
  let session :=
    client_handle (child_session env) inferior_arguments (child_state env o2 s2) in
  let run := main_platform host env progname subcommand parsed inferior_arguments s in
  run = match session with
        | Ret _ s3 => Ret 0%Z s3
        | Exit code s3 => Exit code s3
        | Undefined s3 => Undefined s3
        | Waiting s3 => Waiting s3
        end /\
  (session_ends (child_session env) inferior_arguments = true ->
   exists s3, run = Ret 0%Z s3).
Proof.
  intros E L Pr U Oe Fd Li Fn. cbv zeta.
  apply Z.eqb_neq in Fd.
  assert (R : main_platform host env progname subcommand parsed inferior_arguments s
              = bind (client_handle (child_session env) inferior_arguments)
                     (fun _ => ret 0%Z) (child_state env o2 s2)).
  { rewrite (main_platform_dispatch env progname subcommand parsed inferior_arguments
               s s1 s2 o o2 E L Pr U Oe).
    - rewrite Fd. cbn [negb]. apply child_platform_run; assumption.
    - rewrite Fd. apply andb_false_r. }
  split.
  - rewrite R. unfold bind.
    destruct (client_handle (child_session env) inferior_arguments _); reflexivity.
  - intros Se.
    destruct (client_handle_returns (child_session env) inferior_arguments
                (child_state env o2 s2) Se) as [s3 E3].
    exists s3. rewrite R, (bind_Ret _ _ _ _ _ E3). reflexivity.
Qed.

(** * Further properties *)

(** ** What option handling keeps *)

(** An invariant of one option is an invariant of the option loop. *)
Lemma parse_options_invariant (I : Options -> State -> Prop) :
  (forall g o s o' s', I o s -> parse_option host g o s = Ret o' s' -> I o' s') ->
  forall parsed o s o' s',
    I o s -> parse_options host parsed o s = Ret o' s' -> I o' s'.
Proof.
  intros Step parsed. induction parsed as [|g rest IH]; intros o s o' s' Io E;
    cbn [parse_options] in E.
  - injection E as <- <-. exact Io.
  - destruct (parse_option_returns g o s) as (o1 & s1 & E1).
    rewrite (bind_Ret _ _ _ _ _ E1) in E.
    eapply IH; [| exact E]. eapply Step; [exact Io | exact E1].
Qed.

(** All the ways one option can go. *)
Ltac parse_inv E :=
  match type of E with
  | parse_option _ ?g _ _ = _ =>
      destruct g as [[| |] | [| | | | | | | | | | |] ?optarg];
      unfold parse_option, parse_port_option, store_flag, bind, ret, emit,
        pool_AllowPort in E;
      repeat match type of E with
        | context [to_integer_u16 ?h ?a] =>
            let T := fresh "T" in destruct (to_integer_u16 h a) eqn:T
        | context [to_integer_u64 ?h ?a] =>
            let T := fresh "T" in destruct (to_integer_u64 h a) eqn:T
        | context [out_of_user_range ?v] =>
            let R := fresh "R" in destruct (out_of_user_range v) eqn:R
        | context [nonempty ?a] =>
            let N := fresh "N" in destruct (nonempty a) eqn:N
        end;
      cbv zeta in E; injection E as <- <-
  end.

Lemma in_user_range_bounds (port : Z) :
  in_user_range port = true <-> (LOW_PORT <= port <= HIGH_PORT)%Z.
Proof.
  unfold in_user_range, out_of_user_range.
  rewrite negb_true_iff, orb_false_iff, Z.ltb_ge.
  unfold Z.gtb. destruct (port ?= HIGH_PORT)%Z eqn:C.
  - apply Z.compare_eq in C. split; [intros [? _]; lia | intros [? ?]; auto].
  - rewrite Z.compare_lt_iff in C. split; [intros [? _]; lia | intros [? ?]; auto].
  - rewrite Z.compare_gt_iff in C. split; [intros [_ ?]; discriminate | lia].
Qed.

Lemma parse_option_checked (g : GetoptResult) (o o' : Options) (s s' : State) :
  options_checked o ->
  parse_option host g o s = Ret o' s' ->
  options_checked o'.
Proof.
  intros (Mn & Mx & Of & Er) E. unfold options_checked, unset_or_user_port in *.
  parse_inv E; cbn [min_gdbserver_port max_gdbserver_port port_offset option_error
                    set_listen_host_port set_log_file set_log_channels set_fd
                    set_min_gdbserver_port set_max_gdbserver_port set_port_offset
                    set_socket_file set_show_usage set_option_error];
    repeat split; try assumption; try lia; try discriminate;
    try (intros _; right); try right;
    unfold in_user_range; try rewrite R; try reflexivity; auto.
Qed.

Lemma parse_options_checked (parsed : list GetoptResult) (o o' : Options)
    (s s' : State) :
  options_checked o ->
  parse_options host parsed o s = Ret o' s' ->
  options_checked o'.
Proof.
  intros C E.
  apply (parse_options_invariant (fun o _ => options_checked o)
           (fun g o s o' s' => parse_option_checked g o o' s s') parsed o s o' s' C E).
Qed.

Lemma initial_options_checked : options_checked (initial_options host).
Proof.
  unfold options_checked, unset_or_user_port. cbn. repeat split; auto; lia.
Qed.

Lemma extends_log (p : Event -> bool) (evs : list Event) (s : State) :
  forallb p evs = true -> extends p s (log evs s).
Proof. intros P. exists evs. split; [reflexivity | exact P]. Qed.

Lemma extends_weaken (p q : Event -> bool) (s s' : State) :
  (forall e, p e = true -> q e = true) -> extends p s s' -> extends q s s'.
Proof.
  intros I [l [E P]]. exists l. split; [exact E |].
  rewrite forallb_forall in *. intros e He. apply I, P, He.
Qed.

Lemma parse_option_adds (g : GetoptResult) (o o' : Options) (s s' : State) :
  parse_option host g o s = Ret o' s' ->
  extends checked_config_event s s' /\ files s' = files s.
Proof.
  intros E.
  parse_inv E; (split; [| reflexivity]);
    try (exists []; split; [cbn; symmetry; apply app_nil_r | reflexivity]);
    try (apply (extends_log checked_config_event [_]); reflexivity).
  eexists [_]. split; [reflexivity |].
  unfold checked_config_event, valid_port_event, in_user_range. cbn.
  rewrite R. reflexivity.
Qed.

Lemma parse_options_adds (parsed : list GetoptResult) (o o' : Options)
    (s s' : State) :
  parse_options host parsed o s = Ret o' s' ->
  extends checked_config_event s s' /\ files s' = files s.
Proof.
  revert o s. induction parsed as [|g rest IH]; intros o s E; cbn [parse_options] in E.
  - injection E as <- <-. split; [apply extends_refl | reflexivity].
  - destruct (parse_option_returns g o s) as (o1 & s1 & E1).
    rewrite (bind_Ret _ _ _ _ _ E1) in E.
    destruct (parse_option_adds _ _ _ _ _ E1) as [X1 F1].
    destruct (IH _ _ E) as [X2 F2].
    split; [eapply extends_trans; eassumption | congruence].
Qed.

(** Making the port range keeps the checks, changes no variable but
    [option_error], and hands a proper range of user ports to the port map. *)
Lemma make_port_range_checked (o o2 : Options) (s s2 : State) :
  options_checked o ->
  make_port_range o s = Ret o2 s2 ->
  options_checked o2 /\
  extends checked_config_event s s2 /\ files s2 = files s /\
  g_server s2 = g_server s /\
  (option_error o <> 0%Z -> option_error o2 <> 0%Z) /\
  listen_host_port o2 = listen_host_port o /\ fd o2 = fd o /\
  show_usage o2 = show_usage o /\ port_offset o2 = port_offset o /\
  socket_file o2 = socket_file o /\ log_file o2 = log_file o /\
  log_channels o2 = log_channels o.
Proof.
  intros (Mn & Mx & Of & Er) E. unfold make_port_range in E.
  destruct (nonzero (min_gdbserver_port o) &&
            (min_gdbserver_port o <? max_gdbserver_port o)%Z) eqn:Rg.
  - injection E as <- <-.
    split; [split; [| split; [| split]]; assumption |].
    split; [| repeat split; try reflexivity; try assumption; tauto].
    eexists [_]. split; [reflexivity |].
    apply andb_prop in Rg as [Nz Lt]. unfold nonzero in Nz.
    apply negb_true_iff, Z.eqb_neq in Nz.
    unfold unset_or_user_port in *.
    destruct Mn as [? | Mn]; [contradiction |].
    destruct Mx as [Mx | Mx].
    { apply in_user_range_bounds in Mn. apply Z.ltb_lt in Lt.
      unfold LOW_PORT in Mn. lia. }
    unfold checked_config_event, valid_port_event. cbn.
    rewrite Mn, Mx, Lt. reflexivity.
  - destruct (nonzero (min_gdbserver_port o) || nonzero (max_gdbserver_port o)).
    + injection E as <- <-.
      split; [split; [| split; [| split]];
              [assumption | assumption | intros X; discriminate X
              | change (0 <= 3 <= 6)%Z; lia] |].
      split; [apply (extends_log checked_config_event [_]); reflexivity |].
      repeat split; try reflexivity. intros _. discriminate.
    + injection E as <- <-.
      split; [split; [| split; [| split]]; assumption |].
      split; [apply extends_refl |].
      repeat split; try reflexivity; try assumption; tauto.
Qed.

(** The ways [main_platform] can go after the options were handled. *)
Lemma main_platform_cases (env : Env) (progname subcommand : string)
    (parsed : list GetoptResult) (inferior_arguments : list string) (s : State) :
  exists o s1,
    parse_options host parsed (initial_options host) s = Ret o s1 /\
    let run := main_platform host env progname subcommand parsed inferior_arguments s in
    let logged := log [EvSetupLogging (log_file o) (log_channels o)] s1 in
    (SetupLogging env = false /\ run = Ret (-1)%Z logged) \/
    (SetupLogging env = true /\
     exists o2 s2,
       make_port_range o logged = Ret o2 s2 /\
       ((show_usage o2 || nonzero (option_error o2)
         || (negb (nonempty (listen_host_port o2)) && (fd o2 =? kInvalidFD host)%Z)
         = true /\
         run = Exit 0%Z (log [EvWrite Stderr (usage_text progname subcommand)] s2)) \/
        (show_usage o2 = false /\ option_error o2 = 0%Z /\
         fd o2 <> kInvalidFD host /\
         run = child_platform env o2 inferior_arguments s2) \/
        (show_usage o2 = false /\ option_error o2 = 0%Z /\
         fd o2 = kInvalidFD host /\ nonempty (listen_host_port o2) = true /\
         run = parent_platform host env progname o2 inferior_arguments s2))).
Proof.
  destruct (parse_options_returns parsed (initial_options host) s) as (o & s1 & E).
  exists o, s1. split; [exact E |]. cbv zeta.
  destruct (SetupLogging env) eqn:L.
  - right. split; [reflexivity |].
    destruct (make_port_range_returns o
                (log [EvSetupLogging (log_file o) (log_channels o)] s1))
      as (o2 & s2 & Pr).
    exists o2, s2. split; [exact Pr |].
    destruct (show_usage o2 || nonzero (option_error o2)
              || (negb (nonempty (listen_host_port o2)) && (fd o2 =? kInvalidFD host)%Z))
      eqn:U.
    + left. split; [reflexivity |].
      apply (main_platform_usage env progname subcommand parsed inferior_arguments
               s s1 s2 o o2 E L Pr U).
    + right. apply orb_false_iff in U as [U Li]. apply orb_false_iff in U as [U Oe].
      unfold nonzero in Oe. apply negb_false_iff, Z.eqb_eq in Oe.
      pose proof (main_platform_dispatch env progname subcommand parsed
                    inferior_arguments s s1 s2 o o2 E L Pr U Oe Li) as D.
      destruct (fd o2 =? kInvalidFD host)%Z eqn:Fd.
      * right. apply Z.eqb_eq in Fd. rewrite andb_true_r in Li.
        apply negb_false_iff in Li. auto.
      * left. apply Z.eqb_neq in Fd. auto.
  - left. split; [reflexivity |]. unfold main_platform.
    rewrite (bind_Ret _ _ _ _ _ E), bind_emit, L. reflexivity.
Qed.

(** ** The events of each part of the daemon *)

Lemma spawn_process_spawn_events (p : Event -> bool) (env : SpawnEnv)
    (progname : string) (conn_socket gdb_port offset : Z) (args : list string)
    (lf lc : string) :
  (forall e, spawn_event e = true -> p e = true) ->
  emits_only p (spawn_process host env progname conn_socket gdb_port offset args lf lc).
Proof.
  intros P. unfold spawn_process.
  apply emits_only_bind; [apply emits_only_emit, P; reflexivity | intros _].
  cbv zeta. destruct (Fail (SharedSocket_error env)); [emits |].
  apply emits_only_bind; [apply emits_only_emit, P; reflexivity | intros _].
  destruct (Fail (LaunchProcess_error env)); [emits |].
  destruct (GetProcessID env =? LLDB_INVALID_PROCESS_ID)%Z; [emits |].
  apply emits_only_bind; [apply emits_only_emit, P; reflexivity | intros _].
  apply emits_only_bind.
  { apply emits_only_with_lock_guard; try (apply P; reflexivity).
    intros s. apply follows_pool, P. reflexivity. }
  intros _.
  apply emits_only_bind; [apply emits_only_emit, P; reflexivity | intros _].
  destruct (Fail (CompleteSending_error env)); [| emits].
  apply emits_only_bind; [apply emits_only_emit, P; reflexivity | intros _].
  emits.
Qed.

Lemma serve_connection_server_events (p : Event -> bool) (a : Arrival)
    (progname : string) (o : Options) (inferior_arguments : list string) :
  (forall e, server_event e = true -> p e = true) ->
  emits_only p (serve_connection host a progname o inferior_arguments).
Proof.
  intros P. unfold serve_connection.
  apply emits_only_bind.
  { apply emits_only_with_lock_guard; try (apply P; reflexivity).
    intros s. unfold pool_GetNextAvailablePort.
    destruct (GetNextAvailablePort (gdbserver_portmap s)) as [r pm].
    apply follows_pool, P. reflexivity. }
  intros [port|].
  - apply emits_only_bind; [| intros _; apply emits_only_emit, P; reflexivity].
    apply emits_only_bind.
    { apply spawn_process_spawn_events. intros e He. apply P.
      unfold server_event. rewrite He. reflexivity. }
    intros error. destruct (Fail error); [| emits].
    apply emits_only_bind.
    { apply emits_only_with_lock_guard; try (apply P; reflexivity).
      intros s. apply follows_pool, P. reflexivity. }
    intros _.
    apply emits_only_bind; [| intros _]; apply emits_only_emit, P; reflexivity.
  - apply emits_only_bind; [| intros _]; apply emits_only_emit, P; reflexivity.
Qed.

(** In server mode the loop produces the events of serving only. *)
Lemma accept_loop_server_events (p : Event -> bool) (script : list Arrival)
    (progname : string) (o : Options) (inferior_arguments : list string) (s : State) :
  (forall e, server_event e = true -> p e = true) ->
  nonzero (g_server s) = true ->
  follows p s (final_state (accept_loop host script progname o inferior_arguments s)).
Proof.
  intros P. revert s. induction script as [|a rest IH]; intros s Gs.
  - apply follows_refl.
  - destruct (Fail (Accept_error a)) eqn:Fa.
    + cbn [accept_loop]. rewrite bind_emit, Fa, bind_emit. cbn [final_state].
      rewrite log_log. apply follows_log. cbn [app forallb].
      rewrite !P by reflexivity. reflexivity.
    + destruct (serve_connection_returns a progname o inferior_arguments
                  (log connection_established s)) as (s' & S & G').
      rewrite g_server_log in G'.
      rewrite (accept_loop_serves a progname o inferior_arguments rest s s' Gs Fa S G').
      eapply follows_trans; [| apply IH; rewrite G'; exact Gs].
      eapply follows_trans.
      * apply (follows_log p connection_established s).
        cbn [connection_established forallb]. rewrite !P by reflexivity. reflexivity.
      * pose proof (serve_connection_server_events p a progname o inferior_arguments P
                      (log connection_established s)) as F.
        rewrite S in F. exact F.
Qed.

(** Out of server mode the loop produces the events of one session only. *)
Lemma accept_loop_single_shot_events (p : Event -> bool) (script : list Arrival)
    (progname : string) (o : Options) (inferior_arguments : list string) (s : State) :
  (forall e, single_shot_event e = true -> p e = true) ->
  nonzero (g_server s) = false ->
  follows p s (final_state (accept_loop host script progname o inferior_arguments s)).
Proof.
  intros P Gs. destruct script as [|a rest]; [apply follows_refl |].
  destruct (Fail (Accept_error a)) eqn:Fa.
  - cbn [accept_loop]. rewrite bind_emit, Fa, bind_emit. cbn [final_state].
    rewrite log_log. apply follows_log. cbn [app forallb].
    rewrite !P by reflexivity. reflexivity.
  - rewrite (accept_loop_single_shot a rest progname o inferior_arguments s Gs Fa).
    eapply follows_trans.
    + assert (F : follows p s
                    (set_portmap PortMap_default
                       (log (single_shot_events a (gdbserver_portmap s)) s))).
      { split; [| split; reflexivity].
        exists (single_shot_events a (gdbserver_portmap s)).
        split; [reflexivity |].
        cbn [single_shot_events connection_established app forallb].
        rewrite !P by reflexivity. reflexivity. }
      exact F.
    + apply (client_handle_emits p (arrival_session a) inferior_arguments
               (fun e He => P e ltac:(unfold single_shot_event; rewrite He; reflexivity))).
Qed.

Lemma child_platform_events (p : Event -> bool) (env : Env) (o : Options)
    (inferior_arguments : list string) :
  (forall e, child_event o e = true -> p e = true) ->
  emits_only p (child_platform env o inferior_arguments).
Proof.
  intros P. unfold child_platform.
  destruct (nonempty (listen_host_port o)).
  { apply emits_only_bind; [apply emits_only_emit, P; reflexivity | intros _]. emits. }
  apply emits_only_bind; [apply emits_only_emit, P; reflexivity | intros _].
  cbv zeta. destruct (Fail (GetNativeSocket_error env)).
  { apply emits_only_bind; [apply emits_only_emit, P; reflexivity | intros _]. emits. }
  apply emits_only_bind; [apply emits_only_emit, P; reflexivity | intros _].
  apply emits_only_bind.
  { destruct (port_offset o >? 0)%Z eqn:Po; [| emits].
    apply emits_only_emit, P. cbn. rewrite Z.eqb_refl, Po. reflexivity. }
  intros _. apply emits_only_bind; [emits | intros pm].
  apply emits_only_bind; [apply emits_only_emit, P; reflexivity | intros _].
  apply emits_only_bind; [apply emits_only_emit, P; reflexivity | intros _].
  apply emits_only_bind; [| intros _; emits].
  apply client_handle_emits. intros e He. apply P.
  unfold child_event. rewrite He. reflexivity.
Qed.

Lemma accept_loop_events (p : Event -> bool) (script : list Arrival)
    (progname : string) (o : Options) (inferior_arguments : list string) (s : State) :
  (forall e, server_event e || single_shot_event e = true -> p e = true) ->
  follows p s (final_state (accept_loop host script progname o inferior_arguments s)).
Proof.
  intros P. destruct (nonzero (g_server s)) eqn:Gs.
  - apply accept_loop_server_events; [| exact Gs].
    intros e He. apply P. rewrite He. reflexivity.
  - apply accept_loop_single_shot_events; [| exact Gs].
    intros e He. apply P. rewrite He. apply orb_true_r.
Qed.

Lemma parent_platform_events (p : Event -> bool) (env : Env) (progname : string)
    (o : Options) (inferior_arguments : list string) :
  (forall e, parent_event o e = true -> p e = true) ->
  adds_only p (parent_platform host env progname o inferior_arguments).
Proof.
  intros P.
  assert (Pw : forall st text, p (EvWrite st text) = true)
    by (intros; apply P; reflexivity).
  unfold parent_platform. cbv zeta.
  apply adds_only_bind;
    [apply adds_only_of_emits, emits_only_emit, P; reflexivity | intros _].
  destruct (Fail (Acceptor_Create_error env)).
  { apply adds_only_of_emits.
    apply emits_only_bind; [apply emits_only_emit, Pw | intros _]. emits. }
  apply adds_only_bind;
    [apply adds_only_of_emits, emits_only_emit, P; reflexivity | intros _].
  destruct (Fail (Listen_error env)).
  { apply adds_only_of_emits.
    apply emits_only_bind; [apply emits_only_emit, Pw | intros _]. emits. }
  apply adds_only_bind.
  { destruct (FileSpec_bool (socket_file o)); [| apply adds_only_of_emits; emits].
    unfold save_socket_id_to_file. cbv zeta.
    apply adds_only_bind;
      [apply adds_only_of_emits, emits_only_emit, P; reflexivity | intros _].
    destruct (Fail (create_directory (fs_env env) _));
      [apply adds_only_of_emits; emits |].
    apply adds_only_bind; [| intros Err; apply adds_only_of_emits; emits].
    intros s. destruct (write_result (fs_env env)) as [|msg].
    - rewrite writeToOutput_ok. eexists. split; [reflexivity |].
      cbn [forallb]. rewrite !P by reflexivity. reflexivity.
    - apply extends_refl. }
  intros saved. destruct (Fail saved).
  { apply adds_only_of_emits.
    apply emits_only_bind; [apply emits_only_emit, Pw | intros _]. emits. }
  apply adds_only_bind;
    [apply adds_only_of_emits, emits_only_emit, P; reflexivity | intros _].
  apply adds_only_bind.
  { apply adds_only_of_emits. destruct (port_offset o >? 0)%Z eqn:Po; [| emits].
    apply emits_only_emit, P. unfold parent_event. cbn.
    rewrite Z.eqb_refl, Po. reflexivity. }
  intros _. apply adds_only_bind.
  - intros s. apply accept_loop_events. intros e He. apply P.
    unfold parent_event. rewrite He. reflexivity.
  - intros _. apply adds_only_of_emits.
    apply emits_only_bind; [apply emits_only_emit, Pw | intros _]. emits.
Qed.

(** ** Properties of option handling *)

Lemma append_empty_r (x : string) : (x ++ EmptyString)%string = x.
Proof.
  induction x as [|c x IH]; [reflexivity |].
  change (String c (x ++ EmptyString)%string = String c x). rewrite IH. reflexivity.
Qed.

Lemma append_assoc (x y z : string) :
  ((x ++ y) ++ z)%string = (x ++ (y ++ z))%string.
Proof.
  induction x as [|c x IH]; [reflexivity |].
  change (String c ((x ++ y) ++ z)%string = String c (x ++ (y ++ z))%string).
  rewrite IH. reflexivity.
Qed.

Lemma listen_arguments_cons (g : GetoptResult) (rest : list GetoptResult) :
  join (listen_arguments (g :: rest))
  = (join (listen_arguments [g]) ++ join (listen_arguments rest))%string.
Proof.
  destruct g as [f | [| | | | | | | | | | |] optarg]; try reflexivity.
  change (optarg ++ join (listen_arguments rest)
          = (optarg ++ EmptyString) ++ join (listen_arguments rest))%string.
  rewrite append_empty_r. reflexivity.
Qed.

Lemma parse_option_listen (g : GetoptResult) (o o' : Options) (s s' : State) :
  parse_option host g o s = Ret o' s' ->
  listen_host_port o' = (listen_host_port o ++ join (listen_arguments [g]))%string.
Proof.
  intros E. parse_inv E; cbn; rewrite ?append_empty_r; reflexivity.
Qed.

(** X1.  Every [--listen] adds its argument to the listen address: with several
    of them the daemon listens on what they spell one after the other, not
    on the last one. *)
Theorem listen_options_are_appended (parsed : list GetoptResult) (s : State) :
  exists o s',
    parse_options host parsed (initial_options host) s = Ret o s' /\
    listen_host_port o = join (listen_arguments parsed).
Proof.
  assert (G : forall parsed o s o' s',
             parse_options host parsed o s = Ret o' s' ->
             listen_host_port o'
             = (listen_host_port o ++ join (listen_arguments parsed))%string).
  { clear. intros parsed. induction parsed as [|g rest IH]; intros o s o' s' E;
      cbn [parse_options] in E.
    - injection E as <- <-. cbn. rewrite append_empty_r. reflexivity.
    - destruct (parse_option_returns g o s) as (o1 & s1 & E1).
      rewrite (bind_Ret _ _ _ _ _ E1) in E.
      rewrite (IH _ _ _ _ E), (parse_option_listen _ _ _ _ _ E1), append_assoc.
      f_equal. symmetry. apply listen_arguments_cons. }
  destruct (parse_options_returns parsed (initial_options host) s) as (o & s' & E).
  exists o, s'. split; [exact E |]. apply (G _ _ _ _ _ E).
Qed.

Lemma parse_option_sticky (g : GetoptResult) (o o' : Options) (s s' : State) :
  parse_option host g o s = Ret o' s' ->
  (option_error o <> 0%Z -> option_error o' <> 0%Z) /\
  (show_usage o = true -> show_usage o' = true).
Proof.
  intros E. parse_inv E; cbn; split; auto; intros _; discriminate.
Qed.

Lemma parse_options_sticky (parsed : list GetoptResult) (o o' : Options)
    (s s' : State) :
  parse_options host parsed o s = Ret o' s' ->
  (option_error o <> 0%Z -> option_error o' <> 0%Z) /\
  (show_usage o = true -> show_usage o' = true).
Proof.
  revert o s. induction parsed as [|g rest IH]; intros o s E; cbn [parse_options] in E.
  - injection E as <- <-. auto.
  - destruct (parse_option_returns g o s) as (o1 & s1 & E1).
    rewrite (bind_Ret _ _ _ _ _ E1) in E.
    destruct (parse_option_sticky _ _ _ _ _ E1) as [A1 B1].
    destruct (IH _ _ E) as [A2 B2]. auto.
Qed.

Lemma config_of_checked (e : Event) :
  checked_config_event e = true -> config_event e = true.
Proof. unfold checked_config_event. intros C. apply andb_prop in C. apply C. Qed.

Lemma valid_of_checked (e : Event) :
  checked_config_event e = true -> valid_port_event e = true.
Proof. unfold checked_config_event. intros C. apply andb_prop in C. apply C. Qed.

(** X2.  A bad option, or a request for help, cannot be made good by the options
    after it: the run ends with the usage text and status 0, and up to there
    it has only written messages, set up the log and configured the port
    map; no file and no socket was touched. *)
Theorem bad_option_ends_in_usage (env : Env) (progname subcommand : string)
    (before after : list GetoptResult) (inferior_arguments : list string)
    (s s1 : State) (o1 : Options) :
  parse_options host before (initial_options host) s = Ret o1 s1 ->
  option_error o1 <> 0%Z \/ show_usage o1 = true ->
  SetupLogging env = true ->
  exists s',
    main_platform host env progname subcommand (before ++ after)
      inferior_arguments s = Exit 0%Z s' /\
    extends config_event s s' /\
    last (trace s') = Some (EvWrite Stderr (usage_text progname subcommand)) /\
    files s' = files s.
Proof.
  intros E1 Bad L.
  destruct (parse_options_returns after o1 s1) as (o & s2 & E2).
  assert (E : parse_options host (before ++ after) (initial_options host) s = Ret o s2).
  { rewrite parse_options_app, (bind_Ret _ _ _ _ _ E1). exact E2. }
  destruct (make_port_range_returns o
              (log [EvSetupLogging (log_file o) (log_channels o)] s2))
    as (o2 & s3 & Pr).
  pose proof (parse_options_checked _ _ _ _ _ initial_options_checked E) as Ck.
  destruct (make_port_range_checked _ _ _ _ Ck Pr)
    as (_ & X3 & F3 & _ & St3 & _ & _ & Us3 & _).
  destruct (parse_options_sticky _ _ _ _ _ E2) as [St2 Us2].
  destruct (parse_options_adds _ _ _ _ _ E) as [X2 F2].
  exists (log [EvWrite Stderr (usage_text progname subcommand)] s3).
  split; [| split; [| split]].
  - apply (main_platform_usage env progname subcommand _ inferior_arguments
             s s2 s3 o o2 E L Pr).
    destruct Bad as [Oe | Su].
    + specialize (St3 (St2 Oe)). unfold nonzero.
      apply Z.eqb_neq in St3. rewrite St3. cbn [negb].
      rewrite orb_true_r. reflexivity.
    + rewrite Us3, (Us2 Su). reflexivity.
  - apply (extends_weaken _ _ _ _ config_of_checked) in X2.
    apply (extends_weaken _ _ _ _ config_of_checked) in X3.
    eapply extends_trans; [exact X2 |].
    eapply extends_trans;
      [apply (extends_log config_event
                [EvSetupLogging (log_file o) (log_channels o)] s2); reflexivity |].
    eapply extends_trans; [exact X3 |].
    apply (extends_log config_event
             [EvWrite Stderr (usage_text progname subcommand)] s3). reflexivity.
  - unfold log, set_trace. cbn [trace]. apply last_snoc.
  - cbn [files log set_trace]. rewrite F3. cbn [files log set_trace]. exact F2.
Qed.

Lemma offset_checked (o : Options) (offset : Z) :
  options_checked o -> option_error o = 0%Z ->
  (offset =? port_offset o)%Z && (offset >? 0)%Z = true ->
  in_user_range offset = true.
Proof.
  intros (_ & _ & Of & _) Oe C. apply andb_prop in C as [Eq Gt].
  apply Z.eqb_eq in Eq. subst offset.
  destruct (Of Oe) as [Z0 | R]; [| exact R].
  rewrite Z0 in Gt. discriminate.
Qed.

(** X3.  Whatever the command line and the collaborators, every port number that
    the daemon hands on is in the user port range: the ports it allows in the
    port map, the bounds of a range (which is proper, the lower bound below
    the upper) and the port offset given to the platform. *)
Theorem main_platform_hands_on_user_ports (env : Env) (progname subcommand : string)
    (parsed : list GetoptResult) (inferior_arguments : list string) (s : State) :
  extends valid_port_event s
    (final_state
       (main_platform host env progname subcommand parsed inferior_arguments s)).
Proof.
  destruct (main_platform_cases env progname subcommand parsed inferior_arguments s)
    as (o & s1 & E & C). cbv zeta in C.
  pose proof (parse_options_checked _ _ _ _ _ initial_options_checked E) as Ck.
  destruct (parse_options_adds _ _ _ _ _ E) as [X1 _].
  apply (extends_weaken _ _ _ _ valid_of_checked) in X1.
  assert (XL : extends valid_port_event s
                 (log [EvSetupLogging (log_file o) (log_channels o)] s1)).
  { eapply extends_trans; [exact X1 |].
    apply (extends_log valid_port_event [_]). reflexivity. }
  destruct C as [[_ ->] | (_ & o2 & s2 & Pr & C)]; [exact XL |].
  destruct (make_port_range_checked _ _ _ _ Ck Pr) as (Ck2 & X2 & _).
  apply (extends_weaken _ _ _ _ valid_of_checked) in X2.
  assert (X : extends valid_port_event s s2)
    by (eapply extends_trans; eassumption).
  destruct C as [[_ ->] | [(_ & Oe & _ & ->) | (_ & Oe & _ & _ & ->)]].
  - eapply extends_trans; [exact X |].
    apply (extends_log valid_port_event [_]). reflexivity.
  - eapply extends_trans; [exact X |].
    apply (child_platform_events valid_port_event env o2 inferior_arguments).
    intros e He. destruct e; try reflexivity; try discriminate He.
    apply (offset_checked o2 _ Ck2 Oe He).
  - eapply extends_trans; [exact X |].
    apply (parent_platform_events valid_port_event env progname o2 inferior_arguments).
    intros e He. destruct e as [| | | [] | | | | | | | | | | | | | | | | | | | | |];
      try reflexivity; try discriminate He.
    apply (offset_checked o2 _ Ck2 Oe He).
Qed.

(** ** The two kinds of run *)

(** X4.  A run that resolves a handoff token never creates an acceptor, listens,
    accepts, spawns, takes the mutex or writes a file; and a run that does any
    of these never resolves a token. *)
Theorem run_is_child_or_parent (env : Env) (progname subcommand : string)
    (parsed : list GetoptResult) (inferior_arguments : list string) (s : State) :
  let s' :=
    final_state
      (main_platform host env progname subcommand parsed inferior_arguments s) in
  extends child_run_event s s' \/ extends parent_run_event s s'.
Proof.
  cbv zeta.
  destruct (main_platform_cases env progname subcommand parsed inferior_arguments s)
    as (o & s1 & E & C). cbv zeta in C.
  pose proof (parse_options_checked _ _ _ _ _ initial_options_checked E) as Ck.
  destruct (parse_options_adds _ _ _ _ _ E) as [X1 _].
  apply (extends_weaken _ _ _ _ config_of_checked) in X1.
  assert (XL : extends config_event s
                 (log [EvSetupLogging (log_file o) (log_channels o)] s1)).
  { eapply extends_trans; [exact X1 |].
    apply (extends_log config_event [_]). reflexivity. }
  assert (Cc : forall e : Event, config_event e = true -> child_run_event e = true).
  { intros e He. unfold child_run_event. rewrite He. reflexivity. }
  assert (Cp : forall e : Event, config_event e = true -> parent_run_event e = true).
  { intros e He. destruct e; try reflexivity; discriminate He. }
  destruct C as [[_ ->] | (_ & o2 & s2 & Pr & C)].
  { left. apply (extends_weaken _ _ _ _ Cc XL). }
  destruct (make_port_range_checked _ _ _ _ Ck Pr) as (_ & X2 & _).
  apply (extends_weaken _ _ _ _ config_of_checked) in X2.
  assert (X : extends config_event s s2)
    by (eapply extends_trans; eassumption).
  destruct C as [[_ ->] | [(_ & _ & _ & ->) | (_ & _ & _ & _ & ->)]].
  - left. apply (extends_weaken _ _ _ _ Cc).
    eapply extends_trans; [exact X |].
    apply (extends_log config_event [_]). reflexivity.
  - left. eapply extends_trans; [apply (extends_weaken _ _ _ _ Cc X) |].
    apply (child_platform_events child_run_event env o2 inferior_arguments).
    intros e He. destruct e; try reflexivity; discriminate He.
  - right. eapply extends_trans; [apply (extends_weaken _ _ _ _ Cp X) |].
    apply (parent_platform_events parent_run_event env progname o2 inferior_arguments).
    intros e He. destruct e; try reflexivity; discriminate He.
Qed.

(** ** How the parent can go *)

Lemma parent_platform_cases (env : Env) (progname : string) (o : Options)
    (inferior_arguments : list string) (s : State) :
  let run := parent_platform host env progname o inferior_arguments s in
  let create :=
    EvAcceptorCreate (PortMap:=PortMap) (listen_host_port o)
      children_inherit_listen_socket in
  (exists text, run = Exit socket_error (log [create; EvWrite Stderr text] s)) \/
  (exists text,
     run = Exit socket_error (log [create; EvListen backlog; EvWrite Stdout text] s)) \/
  (FileSpec_bool (socket_file o) = true /\
   Fail (directory_answer host (fs_env env) (socket_file o))
   || Fail (write_result (fs_env env)) = true /\
   exists text,
     run = Ret 1%Z
             (log [create; EvListen backlog;
                   EvCreateDirectory
                     (GetPath host (FileSpec_SetFile host (Directory (socket_file o))));
                   EvWrite Stderr text] s)) \/
  run = bind (accept_loop host (arrivals env) progname o inferior_arguments)
             (fun _ => bind (emit exiting) (fun _ => ret 0%Z))
             (started host env o s).
Proof.
  cbv zeta.
  destruct (Fail (Acceptor_Create_error env)) eqn:F1.
  { left. eexists. unfold parent_platform. cbv zeta.
    rewrite bind_emit, F1, bind_emit, log_log. reflexivity. }
  destruct (Fail (Listen_error env)) eqn:F2.
  { right. left. eexists. unfold parent_platform. cbv zeta.
    rewrite bind_emit, F1, bind_emit, F2, bind_emit, !log_log. reflexivity. }
  destruct (FileSpec_bool (socket_file o)) eqn:Sf.
  - destruct (Fail (directory_answer host (fs_env env) (socket_file o))
              || Fail (write_result (fs_env env))) eqn:Ff.
    + right. right. left. split; [reflexivity |]. split; [reflexivity |].
      destruct (save_socket_id_to_file_fails (fs_env env) o (GetLocalSocketId env)
                  (log [EvAcceptorCreate (listen_host_port o)
                          children_inherit_listen_socket; EvListen backlog] s) Ff)
        as [msg E].
      eexists. unfold parent_platform. cbv zeta.
      rewrite bind_emit, F1, bind_emit, F2, log_log, Sf. cbn [app].
      rewrite (bind_Ret _ _ _ _ _ E). cbn [Fail].
      rewrite bind_emit, !log_log. cbn [app]. reflexivity.
    + right. right. right. apply orb_false_iff in Ff as [F3 F4].
      apply parent_platform_started; auto.
  - right. right. right.
    apply parent_platform_started; [exact F1 | exact F2 |].
    intros X. rewrite Sf in X. discriminate X.
Qed.

Lemma client_handle_no_exit (env : SessionEnv) (args : list string)
    (s s' : State) (code : Z) :
  client_handle env args s <> Exit code s'.
Proof.
  assert (PL : forall script i d (st : State),
             packet_loop script i d st <> Exit code s').
  { clear. intros script. induction script as [|p rest IH]; intros i d st; cbn.
    - destruct (negb i && negb d); discriminate.
    - destruct (negb i && negb d); [| discriminate].
      rewrite bind_emit.
      destruct (negb (is_PR_Success (packet_result p))); [discriminate | apply IH]. }
  unfold client_handle. destruct (negb (IsConnected env)); [discriminate |].
  unfold bind at 1.
  destruct (launch_stub env args s) as [[] s1 | c s1 | s1 | s1] eqn:LS;
    try discriminate.
  - unfold bind. pose proof (PL (packets env) false false s1) as N.
    destruct (packet_loop (packets env) false false s1); try discriminate.
    intros X. injection X as -> ->. apply N. reflexivity.
  - exfalso. unfold launch_stub in LS.
    destruct (0 <? Z.of_nat (length args))%Z; [| discriminate].
    rewrite bind_emit in LS.
    destruct (Success (LaunchGDBServer_error env));
      [destruct (LaunchGDBServer_port env) |]; discriminate.
Qed.

(** The loop leaves the program only with the status of a socket error. *)
Lemma accept_loop_exit_code (script : list Arrival) (progname : string)
    (o : Options) (inferior_arguments : list string) (s s' : State) (code : Z) :
  accept_loop host script progname o inferior_arguments s = Exit code s' ->
  code = socket_error.
Proof.
  revert s. induction script as [|a rest IH]; intros s E; [discriminate |].
  destruct (Fail (Accept_error a)) eqn:Fa.
  { cbn [accept_loop] in E. rewrite bind_emit, Fa, bind_emit in E.
    injection E as <- _. reflexivity. }
  destruct (nonzero (g_server s)) eqn:Gs.
  - destruct (serve_connection_returns a progname o inferior_arguments
                (log connection_established s)) as (s1 & S & G').
    rewrite g_server_log in G'.
    rewrite (accept_loop_serves a progname o inferior_arguments rest s s1 Gs Fa S G')
      in E.
    apply (IH _ E).
  - rewrite (accept_loop_single_shot a rest progname o inferior_arguments s Gs Fa) in E.
    exfalso. eapply client_handle_no_exit. exact E.
Qed.

Lemma child_platform_status (env : Env) (o : Options)
    (inferior_arguments : list string) (s : State) (code : Z) :
  exit_status (fun c => c) (child_platform env o inferior_arguments s) = Some code ->
  code = 0%Z \/ code = (-1)%Z.
Proof.
  unfold child_platform.
  destruct (nonempty (listen_host_port o)).
  { rewrite bind_emit. cbn. intros [= <-]. right. reflexivity. }
  rewrite bind_emit. cbv zeta.
  destruct (Fail (GetNativeSocket_error env)).
  { rewrite bind_emit. cbn. intros [= <-]. right. reflexivity. }
  rewrite bind_emit.
  assert (K : forall st : State,
             exit_status (fun c => c)
               (bind (client_handle (child_session env) inferior_arguments)
                     (fun _ => ret 0%Z) st) = Some code ->
             code = 0%Z \/ code = (-1)%Z).
  { intros st. unfold bind.
    pose proof (client_handle_no_exit (child_session env) inferior_arguments st) as N.
    destruct (client_handle (child_session env) inferior_arguments st);
      cbn; try discriminate.
    - intros [= <-]. left. reflexivity.
    - exfalso. eapply N. reflexivity. }
  destruct (port_offset o >? 0)%Z.
  - rewrite bind_emit. unfold move_gdbserver_portmap at 1. unfold bind at 1.
    rewrite !bind_emit. apply K.
  - rewrite bind_ret. unfold move_gdbserver_portmap at 1. unfold bind at 1.
    rewrite !bind_emit. apply K.
Qed.

Lemma parent_platform_status (env : Env) (progname : string) (o : Options)
    (inferior_arguments : list string) (s : State) (code : Z) :
  exit_status (fun c => c) (parent_platform host env progname o inferior_arguments s)
  = Some code ->
  code = 0%Z \/ code = (-1)%Z \/
  (code = 1%Z /\ FileSpec_bool (socket_file o) = true /\
   Fail (directory_answer host (fs_env env) (socket_file o))
   || Fail (write_result (fs_env env)) = true).
Proof.
  destruct (parent_platform_cases env progname o inferior_arguments s)
    as [[t ->] | [[t ->] | [[Sf [Ff [t ->]]] | ->]]].
  - cbn. intros [= <-]. right. left. reflexivity.
  - cbn. intros [= <-]. right. left. reflexivity.
  - cbn. intros [= <-]. right. right. split; [reflexivity | split; assumption].
  - unfold bind at 1.
    pose proof (accept_loop_exit_code (arrivals env) progname o inferior_arguments
                  (started host env o s)) as X.
    destruct (accept_loop host (arrivals env) progname o inferior_arguments
                (started host env o s)) as [[] s3 | c s3 | s3 | s3];
      cbn; try discriminate.
    + intros [= <-]. left. reflexivity.
    + intros [= <-]. right. left. apply (X s3 c eq_refl).
Qed.

(** X5.  When the process ends, its status is 0, -1 or 1, and it is 1 only in
    a run whose options raised no error and did not ask for the usage text:
    a parent whose discovery file could not be written.  So the error codes
    1 to 6 that option handling sets never become the status of the process. *)
Theorem main_platform_statuses (env : Env) (progname subcommand : string)
    (parsed : list GetoptResult) (inferior_arguments : list string) (s : State)
    (code : Z) :
  exit_status (fun c => c)
    (main_platform host env progname subcommand parsed inferior_arguments s)
  = Some code ->
  code = 0%Z \/ code = (-1)%Z \/
  (code = 1%Z /\
   exists o s1 o2 s2,
     parse_options host parsed (initial_options host) s = Ret o s1 /\
     make_port_range o (log [EvSetupLogging (log_file o) (log_channels o)] s1)
     = Ret o2 s2 /\
     option_error o2 = 0%Z /\ show_usage o2 = false /\
     FileSpec_bool (socket_file o2) = true /\
     Fail (directory_answer host (fs_env env) (socket_file o2))
     || Fail (write_result (fs_env env)) = true).
Proof.
  destruct (main_platform_cases env progname subcommand parsed inferior_arguments s)
    as (o & s1 & E & C). cbv zeta in C.
  destruct C as [[_ ->] | (_ & o2 & s2 & Pr & C)].
  { cbn. intros [= <-]. right. left. reflexivity. }
  destruct C as [[_ ->] | [(_ & _ & _ & ->) | (U & Oe & _ & _ & ->)]].
  - cbn. intros [= <-]. left. reflexivity.
  - intros H. apply child_platform_status in H.
    destruct H as [-> | ->]; [left | right; left]; reflexivity.
  - intros H. apply parent_platform_status in H.
    destruct H as [-> | [-> | (-> & Sf & Ff)]];
      [left; reflexivity | right; left; reflexivity |].
    right. right. split; [reflexivity |].
    exists o, s1, o2, s2. repeat split; assumption.
Qed.

(** ** Runs without a discovery file, and runs without [--server] *)

Lemma parse_options_socket_file (parsed : list GetoptResult) (o o' : Options)
    (s s' : State) :
  existsb gives_socket_file parsed = false ->
  parse_options host parsed o s = Ret o' s' ->
  socket_file o' = socket_file o.
Proof.
  revert o s. induction parsed as [|g rest IH]; intros o s N E;
    cbn [parse_options] in E.
  - injection E as <- <-. reflexivity.
  - cbn [existsb] in N. apply orb_false_iff in N as [Ng Nr].
    destruct (parse_option_returns g o s) as (o1 & s1 & E1).
    rewrite (bind_Ret _ _ _ _ _ E1) in E.
    rewrite (IH _ _ Nr E). clear E IH.
    parse_inv E1; try reflexivity.
    cbn in Ng. rewrite Ng in N. discriminate N.
Qed.

Lemma parse_options_g_server (parsed : list GetoptResult) (o o' : Options)
    (s s' : State) :
  existsb gives_server_flag parsed = false ->
  parse_options host parsed o s = Ret o' s' ->
  g_server s' = g_server s.
Proof.
  revert o s. induction parsed as [|g rest IH]; intros o s N E;
    cbn [parse_options] in E.
  - injection E as <- <-. reflexivity.
  - cbn [existsb] in N. apply orb_false_iff in N as [Ng Nr].
    destruct (parse_option_returns g o s) as (o1 & s1 & E1).
    rewrite (bind_Ret _ _ _ _ _ E1) in E.
    rewrite (IH _ _ Nr E). clear E IH.
    parse_inv E1; try reflexivity. discriminate Ng.
Qed.

Lemma follows_extends (p : Event -> bool) (s s' : State) :
  follows p s s' -> extends p s s'.
Proof. intros F. apply F. Qed.

Lemma parent_platform_without_file (env : Env) (progname : string) (o : Options)
    (inferior_arguments : list string) (s : State) :
  FileSpec_bool (socket_file o) = false ->
  follows not_file_event s
    (final_state (parent_platform host env progname o inferior_arguments s)).
Proof.
  intros Sf.
  destruct (parent_platform_cases env progname o inferior_arguments s)
    as [[t ->] | [[t ->] | [[Sf' _] | ->]]].
  - apply follows_log. reflexivity.
  - apply follows_log. reflexivity.
  - rewrite Sf in Sf'. discriminate Sf'.
  - eapply follows_trans.
    + assert (F : follows not_file_event s (started host env o s)).
      { unfold started, startup_events. rewrite Sf.
        rewrite set_files_same. apply follows_log.
        destruct (port_offset o >? 0)%Z; reflexivity. }
      exact F.
    + assert (T : emits_only (PortMap:=PortMap) not_file_event
                    (bind (accept_loop host (arrivals env) progname o inferior_arguments)
                          (fun _ => bind (emit exiting) (fun _ => ret 0%Z)))).
      { apply emits_only_bind; [| intros _; emits].
        apply accept_loop_emits. intros e He. unfold not_file_event.
        rewrite He. reflexivity. }
      apply T.
Qed.

(** X6.  Without an option that names a discovery file, no run of the daemon
    takes the discovery-file step: [create_directory] and
    [llvm::writeToOutput] are never called, and the files that step writes
    are as they were.  (The log that [SetupLogging] opens is written by the
    logging library; it is no part of [files].) *)
Theorem no_socket_file_no_discovery_write (env : Env) (progname subcommand : string)
    (parsed : list GetoptResult) (inferior_arguments : list string) (s : State) :
  existsb gives_socket_file parsed = false ->
  let s' :=
    final_state
      (main_platform host env progname subcommand parsed inferior_arguments s) in
  extends not_file_event s s' /\ files s' = files s.
Proof.
  intros N. cbv zeta.
  destruct (main_platform_cases env progname subcommand parsed inferior_arguments s)
    as (o & s1 & E & C). cbv zeta in C.
  pose proof (parse_options_checked _ _ _ _ _ initial_options_checked E) as Ck.
  pose proof (parse_options_socket_file _ _ _ _ _ N E) as So.
  destruct (parse_options_adds _ _ _ _ _ E) as [X1 F1].
  assert (Cf : forall e : Event, checked_config_event e = true -> not_file_event e = true).
  { intros e He. apply config_of_checked in He.
    destruct e; try reflexivity; discriminate He. }
  apply (extends_weaken _ _ _ _ Cf) in X1.
  assert (XL : extends not_file_event s
                 (log [EvSetupLogging (log_file o) (log_channels o)] s1)).
  { eapply extends_trans; [exact X1 |].
    apply (extends_log not_file_event [_]). reflexivity. }
  destruct C as [[_ ->] | (_ & o2 & s2 & Pr & C)]; [split; [exact XL | exact F1] |].
  destruct (make_port_range_checked _ _ _ _ Ck Pr)
    as (_ & X2 & F2 & _ & _ & _ & _ & _ & _ & So2 & _).
  apply (extends_weaken _ _ _ _ Cf) in X2.
  assert (X : extends not_file_event s s2)
    by (eapply extends_trans; eassumption).
  assert (F : files s2 = files s) by (rewrite F2; exact F1).
  destruct C as [[_ ->] | [(_ & _ & _ & ->) | (_ & _ & _ & _ & ->)]].
  - split; [| exact F]. eapply extends_trans; [exact X |].
    apply (extends_log not_file_event [_]). reflexivity.
  - pose proof (child_platform_events not_file_event env o2 inferior_arguments
                  (fun e He => ltac:(destruct e; try reflexivity; discriminate He)) s2)
      as (Xc & Fc & _).
    split; [eapply extends_trans; eassumption | congruence].
  - destruct (parent_platform_without_file env progname o2 inferior_arguments s2)
      as (Xp & Fp & _).
    { rewrite So2, So. reflexivity. }
    split; [eapply extends_trans; eassumption | congruence].
Qed.

Lemma count_events_log (p : Event -> bool) (evs : list Event) (s : State) :
  count_events p (trace (log evs s))
  = (count_events p (trace s) + count_events p evs)%nat.
Proof. unfold log, set_trace. cbn [trace]. apply count_events_app. Qed.

Lemma extends_count (p q : Event -> bool) (s s' : State) :
  (forall e, p e = true -> q e = false) ->
  extends p s s' ->
  count_events q (trace s') = count_events q (trace s).
Proof.
  intros I [later [E P]]. rewrite E, count_events_app.
  assert (Z0 : count_events q later = 0%nat).
  { clear E. unfold count_events. induction later as [|e l IH]; [reflexivity |].
    cbn [forallb] in P. apply andb_prop in P as [Pe Pl].
    cbn [List.filter]. rewrite (I e Pe). apply IH, Pl. }
  lia.
Qed.

Lemma not_accept_false (e : Event) : not_accept e = true -> is_accept e = false.
Proof. apply negb_true_iff. Qed.

(** Out of server mode the loop calls [Accept] at most once. *)
Lemma accept_loop_single_shot_accepts (script : list Arrival) (progname : string)
    (o : Options) (inferior_arguments : list string) (s : State) :
  nonzero (g_server s) = false ->
  (count_events is_accept
     (trace (final_state (accept_loop host script progname o inferior_arguments s)))
   <= count_events is_accept (trace s) + 1)%nat.
Proof.
  intros Gs. destruct script as [|a rest]; [cbn; lia |].
  destruct (Fail (Accept_error a)) eqn:Fa.
  - cbn [accept_loop]. rewrite bind_emit, Fa, bind_emit. unfold exit.
    cbn [final_state]. rewrite log_log, count_events_log.
    change (count_events is_accept
              ([EvAccept children_inherit_accept_socket] ++
               [EvWrite WithColor_error (AsCString (Accept_error a) ++ nl)%string]))
      with 1%nat.
    lia.
  - rewrite (accept_loop_single_shot a rest progname o inferior_arguments s Gs Fa).
    pose proof (client_handle_emits not_accept (arrival_session a) inferior_arguments
                  (fun e He => ltac:(destruct e; try discriminate; reflexivity))
                  (set_portmap PortMap_default
                     (log (single_shot_events a (gdbserver_portmap s)) s))) as F.
    rewrite (follows_count not_accept is_accept _ _ not_accept_false F).
    change (trace (set_portmap PortMap_default
                     (log (single_shot_events a (gdbserver_portmap s)) s)))
      with (trace (log (single_shot_events a (gdbserver_portmap s)) s)).
    rewrite count_events_log.
    change (count_events is_accept (single_shot_events a (gdbserver_portmap s)))
      with 1%nat.
    lia.
Qed.

(** X7.  A daemon started without [--server] calls [Accept] at most once, whatever
    the collaborators answer: it never serves a second connection. *)
Theorem without_server_flag_one_accept (env : Env) (progname subcommand : string)
    (parsed : list GetoptResult) (inferior_arguments : list string) (s : State) :
  nonzero (g_server s) = false ->
  existsb gives_server_flag parsed = false ->
  (count_events is_accept
     (trace (final_state
               (main_platform host env progname subcommand parsed
                  inferior_arguments s)))
   <= count_events is_accept (trace s) + 1)%nat.
Proof.
  intros Gs N.
  destruct (main_platform_cases env progname subcommand parsed inferior_arguments s)
    as (o & s1 & E & C). cbv zeta in C.
  pose proof (parse_options_checked _ _ _ _ _ initial_options_checked E) as Ck.
  pose proof (parse_options_g_server _ _ _ _ _ N E) as G1.
  destruct (parse_options_adds _ _ _ _ _ E) as [X1 _].
  assert (Cf : forall e : Event, checked_config_event e = true -> not_accept e = true).
  { intros e He. apply config_of_checked in He.
    destruct e; try reflexivity; discriminate He. }
  apply (extends_weaken _ _ _ _ Cf) in X1.
  assert (XL : extends not_accept s
                 (log [EvSetupLogging (log_file o) (log_channels o)] s1)).
  { eapply extends_trans; [exact X1 |].
    apply (extends_log not_accept [_]). reflexivity. }
  destruct C as [[_ ->] | (_ & o2 & s2 & Pr & C)].
  { cbn [final_state]. rewrite (extends_count _ _ _ _ not_accept_false XL). lia. }
  destruct (make_port_range_checked _ _ _ _ Ck Pr) as (_ & X2 & _ & G2 & _).
  apply (extends_weaken _ _ _ _ Cf) in X2.
  assert (X : extends not_accept s s2)
    by (eapply extends_trans; eassumption).
  pose proof (extends_count _ _ _ _ not_accept_false X) as Cx.
  assert (G : nonzero (g_server s2) = false).
  { rewrite G2. cbn [g_server log set_trace]. rewrite G1. exact Gs. }
  destruct C as [[_ ->] | [(_ & _ & _ & ->) | (_ & _ & _ & _ & ->)]].
  - cbn [final_state]. rewrite count_events_log, Cx. cbn. lia.
  - pose proof (child_platform_events not_accept env o2 inferior_arguments
                  (fun e He => ltac:(destruct e; try reflexivity; discriminate He)) s2)
      as Fc.
    rewrite (follows_count _ _ _ _ not_accept_false Fc), Cx. lia.
  - destruct (parent_platform_cases env progname o2 inferior_arguments s2)
      as [[t ->] | [[t ->] | [[_ [_ [t ->]]] | ->]]];
      try (cbn [final_state]; rewrite count_events_log, Cx; cbn; lia).
    rewrite final_state_bind.
    pose proof (accept_loop_single_shot_accepts (arrivals env) progname o2
                  inferior_arguments (started host env o2 s2) G) as A.
    assert (Cs : count_events is_accept (trace (started host env o2 s2))
                 = count_events is_accept (trace s)).
    { unfold started. change (trace (set_files ?f ?st)) with (trace st).
      rewrite count_events_log, startup_events_no_accept, Cx. lia. }
    rewrite Cs in A.
    destruct (accept_loop host (arrivals env) progname o2 inferior_arguments
                (started host env o2 s2)) as [[] s3 | c s3 | s3 | s3];
      cbn [final_state] in A |- *; try exact A.
    change (count_events is_accept (trace (log [exiting] s3))
            <= count_events is_accept (trace s) + 1)%nat.
    rewrite count_events_log. change (count_events is_accept [exiting]) with 0%nat.
    lia.
Qed.

(** ** What a spawn leaves behind *)

(** The status of a spawn and the port map after it. *)
Lemma spawn_process_status (env : SpawnEnv) (progname : string)
    (conn_socket gdb_port offset : Z) (args : list string) (lf lc : string)
    (s : State) :
  exists error s',
    spawn_process host env progname conn_socket gdb_port offset args lf lc s
    = Ret error s' /\
    Success error = handed_over env /\
    gdbserver_portmap s' =
      (if launched env
       then AssociatePortWithProcess gdb_port (GetProcessID env) (gdbserver_portmap s)
       else gdbserver_portmap s).
Proof.
  unfold handed_over, launched.
  destruct (Fail (SharedSocket_error env)) eqn:F1.
  { eexists _, _. split; [apply spawn_process_no_socket; exact F1 |].
    unfold Success. rewrite F1. split; reflexivity. }
  destruct (Fail (LaunchProcess_error env)) eqn:F2.
  { eexists _, _. split; [apply spawn_process_launch_fails; assumption |].
    unfold Success. rewrite F2. split; reflexivity. }
  destruct (Z.eq_dec (GetProcessID env) LLDB_INVALID_PROCESS_ID) as [P | P].
  { eexists _, _. split; [apply spawn_process_invalid_pid; assumption |].
    rewrite P. split; reflexivity. }
  assert (Pb : (GetProcessID env =? LLDB_INVALID_PROCESS_ID)%Z = false)
    by (apply Z.eqb_neq; exact P).
  rewrite Pb. cbn [negb andb].
  destruct (Fail (CompleteSending_error env)) eqn:F3.
  - eexists _, _. split; [apply spawn_process_handoff_fails; assumption |].
    unfold Success. rewrite F3. split; reflexivity.
  - eexists _, _. split; [apply spawn_process_succeeds; assumption |].
    split; reflexivity.
Qed.


(** ** Accounts of the accept loop in server mode *)

Lemma count_events_set_portmap (p : Event -> bool) (pm : PortMap) (s : State) :
  count_events p (trace (set_portmap pm s)) = count_events p (trace s).
Proof. reflexivity. Qed.

Section ServeAccounts.

Variables (a : Arrival) (progname : string) (o : Options)
          (inferior_arguments : list string).

(** What serving one connection adds to the trace: one [delete conn], no
    [Accept], and one [FreePort], of the reserved port, exactly when a port
    was reserved and the spawn did not hand the connection over. *)
Lemma serve_connection_accounts (s : State) :
  exists s',
    serve_connection host a progname o inferior_arguments s = Ret tt s' /\
    g_server s' = g_server s /\
    count_events is_delete (trace s')
    = (count_events is_delete (trace s) + 1)%nat /\
    count_events is_accept (trace s') = count_events is_accept (trace s) /\
    match GetNextAvailablePort (gdbserver_portmap s) with
    | (Some p, pm) =>
        count_events is_free_port (trace s')
        = (count_events is_free_port (trace s)
           + count_if (negb (handed_over (arrival_spawn a))))%nat /\
        count_events (is_free_of p) (trace s')
        = (count_events (is_free_of p) (trace s)
           + count_if (negb (handed_over (arrival_spawn a))))%nat /\
        gdbserver_portmap s'
        = port_map_after (arrival_spawn a) p pm
    | (None, pm) =>
        count_events is_free_port (trace s') = count_events is_free_port (trace s) /\
        gdbserver_portmap s' = pm
    end.
Proof.
  destruct (serve_connection_returns a progname o inferior_arguments s)
    as (s' & S & G).
  exists s'. split; [exact S |]. split; [exact G |].
  destruct (GetNextAvailablePort (gdbserver_portmap s)) as [[p|] pm] eqn:E.
  - destruct (spawn_process_status (arrival_spawn a) progname (Accept_conn a) p
                (port_offset o) inferior_arguments (log_file o) (log_channels o)
                (set_portmap pm
                   (log [EvLock; EvPool (OpGetNextAvailablePort (Some p)); EvUnlock] s)))
      as (error & s2 & Sp & Su & Pm).
    rewrite gdbserver_portmap_set in Pm.
    pose proof (spawn_process_spawn_events spawn_event (arrival_spawn a) progname
                  (Accept_conn a) p (port_offset o) inferior_arguments (log_file o)
                  (log_channels o) (fun e He => He)
                  (set_portmap pm
                     (log [EvLock; EvPool (OpGetNextAvailablePort (Some p)); EvUnlock] s)))
      as F.
    rewrite Sp in F. cbn [final_state] in F. apply follows_extends in F.
    assert (C : forall q : Event -> bool,
               (forall e, spawn_event e = true -> q e = false) ->
               q (EvPool (OpGetNextAvailablePort (Some p))) = false ->
               count_events q (trace s2) = count_events q (trace s)).
    { intros q Hq Q. rewrite (extends_count spawn_event q _ _ Hq F).
      rewrite count_events_set_portmap, count_events_log.
      assert (Z0 : count_events q
                     [EvLock; EvPool (OpGetNextAvailablePort (Some p)); EvUnlock]
                   = 0%nat).
      { unfold count_events. cbn [List.filter].
        rewrite (Hq EvLock eq_refl), (Hq EvUnlock eq_refl), Q. reflexivity. }
      rewrite Z0. lia. }
    pose proof (serve_connection_port a progname o inferior_arguments s s2 pm p error
                  E Sp) as R.
    rewrite S in R. injection R as ->.
    assert (Fe : Fail error = negb (handed_over (arrival_spawn a))).
    { unfold Success in Su. rewrite <- Su. rewrite negb_involutive. reflexivity. }
    unfold port_map_after. rewrite <- Fe, <- Pm. unfold after_spawn, spawn_failed.
    destruct (Fail error); cbn [count_if negb];
      rewrite ?gdbserver_portmap_set, ?gdbserver_portmap_log;
      rewrite ?count_events_set_portmap, !count_events_log;
      rewrite !C by
        (try reflexivity; intros e He; destruct e; try reflexivity;
         try discriminate He;
         match goal with x : PoolOp |- _ => destruct x end;
         try reflexivity; discriminate He).
    + repeat split; cbn; rewrite ?Z.eqb_refl; cbn; lia.
    + repeat split; cbn; lia.
  - pose proof (serve_connection_no_port a progname o inferior_arguments s pm E) as R.
    rewrite S in R. injection R as ->.
    rewrite ?gdbserver_portmap_log, ?gdbserver_portmap_set.
    rewrite ?count_events_set_portmap, !count_events_log. cbn. repeat split; lia.
Qed.

End ServeAccounts.

(** X9.  One turn of the loop in server mode with a reserved port [p], after
    which the daemon waits in [Accept]: the port is given back by
    [FreePort p], once, exactly when [spawn_process] did not hand the
    connection over (whichever of its four steps failed), and the port map
    with which the daemon waits is the reserved one with the worker's
    association, if a worker was started, and without the port, if the spawn
    failed. *)
Theorem failed_spawn_frees_reserved_port (a : Arrival)
    (progname : string) (o : Options) (inferior_arguments : list string)
    (s : State) (p : Z) (pm : PortMap) :
  nonzero (g_server s) = true ->
  accept_ok a = true ->
  GetNextAvailablePort (gdbserver_portmap s) = (Some p, pm) ->
  exists s',
    accept_loop host [a] progname o inferior_arguments s = Waiting s' /\
    count_events is_free_port (trace s')
    = (count_events is_free_port (trace s)
       + count_if (negb (handed_over (arrival_spawn a))))%nat /\
    count_events (is_free_of p) (trace s')
    = (count_events (is_free_of p) (trace s)
       + count_if (negb (handed_over (arrival_spawn a))))%nat /\
    gdbserver_portmap s' = port_map_after (arrival_spawn a) p pm.
Proof.
  intros Gs Ok E.
  assert (Fa : Fail (Accept_error a) = false).
  { unfold accept_ok in Ok. destruct (Fail (Accept_error a)); [discriminate Ok | reflexivity]. }
  destruct (serve_connection_accounts a progname o inferior_arguments
              (log connection_established s))
    as (s' & S & G & _ & _ & P).
  rewrite gdbserver_portmap_log, E in P. destruct P as (F1 & F2 & Pm).
  exists s'. split.
  - rewrite (accept_loop_serves a progname o inferior_arguments [] s s' Gs Fa S).
    + reflexivity.
    + rewrite G. apply g_server_log.
  - rewrite !count_events_log in F1, F2. cbn in F1, F2.
    repeat split; [lia | lia | exact Pm].
Qed.


(** ** The mutex of the port map *)

Lemma lock_scan_app (evs1 evs2 : list Event) (held held1 : bool) :
  lock_scan held evs1 = Some held1 ->
  lock_scan held (evs1 ++ evs2) = lock_scan held1 evs2.
Proof.
  revert held. induction evs1 as [|e rest IH]; intros held E; cbn in *.
  - injection E as ->. reflexivity.
  - destruct (lock_step held e); [apply IH, E | discriminate E].
Qed.

Lemma lock_scan_neutral (evs : list Event) :
  forallb lock_neutral evs = true -> lock_scan false evs = Some false.
Proof.
  induction evs as [|e rest IH]; intros N; [reflexivity |].
  cbn [forallb] in N. apply andb_prop in N as [Ne Nr].
  cbn [lock_scan].
  assert (St : lock_step false e = Some false).
  { destruct e; try discriminate Ne; try reflexivity.
    match goal with x : PoolOp |- _ => destruct x end;
      try discriminate Ne; reflexivity. }
  rewrite St. apply IH, Nr.
Qed.

Lemma well_locked_refl (s : State) : well_locked s s.
Proof. exists []. split; [symmetry; apply app_nil_r | reflexivity]. Qed.

Lemma well_locked_trans (s1 s2 s3 : State) :
  well_locked s1 s2 -> well_locked s2 s3 -> well_locked s1 s3.
Proof.
  intros [l1 [E1 P1]] [l2 [E2 P2]]. exists (l1 ++ l2). split.
  - rewrite E2, E1, app_assoc. reflexivity.
  - rewrite (lock_scan_app _ _ _ _ P1). exact P2.
Qed.

Lemma well_locked_extends (p : Event -> bool) (s s' : State) :
  (forall e, p e = true -> lock_neutral e = true) ->
  extends p s s' -> well_locked s s'.
Proof.
  intros I [l [E P]]. exists l. split; [exact E |].
  apply lock_scan_neutral. rewrite forallb_forall in *.
  intros e He. apply I, P, He.
Qed.

Lemma well_locked_log (evs : list Event) (s : State) :
  lock_scan false evs = Some false -> well_locked s (log evs s).
Proof. intros P. exists evs. split; [reflexivity | exact P]. Qed.

Lemma well_locked_set_portmap (pm : PortMap) (s s' : State) :
  well_locked s s' -> well_locked s (set_portmap pm s').
Proof. intros [l [E P]]. exists l. split; [exact E | exact P]. Qed.

Lemma well_locked_from_set_portmap (pm : PortMap) (s s' : State) :
  well_locked (set_portmap pm s) s' -> well_locked s s'.
Proof. intros [l [E P]]. exists l. split; [exact E | exact P]. Qed.

Lemma spawn_process_well_locked (env : SpawnEnv) (progname : string)
    (conn_socket gdb_port offset : Z) (args : list string) (lf lc : string)
    (s : State) :
  well_locked s
    (final_state
       (spawn_process host env progname conn_socket gdb_port offset args lf lc s)).
Proof.
  destruct (Fail (SharedSocket_error env)) eqn:F1.
  { rewrite spawn_process_no_socket by exact F1.
    apply well_locked_log. reflexivity. }
  destruct (Fail (LaunchProcess_error env)) eqn:F2.
  { rewrite spawn_process_launch_fails by assumption.
    apply well_locked_log. reflexivity. }
  destruct (Z.eq_dec (GetProcessID env) LLDB_INVALID_PROCESS_ID) as [P | P].
  { rewrite spawn_process_invalid_pid by assumption.
    apply well_locked_log. reflexivity. }
  destruct (Fail (CompleteSending_error env)) eqn:F3.
  - rewrite spawn_process_handoff_fails by assumption.
    apply well_locked_set_portmap, well_locked_log. reflexivity.
  - rewrite spawn_process_succeeds by assumption.
    apply well_locked_set_portmap, well_locked_log. reflexivity.
Qed.

Lemma serve_connection_well_locked (a : Arrival) (progname : string)
    (o : Options) (inferior_arguments : list string) (s : State) :
  well_locked s
    (final_state (serve_connection host a progname o inferior_arguments s)).
Proof.
  destruct (GetNextAvailablePort (gdbserver_portmap s)) as [[p|] pm] eqn:E.
  - pose proof (spawn_process_well_locked (arrival_spawn a) progname (Accept_conn a)
                  p (port_offset o) inferior_arguments (log_file o) (log_channels o)
                  (set_portmap pm
                     (log [EvLock; EvPool (OpGetNextAvailablePort (Some p)); EvUnlock] s)))
      as W.
    destruct (spawn_process_returns (arrival_spawn a) progname (Accept_conn a)
                p (port_offset o) inferior_arguments (log_file o) (log_channels o)
                (set_portmap pm
                   (log [EvLock; EvPool (OpGetNextAvailablePort (Some p)); EvUnlock] s)))
      as (error & s2 & Sp).
    rewrite Sp in W. cbn [final_state] in W.
    rewrite (serve_connection_port a progname o inferior_arguments s s2 pm p error E Sp).
    cbn [final_state].
    apply well_locked_from_set_portmap in W.
    apply (well_locked_trans s
             (log [EvLock; EvPool (OpGetNextAvailablePort (Some p)); EvUnlock] s));
      [apply well_locked_log; reflexivity |].
    eapply well_locked_trans; [exact W |].
    unfold after_spawn, spawn_failed. destruct (Fail error).
    + apply well_locked_set_portmap, well_locked_log. reflexivity.
    + apply well_locked_log. reflexivity.
  - rewrite (serve_connection_no_port a progname o inferior_arguments s pm E).
    cbn [final_state].
    repeat first [apply well_locked_set_portmap | apply well_locked_log; reflexivity].
Qed.

Lemma session_event_neutral (e : Event) :
  session_event e = true -> lock_neutral e = true.
Proof. destruct e; try discriminate; reflexivity. Qed.

Lemma single_shot_event_neutral (e : Event) :
  single_shot_event e = true -> lock_neutral e = true.
Proof. destruct e; try discriminate; reflexivity. Qed.

Lemma accept_loop_well_locked (script : list Arrival) (progname : string)
    (o : Options) (inferior_arguments : list string) (s : State) :
  well_locked s
    (final_state (accept_loop host script progname o inferior_arguments s)).
Proof.
  destruct (nonzero (g_server s)) eqn:Gs.
  - revert s Gs. induction script as [|a rest IH]; intros s Gs.
    + apply well_locked_refl.
    + destruct (Fail (Accept_error a)) eqn:Fa.
      * cbn [accept_loop]. rewrite bind_emit, Fa, bind_emit. cbn [final_state].
        rewrite log_log. apply well_locked_log. reflexivity.
      * destruct (serve_connection_returns a progname o inferior_arguments
                    (log connection_established s)) as (s' & S & G').
        rewrite g_server_log in G'.
        rewrite (accept_loop_serves a progname o inferior_arguments rest s s' Gs Fa S G').
        eapply well_locked_trans; [| apply IH; rewrite G'; exact Gs].
        apply (well_locked_trans s (log connection_established s));
          [apply well_locked_log; reflexivity |].
        pose proof (serve_connection_well_locked a progname o inferior_arguments
                      (log connection_established s)) as W.
        rewrite S in W. exact W.
  - apply (well_locked_extends single_shot_event); [apply single_shot_event_neutral |].
    apply follows_extends, accept_loop_single_shot_events; [auto | exact Gs].
Qed.

Lemma startup_events_neutral (env : Env) (o : Options) :
  forallb lock_neutral (startup_events (PortMap:=PortMap) host env o) = true.
Proof.
  unfold startup_events, discovery_events.
  destruct (FileSpec_bool (socket_file o)); destruct (port_offset o >? 0)%Z;
    reflexivity.
Qed.

Lemma parent_platform_well_locked (env : Env) (progname : string) (o : Options)
    (inferior_arguments : list string) (s : State) :
  well_locked s
    (final_state (parent_platform host env progname o inferior_arguments s)).
Proof.
  destruct (parent_platform_cases env progname o inferior_arguments s)
    as [[text ->] | [[text ->] | [[_ [_ [text ->]]] | ->]]];
    try (apply well_locked_log; reflexivity).
  rewrite final_state_bind.
  pose proof (accept_loop_well_locked (arrivals env) progname o inferior_arguments
                (started host env o s)) as W.
  assert (W0 : well_locked s (started host env o s)).
  { exists (startup_events host env o). split; [reflexivity |].
    apply lock_scan_neutral, startup_events_neutral. }
  destruct (accept_loop host (arrivals env) progname o inferior_arguments
              (started host env o s)) as [[] s1 | code s1 | s1 | s1];
    cbn [final_state] in *;
    try (eapply well_locked_trans; [exact W0 | exact W]).
  rewrite bind_emit. cbn [final_state].
  eapply well_locked_trans; [exact W0 |].
  eapply well_locked_trans; [exact W |].
  apply well_locked_log. reflexivity.
Qed.

(** X11.  In every run of [main_platform], however it ends, the mutex of the
    port map is taken and released in turn, [GetNextAvailablePort],
    [AssociatePortWithProcess] and [FreePort] are called only while it is
    held, nothing else happens while it is held (no [Accept], no launch of a
    process, no write), and it is free when the run ends or waits. *)
Theorem main_platform_mutex_discipline (env : Env) (progname subcommand : string)
    (parsed : list GetoptResult) (inferior_arguments : list string) (s : State) :
  well_locked s
    (final_state
       (main_platform host env progname subcommand parsed inferior_arguments s)).
Proof.
  destruct (main_platform_cases env progname subcommand parsed inferior_arguments s)
    as (o & s1 & E & C). cbv zeta in C.
  pose proof (parse_options_checked _ _ _ _ _ initial_options_checked E) as Ck.
  destruct (parse_options_adds _ _ _ _ _ E) as [X1 _].
  apply (extends_weaken _ _ _ _ config_of_checked) in X1.
  assert (Cn : forall e : Event, config_event e = true -> lock_neutral e = true).
  { intros e He. destruct e; try discriminate He; try reflexivity.
    match goal with x : PoolOp |- _ => destruct x end;
      try discriminate He; reflexivity. }
  assert (XL : well_locked s
                 (log [EvSetupLogging (log_file o) (log_channels o)] s1)).
  { eapply well_locked_trans; [apply (well_locked_extends _ _ _ Cn X1) |].
    apply well_locked_log. reflexivity. }
  destruct C as [[_ ->] | (_ & o2 & s2 & Pr & C)]; [exact XL |].
  destruct (make_port_range_checked _ _ _ _ Ck Pr) as (_ & X2 & _).
  apply (extends_weaken _ _ _ _ config_of_checked) in X2.
  assert (X : well_locked s s2).
  { eapply well_locked_trans; [exact XL | apply (well_locked_extends _ _ _ Cn X2)]. }
  destruct C as [[_ ->] | [(_ & _ & _ & ->) | (_ & _ & _ & _ & ->)]].
  - eapply well_locked_trans; [exact X | apply well_locked_log; reflexivity].
  - eapply well_locked_trans; [exact X |].
    apply (well_locked_extends (child_event o2)).
    + intros e He. unfold child_event in He.
      destruct e; try discriminate He; reflexivity.
    + apply follows_extends.
      apply (child_platform_events (child_event o2) env o2 inferior_arguments
               (fun e He => He)).
  - eapply well_locked_trans; [exact X | apply parent_platform_well_locked].
Qed.

(** ** The logging options *)

Lemma last_given_cons (d a : string) (l : list string) :
  last_given d (a :: l) = last_given (if nonempty a then a else d) l.
Proof.
  unfold last_given. cbn [List.filter]. destruct (nonempty a); [| reflexivity].
  destruct (List.filter nonempty l) as [|b rest] eqn:F; [reflexivity |].
  change (last (a :: b :: rest)) with (last (b :: rest)).
  destruct (last (b :: rest)) eqn:La; [reflexivity |].
  apply last_None in La. discriminate La.
Qed.

Lemma parse_option_log (g : GetoptResult) (o o' : Options) (s s' : State) :
  parse_option host g o s = Ret o' s' ->
  log_file o' = last_given (log_file o) (log_file_arguments [g]) /\
  log_channels o' = last_given (log_channels o) (log_channels_arguments [g]).
Proof.
  intros E. parse_inv E; cbn [log_file_arguments log_channels_arguments omap
                               list_omap];
    rewrite ?last_given_cons, ?N; split; reflexivity.
Qed.

Lemma parse_options_log (parsed : list GetoptResult) (o o' : Options)
    (s s' : State) :
  parse_options host parsed o s = Ret o' s' ->
  log_file o' = last_given (log_file o) (log_file_arguments parsed) /\
  log_channels o' = last_given (log_channels o) (log_channels_arguments parsed).
Proof.
  revert o s. induction parsed as [|g rest IH]; intros o s E;
    cbn [parse_options] in E.
  - injection E as <- <-. split; reflexivity.
  - destruct (parse_option_returns g o s) as (o1 & s1 & E1).
    rewrite (bind_Ret _ _ _ _ _ E1) in E.
    destruct (IH _ _ E) as [L C]. destruct (parse_option_log _ _ _ _ _ E1) as [L1 C1].
    rewrite L, C, L1, C1. clear.
    destruct g as [f | ch optarg]; [split; reflexivity |].
    destruct ch; cbn [log_file_arguments log_channels_arguments omap list_omap];
      rewrite ?last_given_cons; split; reflexivity.
Qed.

(** X12.  Every run sets up the log right after its options, whatever they
    are, with the last [--log-file] and the last [--log-channels] whose
    argument is not empty (the empty string when there is none).  When the
    setup fails the run ends there with -1: no usage text is written, even
    for a bad option, and no port range is made. *)
Theorem logging_set_up_from_last_options (env : Env) (progname subcommand : string)
    (parsed : list GetoptResult) (inferior_arguments : list string) (s : State) :
  let run := main_platform host env progname subcommand parsed inferior_arguments s in
  exists o s1 later,
    parse_options host parsed (initial_options host) s = Ret o s1 /\
    trace (final_state run)
    = trace s1 ++
      EvSetupLogging (last_given EmptyString (log_file_arguments parsed))
                     (last_given EmptyString (log_channels_arguments parsed))
      :: later /\
    (SetupLogging env = false ->
     later = [] /\ exit_status (fun code => code) run = Some (-1)%Z).
Proof.
  cbv zeta.
  destruct (main_platform_cases env progname subcommand parsed inferior_arguments s)
    as (o & s1 & E & C). cbv zeta in C.
  destruct (parse_options_log _ _ _ _ _ E) as [Lf Lc].
  change (log_file (initial_options host)) with EmptyString in Lf.
  change (log_channels (initial_options host)) with EmptyString in Lc.
  rewrite <- Lf, <- Lc.
  pose proof (parse_options_checked _ _ _ _ _ initial_options_checked E) as Ck.
  exists o, s1.
  destruct C as [[_ ->] | (L & o2 & s2 & Pr & C)].
  { exists []. split; [exact E |]. split; [reflexivity |].
    intros _. split; reflexivity. }
  assert (X : extends any_event
                (log [EvSetupLogging (log_file o) (log_channels o)] s1)
                (final_state
                   (main_platform host env progname subcommand parsed
                      inferior_arguments s))).
  { destruct (make_port_range_checked _ _ _ _ Ck Pr) as (_ & X2 & _).
    apply (extends_weaken _ any_event _ _ (fun _ _ => eq_refl)) in X2.
    eapply extends_trans; [exact X2 |].
    destruct C as [[_ ->] | [(_ & _ & _ & ->) | (_ & _ & _ & _ & ->)]].
    - apply (extends_log any_event [_]). reflexivity.
    - apply follows_extends.
      apply (child_platform_events any_event env o2 inferior_arguments
               (fun _ _ => eq_refl)).
    - apply (parent_platform_events any_event env progname o2 inferior_arguments
               (fun _ _ => eq_refl)). }
  destruct X as (later & T & _). exists later.
  split; [exact E |]. split.
  - rewrite T. unfold log, set_trace. cbn [trace].
    rewrite <- app_assoc. reflexivity.
  - intros F. rewrite F in L. discriminate L.
Qed.

(** X13.  A run that is given both a listen address and a handoff token
    neither listens nor resolves the token: it ends with status 0 (the usage
    text, for a bad option or a request for help) or returns -1, and either
    way it has only written messages, set up the log and configured the port
    map, and has touched no file. *)
Theorem listen_with_fd_is_rejected (env : Env) (progname subcommand : string)
    (parsed : list GetoptResult) (inferior_arguments : list string)
    (s s1 : State) (o : Options) :
  parse_options host parsed (initial_options host) s = Ret o s1 ->
  nonempty (listen_host_port o) = true ->
  fd o <> kInvalidFD host ->
  let run := main_platform host env progname subcommand parsed inferior_arguments s in
  exists s',
    (run = Exit 0%Z s' \/ run = Ret (-1)%Z s') /\
    extends config_event s s' /\
    files s' = files s.
Proof.
  intros E Li Fd. cbv zeta.
  destruct (main_platform_cases env progname subcommand parsed inferior_arguments s)
    as (o' & s1' & E' & C). cbv zeta in C.
  rewrite E in E'. injection E' as <- <-.
  pose proof (parse_options_checked _ _ _ _ _ initial_options_checked E) as Ck.
  destruct (parse_options_adds _ _ _ _ _ E) as [X1 F1].
  apply (extends_weaken _ _ _ _ config_of_checked) in X1.
  assert (XL : extends config_event s
                 (log [EvSetupLogging (log_file o) (log_channels o)] s1)).
  { eapply extends_trans; [exact X1 |].
    apply (extends_log config_event [_]). reflexivity. }
  destruct C as [[_ ->] | (_ & o2 & s2 & Pr & C)].
  { eexists. split; [right; reflexivity |]. split; [exact XL | exact F1]. }
  destruct (make_port_range_checked _ _ _ _ Ck Pr)
    as (_ & X2 & F2 & _ & _ & Li2 & Fd2 & _).
  apply (extends_weaken _ _ _ _ config_of_checked) in X2.
  assert (X : extends config_event s s2)
    by (eapply extends_trans; eassumption).
  assert (F : files s2 = files s) by (rewrite F2; exact F1).
  destruct C as [[_ ->] | [(_ & _ & _ & ->) | (_ & _ & Fd' & _)]].
  - eexists. split; [left; reflexivity |]. split; [| exact F].
    eapply extends_trans; [exact X |].
    apply (extends_log config_event [_]). reflexivity.
  - unfold child_platform. rewrite Li2, Li, bind_emit. unfold ret.
    eexists. split; [right; reflexivity |]. split; [| exact F].
    eapply extends_trans; [exact X |].
    apply (extends_log config_event [_]). reflexivity.
  - rewrite Fd2 in Fd'. contradiction.
Qed.

(** ** Who serves a connection *)

Lemma parse_options_server (parsed : list GetoptResult) (o o' : Options)
    (s s' : State) :
  parse_options host parsed o s = Ret o' s' ->
  nonzero (g_server s') = nonzero (g_server s) || existsb gives_server_flag parsed.
Proof.
  revert o s. induction parsed as [|g rest IH]; intros o s E;
    cbn [parse_options] in E.
  - injection E as <- <-. cbn. rewrite orb_false_r. reflexivity.
  - destruct (parse_option_returns g o s) as (o1 & s1 & E1).
    rewrite (bind_Ret _ _ _ _ _ E1) in E.
    rewrite (IH _ _ E). cbn [existsb]. clear E IH.
    parse_inv E1; cbn [gives_server_flag orb]; try reflexivity.
    cbn. rewrite orb_true_r. reflexivity.
Qed.

Lemma parent_platform_mode (env : Env) (progname : string) (o : Options)
    (inferior_arguments : list string) (s : State) :
  extends (if nonzero (g_server s) then serves_nothing_itself else spawns_nothing)
    s (final_state (parent_platform host env progname o inferior_arguments s)).
Proof.
  set (q := if nonzero (g_server s) then serves_nothing_itself else spawns_nothing).
  assert (Q : forall e, (if nonzero (g_server s)
                         then server_event e else single_shot_event e) = true ->
                        q e = true).
  { subst q. intros e. destruct (nonzero (g_server s)); intros He;
      destruct e; try discriminate He; try reflexivity;
      match goal with x : PoolOp |- _ => destruct x end;
      try discriminate He; reflexivity. }
  assert (Qs : forallb q (startup_events host env o) = true).
  { subst q. unfold startup_events, discovery_events.
    destruct (nonzero (g_server s)); destruct (FileSpec_bool (socket_file o));
      destruct (port_offset o >? 0)%Z; reflexivity. }
  assert (Ql : forall evs, forallb (fun e => negb (own_session_event e)
                                            && negb (worker_event e)) evs = true ->
                           forallb q evs = true).
  { subst q. intros evs. rewrite !forallb_forall. intros H e He.
    specialize (H e He). apply andb_prop in H as [H1 H2].
    destruct (nonzero (g_server s)); assumption. }
  destruct (parent_platform_cases env progname o inferior_arguments s)
    as [[text ->] | [[text ->] | [[_ [_ [text ->]]] | ->]]];
    try (apply extends_log, Ql; reflexivity).
  rewrite final_state_bind.
  assert (W0 : extends q s (started host env o s)).
  { exists (startup_events host env o). split; [reflexivity | exact Qs]. }
  assert (W : extends q (started host env o s)
                (final_state (accept_loop host (arrivals env) progname o
                                inferior_arguments (started host env o s)))).
  { apply follows_extends.
    destruct (nonzero (g_server s)) eqn:Gs.
    - apply accept_loop_server_events; [| exact Gs].
      intros e He. apply Q. exact He.
    - apply accept_loop_single_shot_events; [| exact Gs].
      intros e He. apply Q. exact He. }
  destruct (accept_loop host (arrivals env) progname o inferior_arguments
              (started host env o s)) as [[] s1 | code s1 | s1 | s1];
    cbn [final_state] in *;
    try (eapply extends_trans; [exact W0 | exact W]).
  rewrite bind_emit. cbn [final_state].
  eapply extends_trans; [exact W0 |].
  eapply extends_trans; [exact W |].
  apply extends_log, Ql. reflexivity.
Qed.

(** X14.  The [--server] flag decides who serves a connection.  A daemon
    that listens in server mode never serves a session itself: it never
    resets its acceptor, hands its port map to no platform object, starts no
    debug stub and exchanges no packet.  A run out of server mode never hands
    a connection to a worker: it shares no socket, launches and kills no
    process, never takes the mutex and never reserves or frees a port. *)
Theorem server_flag_decides_who_serves (env : Env) (progname subcommand : string)
    (parsed : list GetoptResult) (inferior_arguments : list string)
    (s s1 : State) (o : Options) :
  parse_options host parsed (initial_options host) s = Ret o s1 ->
  let server := nonzero (g_server s) || existsb gives_server_flag parsed in
  let s' :=
    final_state
      (main_platform host env progname subcommand parsed inferior_arguments s) in
  (server = true -> fd o = kInvalidFD host -> extends serves_nothing_itself s s') /\
  (server = false -> extends spawns_nothing s s').
Proof.
  intros E. cbv zeta.
  destruct (main_platform_cases env progname subcommand parsed inferior_arguments s)
    as (o' & s1' & E' & C). cbv zeta in C.
  rewrite E in E'. injection E' as <- <-.
  pose proof (parse_options_checked _ _ _ _ _ initial_options_checked E) as Ck.
  pose proof (parse_options_server _ _ _ _ _ E) as Gs.
  destruct (parse_options_adds _ _ _ _ _ E) as [X1 _].
  apply (extends_weaken _ _ _ _ config_of_checked) in X1.
  assert (Cn : forall e : Event,
             config_event e = true ->
             serves_nothing_itself e = true /\ spawns_nothing e = true).
  { intros e He. destruct e; try discriminate He; try (split; reflexivity).
    match goal with x : PoolOp |- _ => destruct x end;
      try discriminate He; split; reflexivity. }
  assert (XL : extends config_event s
                 (log [EvSetupLogging (log_file o) (log_channels o)] s1)).
  { eapply extends_trans; [exact X1 |].
    apply (extends_log config_event [_]). reflexivity. }
  destruct C as [[_ ->] | (_ & o2 & s2 & Pr & C)].
  { split; intros; eapply extends_weaken; try exact XL; intros e He; apply Cn, He. }
  destruct (make_port_range_checked _ _ _ _ Ck Pr)
    as (_ & X2 & _ & G2 & _ & _ & Fd2 & _).
  rewrite g_server_log in G2.
  apply (extends_weaken _ _ _ _ config_of_checked) in X2.
  assert (X : extends config_event s s2)
    by (eapply extends_trans; eassumption).
  assert (Xa : extends serves_nothing_itself s s2)
    by (eapply extends_weaken; [| exact X]; intros e He; apply Cn, He).
  assert (Xb : extends spawns_nothing s s2)
    by (eapply extends_weaken; [| exact X]; intros e He; apply Cn, He).
  destruct C as [[_ ->] | [(_ & _ & Fd' & ->) | (_ & _ & _ & _ & ->)]].
  - split; intros; (eapply extends_trans; [eassumption |]);
      apply extends_log; reflexivity.
  - split.
    + intros _ Fd. rewrite Fd2 in Fd'. contradiction.
    + intros _. eapply extends_trans; [exact Xb |].
      apply follows_extends.
      apply (child_platform_events spawns_nothing env o2 inferior_arguments).
      intros e He. unfold child_event in He.
      destruct e; try discriminate He; reflexivity.
  - pose proof (parent_platform_mode env progname o2 inferior_arguments s2) as P.
    rewrite G2, Gs in P.
    split; intros Sv; try intros _; rewrite Sv in P;
      (eapply extends_trans; [eassumption | exact P]).
Qed.

(** ** The end of the packet loop *)



(** ** A port range that is not proper *)

Lemma make_port_range_improper (o : Options) (s : State) :
  nonzero (min_gdbserver_port o) || nonzero (max_gdbserver_port o) = true ->
  nonzero (min_gdbserver_port o)
  && (min_gdbserver_port o <? max_gdbserver_port o)%Z = false ->
  exists text,
    make_port_range o s
    = Ret (set_option_error 3 o) (log [EvWrite WithColor_error text] s).
Proof.
  intros Some_bound Improper. unfold make_port_range.
  rewrite Improper, Some_bound, bind_emit. eexists. reflexivity.
Qed.

(** X16.  A port range needs both bounds, the lower one below the upper one:
    with one bound alone, or with bounds that are equal or the wrong way
    round, the run writes an error and ends with the usage text and status 0,
    and the port map is the one the options left, no range was made. *)
Theorem improper_port_range_ends_in_usage (env : Env) (progname subcommand : string)
    (parsed : list GetoptResult) (inferior_arguments : list string)
    (s s1 : State) (o : Options) :
  parse_options host parsed (initial_options host) s = Ret o s1 ->
  SetupLogging env = true ->
  nonzero (min_gdbserver_port o) || nonzero (max_gdbserver_port o) = true ->
  nonzero (min_gdbserver_port o)
  && (min_gdbserver_port o <? max_gdbserver_port o)%Z = false ->
  exists s' text,
    main_platform host env progname subcommand parsed inferior_arguments s
    = Exit 0%Z s' /\
    trace s'
    = trace s1 ++ [EvSetupLogging (log_file o) (log_channels o);
                   EvWrite WithColor_error text;
                   EvWrite Stderr (usage_text progname subcommand)] /\
    gdbserver_portmap s' = gdbserver_portmap s1.
Proof.
  intros E L Some_bound Improper.
  destruct (make_port_range_improper o
              (log [EvSetupLogging (log_file o) (log_channels o)] s1)
              Some_bound Improper) as (text & Pr).
  eexists _, text. split; [| split].
  - apply (main_platform_usage env progname subcommand parsed inferior_arguments
             s s1 _ o _ E L Pr).
    cbn [option_error set_option_error]. apply orb_true_iff. left.
    apply orb_true_r.
  - rewrite !log_log. unfold log, set_trace. cbn [trace app]. reflexivity.
  - reflexivity.
Qed.

(** ** One turn of the loop in server mode *)

(** Every turn of the loop begins with a call of [Accept]. *)
Lemma accept_loop_begins_with_accept (b : Arrival) (rest : list Arrival)
    (progname : string) (o : Options) (inferior_arguments : list string)
    (s : State) :
  exists later,
    trace (final_state
             (accept_loop host (b :: rest) progname o inferior_arguments s))
    = trace s ++ EvAccept children_inherit_accept_socket :: later.
Proof.
  destruct (Fail (Accept_error b)) eqn:Fa.
  { cbn [accept_loop]. rewrite bind_emit, Fa, bind_emit. cbn [final_state].
    rewrite log_log. eexists. reflexivity. }
  destruct (nonzero (g_server s)) eqn:Gs.
  - destruct (serve_connection_returns b progname o inferior_arguments
                (log connection_established s)) as (s' & S & G').
    rewrite g_server_log in G'.
    rewrite (accept_loop_serves b progname o inferior_arguments rest s s' Gs Fa S G').
    pose proof (serve_connection_emits b progname o inferior_arguments
                  (fun _ => true) (fun _ _ => eq_refl)
                  (log connection_established s)) as F1.
    rewrite S in F1. destruct F1 as [[l1 [E1 _]] _]. cbn [final_state] in E1.
    destruct (accept_loop_events any_event rest progname o inferior_arguments s'
                (fun _ _ => eq_refl)) as [[l2 [E2 _]] _].
    rewrite E2, E1. exists (EvWrite Stdout ("Connection established." ++ nl)%string
                            :: l1 ++ l2).
    unfold log, set_trace, connection_established. cbn [trace].
    rewrite <- !app_assoc. reflexivity.
  - rewrite (accept_loop_single_shot b rest progname o inferior_arguments s Gs Fa).
    destruct (client_handle_emits any_event (arrival_session b) inferior_arguments
                (fun _ _ => eq_refl)
                (set_portmap PortMap_default
                   (log (single_shot_events b (gdbserver_portmap s)) s)))
      as [[l [E _]] _].
    rewrite E. eexists.
    unfold log, set_trace, set_portmap, single_shot_events, connection_established.
    cbn [trace]. rewrite <- !app_assoc. reflexivity.
Qed.

Lemma accept_loop_goes_on (rest : list Arrival) (progname : string)
    (o : Options) (inferior_arguments : list string) (s1 : State) :
  goes_on_accepting host rest progname o inferior_arguments
    (accept_loop host rest progname o inferior_arguments s1) s1.
Proof.
  split; [reflexivity |].
  destruct rest as [|b rest]; [reflexivity |].
  apply accept_loop_begins_with_accept.
Qed.

(** C1.  In server mode every accepted connection leads to one attempt to take
    a port from the pool, under the mutex.  Without a port the connection is
    dropped with the diagnostic and deleted, and the loop goes on with the
    next [Accept].  With a port the connection is given to [spawn_process],
    and as soon as that call has returned (the reserved port being freed when
    it failed) the connection is deleted and the loop goes on with the next
    [Accept]: nothing about the worker is awaited.  The events of the turn
    are exactly these, in this order; whatever the pool and the spawns answer
    the daemon is never stopped, and at the end of the script it is waiting
    in [Accept]. *)
Theorem server_mode_accept_loop (a : Arrival) (rest : list Arrival)
    (progname : string) (o : Options) (inferior_arguments : list string)
    (s : State) :
  nonzero (g_server s) = true ->
  Fail (Accept_error a) = false ->
  let run := accept_loop host (a :: rest) progname o inferior_arguments s in
  match GetNextAvailablePort (gdbserver_portmap s) with
  | (None, pm) =>
      goes_on_accepting host rest progname o inferior_arguments run
        (set_portmap pm
           (log (connection_established ++
                 [EvLock; EvPool (OpGetNextAvailablePort None); EvUnlock;
                  dropping; EvDeleteConn (Accept_conn a)]) s))
  | (Some p, pm) =>
      exists error s2,
        spawn_process host (arrival_spawn a) progname (Accept_conn a) p
            (port_offset o) inferior_arguments (log_file o) (log_channels o)
            (set_portmap pm
               (log (connection_established ++
                     [EvLock; EvPool (OpGetNextAvailablePort (Some p)); EvUnlock]) s))
          = Ret error s2 /\
        g_server s2 = g_server s /\
        goes_on_accepting host rest progname o inferior_arguments run
          (after_spawn a p error s2)
  end /\
  (Forall (fun a' => Fail (Accept_error a') = false) rest ->
   exists s', run = Waiting s').
Proof.
  intros Gs Fa. cbv zeta. split.
  - destruct (GetNextAvailablePort (gdbserver_portmap s)) as [[p|] pm] eqn:E.
    + destruct (spawn_process_returns (arrival_spawn a) progname (Accept_conn a) p
                  (port_offset o) inferior_arguments (log_file o) (log_channels o)
                  (set_portmap pm
                     (log (connection_established ++
                           [EvLock; EvPool (OpGetNextAvailablePort (Some p)); EvUnlock])
                        s)))
        as (error & s2 & S).
      exists error, s2. split; [exact S |].
      split.
      { pose proof (spawn_process_emits (arrival_spawn a) progname (Accept_conn a) p
                      (port_offset o) inferior_arguments (log_file o) (log_channels o)
                      (fun _ => true) (fun _ _ => eq_refl)
                      (set_portmap pm
                         (log (connection_established ++
                               [EvLock; EvPool (OpGetNextAvailablePort (Some p));
                                EvUnlock]) s))) as F.
        rewrite S in F. apply F. }
      rewrite <- log_log in S.
      pose proof (serve_connection_port a progname o inferior_arguments
                    (log connection_established s) s2 pm p error E S) as R.
      rewrite (accept_loop_serves a progname o inferior_arguments rest s _ Gs Fa R).
      * apply accept_loop_goes_on.
      * pose proof (serve_connection_emits a progname o inferior_arguments
                      (fun _ => true) (fun _ _ => eq_refl)
                      (log connection_established s)) as F.
        rewrite R in F. apply F.
    + pose proof (serve_connection_no_port a progname o inferior_arguments
                    (log connection_established s) pm E) as R.
      rewrite log_log in R.
      rewrite (accept_loop_serves a progname o inferior_arguments rest s _ Gs Fa R).
      * apply accept_loop_goes_on.
      * reflexivity.
  - intros All. apply server_keeps_accepting; [assumption |].
    constructor; assumption.
Qed.

(** C2.  A connection was accepted in server mode and the port [p] was
    reserved for it.  When [Host::LaunchProcess] fails, [spawn_process] returns
    that error right after the launch attempt, so the port is never associated
    with a worker, and the caller frees the port under the mutex, reports the
    error, deletes the connection and goes on with the next [Accept]: the
    events of the turn are exactly these, in this order.  When the launch
    succeeds and [CompleteSending] fails, [spawn_process] kills the worker it
    has just started with SIGTERM and returns the error of the handoff. *)
Theorem spawn_failure_handling (a : Arrival) (rest : list Arrival)
    (progname : string) (o : Options) (inferior_arguments : list string)
    (s : State) (p : Z) (pm : PortMap) :
  nonzero (g_server s) = true ->
  Fail (Accept_error a) = false ->
  GetNextAvailablePort (gdbserver_portmap s) = (Some p, pm) ->
  Fail (SharedSocket_error (arrival_spawn a)) = false ->
  let env := arrival_spawn a in
  let self_args :=
    spawn_self_args (GetSendableFD env) p (port_offset o) inferior_arguments
                    (log_file o) (log_channels o) in
  let info := spawn_launch_info progname self_args (GetEnvironment env) in
  let attempt := [EvSharedSocket (Accept_conn a); EvLaunchProcess info] in
  let spawn :=
    spawn_process host env progname (Accept_conn a) p (port_offset o)
                  inferior_arguments (log_file o) (log_channels o) in
  (Fail (LaunchProcess_error env) = true ->
   (forall s1, spawn s1 = Ret (LaunchProcess_error env) (log attempt s1)) /\
   goes_on_accepting host rest progname o inferior_arguments
     (accept_loop host (a :: rest) progname o inferior_arguments s)
     (set_portmap (FreePort p pm)
        (log (connection_established ++
              [EvLock; EvPool (OpGetNextAvailablePort (Some p)); EvUnlock] ++
              attempt ++
              [EvLock; EvPool (OpFreePort p); EvUnlock] ++
              spawn_failed (LaunchProcess_error env) ++
              [EvDeleteConn (Accept_conn a)]) s))) /\
  (Fail (LaunchProcess_error env) = false ->
   GetProcessID env <> LLDB_INVALID_PROCESS_ID ->
   Fail (CompleteSending_error env) = true ->
   forall s1,
     spawn s1 =
       Ret (CompleteSending_error env)
         (set_portmap
            (AssociatePortWithProcess p (GetProcessID env) (gdbserver_portmap s1))
            (log (attempt ++
                  [EvWrite Log_Platform
                     ("lldb-platform launched '" ++
                      GetCommandString host self_args ++
                      "', pid=" ++ pretty (GetProcessID env))%string;
                   EvLock;
                   EvPool (OpAssociatePortWithProcess p (GetProcessID env));
                   EvUnlock;
                   EvCompleteSending (GetProcessID env);
                   EvKill (GetProcessID env) SIGTERM]) s1))).
Proof.
  intros Gs Fa G F1. cbv zeta. split.
  - intros F2. split.
    + intros s1. apply spawn_process_launch_fails; assumption.
    + pose proof (spawn_process_launch_fails (arrival_spawn a) progname
                    (Accept_conn a) p (port_offset o) inferior_arguments
                    (log_file o) (log_channels o)
                    (set_portmap pm
                       (log [EvLock; EvPool (OpGetNextAvailablePort (Some p)); EvUnlock]
                          (log connection_established s))) F1 F2) as S.
      pose proof (serve_connection_port a progname o inferior_arguments
                    (log connection_established s) _ pm p _ G S) as R.
      rewrite (accept_loop_serves a progname o inferior_arguments rest s _ Gs Fa R).
      * unfold after_spawn. rewrite F2. tidy. apply accept_loop_goes_on.
      * unfold after_spawn. rewrite F2. reflexivity.
  - intros F2 P F3 s1. apply spawn_process_handoff_fails; assumption.
Qed.

(** ** Options that are accepted one by one *)

(** Brings [A : accepted_alone host g = true], for an option [g] that sets an
    error or asks for the usage text, to a contradiction. *)
Ltac alone_absurd A :=
  exfalso;
  unfold accepted_alone, parse_option, parse_port_option in A;
  repeat match goal with
    | H : to_integer_u16 _ _ = _ |- _ => rewrite H in A
    | H : to_integer_u64 _ _ = _ |- _ => rewrite H in A
    | H : out_of_user_range _ = _ |- _ => rewrite H in A
    end;
  cbv zeta in A; rewrite ?bind_emit in A; unfold ret in A;
  cbn [option_error show_usage set_option_error set_show_usage set_port_offset
       initial_options Z.eqb andb negb] in A;
  discriminate A.

(** An option that is accepted alone is accepted after any others: the
    switch looks at the option at hand only, and leaves [option_error] and
    [show_usage] as they are. *)
Lemma parse_option_accepted (g : GetoptResult) (o o' : Options) (s s' : State) :
  accepted_alone host g = true ->
  parse_option host g o s = Ret o' s' ->
  option_error o' = option_error o /\ show_usage o' = show_usage o.
Proof.
  intros A E. parse_inv E; try (split; reflexivity); alone_absurd A.
Qed.

Lemma parse_options_accepted (parsed : list GetoptResult) (o o' : Options)
    (s s' : State) :
  forallb (accepted_alone host) parsed = true ->
  parse_options host parsed o s = Ret o' s' ->
  option_error o' = option_error o /\ show_usage o' = show_usage o.
Proof.
  revert o s. induction parsed as [|g rest IH]; intros o s A E;
    cbn [parse_options] in E.
  - injection E as <- <-. split; reflexivity.
  - cbn [forallb] in A. apply andb_prop in A as [Ag Ar].
    destruct (parse_option_returns g o s) as (o1 & s1 & E1).
    rewrite (bind_Ret _ _ _ _ _ E1) in E.
    destruct (IH _ _ Ar E) as [Oe Su].
    destruct (parse_option_accepted _ _ _ _ _ Ag E1) as [Oe1 Su1].
    split; congruence.
Qed.

Lemma accepted_alone_port (ch : OptChar) (optarg : string) (port : Z) :
  ch = ch_P \/ ch = ch_m \/ ch = ch_M ->
  accepted_alone host (GotOpt ch optarg) = true ->
  to_integer_u16 host optarg = Some port ->
  out_of_user_range port = false.
Proof.
  intros C A T. destruct (out_of_user_range port) eqn:R; [| reflexivity].
  destruct C as [-> | [-> | ->]]; alone_absurd A.
Qed.

(** C6, as amended.  A command line whose options are each accepted alone,
    among them an option [-P] and options that give a proper range, is not
    rejected: no option error is raised for the combination, wherever the
    [-P] stands.  The port of [-P] is put into the port map while the options
    are read; afterwards the port map made from the range takes the place of
    the global port map, so the entry of [-P] is gone; and the daemon goes on
    to create its acceptor. *)
Theorem port_and_range_not_rejected (env : Env) (progname subcommand : string)
    (before after : list GetoptResult) (optarg : string) (port : Z)
    (inferior_arguments : list string) (s s1 : State) (o : Options) :
  let parsed := before ++ GotOpt ch_P optarg :: after in
  forallb (accepted_alone host) parsed = true ->
  to_integer_u16 host optarg = Some port ->
  parse_options host parsed (initial_options host) s = Ret o s1 ->
  SetupLogging env = true ->
  nonzero (min_gdbserver_port o) = true ->
  (min_gdbserver_port o <? max_gdbserver_port o)%Z = true ->
  nonempty (listen_host_port o) = true ->
  fd o = kInvalidFD host ->
  let run :=
    main_platform host env progname subcommand parsed inferior_arguments s in
  let ranged :=
    set_portmap (PortMap_range (min_gdbserver_port o) (max_gdbserver_port o))
      (log [EvSetupLogging (log_file o) (log_channels o);
            EvPool (OpAssignRange (min_gdbserver_port o) (max_gdbserver_port o))]
         s1) in
  option_error o = 0%Z /\
  show_usage o = false /\
  In (EvPool (OpAllowPort port)) (trace s1) /\
  run = parent_platform host env progname o inferior_arguments ranged /\
  exists later,
    trace (final_state run)
    = trace ranged ++
      EvAcceptorCreate (listen_host_port o) children_inherit_listen_socket :: later.
Proof.
  cbv zeta. intros A T E L Mn Mx Li Fd.
  destruct (parse_options_accepted _ _ _ _ _ A E) as [Oe U].
  change (option_error (initial_options host)) with 0%Z in Oe.
  change (show_usage (initial_options host)) with false in U.
  assert (R : out_of_user_range port = false).
  { rewrite forallb_app in A. apply andb_prop in A as [_ A].
    cbn [forallb] in A. apply andb_prop in A as [A _].
    apply (accepted_alone_port ch_P optarg port); auto. }
  split; [exact Oe |]. split; [exact U |].
  enough (In (EvPool (OpAllowPort port)) (trace s1) /\
          main_platform host env progname subcommand
            (before ++ GotOpt ch_P optarg :: after) inferior_arguments s =
          parent_platform host env progname o inferior_arguments
            (set_portmap
               (PortMap_range (min_gdbserver_port o) (max_gdbserver_port o))
               (log [EvSetupLogging (log_file o) (log_channels o);
                     EvPool (OpAssignRange (min_gdbserver_port o)
                               (max_gdbserver_port o))] s1))) as [I M].
  { split; [exact I | split; [exact M |]].
    rewrite M. apply parent_platform_creates_acceptor. }
  split.
  - rewrite parse_options_app in E.
    destruct (parse_options_returns before (initial_options host) s) as (ob & sb & Eb).
    rewrite (bind_Ret _ _ _ _ _ Eb) in E. cbn [parse_options] in E.
    rewrite (bind_Ret _ _ _ _ _ (parse_option_P optarg port ob sb T R)) in E.
    destruct (parse_options_extends _ _ _ _ _ E) as [later Tl].
    rewrite Tl. apply in_or_app. left.
    unfold set_portmap, log, set_trace. cbn [trace].
    apply in_or_app. right. left. reflexivity.
  - assert (Pr : make_port_range o
                   (log [EvSetupLogging (log_file o) (log_channels o)] s1)
                 = Ret o (set_portmap
                            (PortMap_range (min_gdbserver_port o) (max_gdbserver_port o))
                            (log [EvSetupLogging (log_file o) (log_channels o);
                                  EvPool (OpAssignRange (min_gdbserver_port o)
                                            (max_gdbserver_port o))] s1))).
    { unfold make_port_range. rewrite Mn, Mx. cbn [andb].
      unfold pool_assign_range, bind, ret, log, set_portmap, set_trace.
      cbn [trace gdbserver_portmap files g_server g_debug g_verbose].
      rewrite <- !app_assoc. reflexivity. }
    rewrite (main_platform_dispatch env progname subcommand _ inferior_arguments
               s s1 _ o o E L Pr U Oe).
    + rewrite Fd, Z.eqb_refl. reflexivity.
    + rewrite Li. reflexivity.
Qed.

(** A discovery file with an empty directory part is never written, whatever
    the file system answers. *)
Lemma save_socket_id_to_file_bare_name (fs : FsEnv) (socket_id : string)
    (file_spec : FileSpec) (s : State) :
  GetPath host (FileSpec_SetFile host (Directory file_spec)) = EmptyString ->
  exists msg,
    save_socket_id_to_file host fs socket_id file_spec s
    = Ret (StatusError msg) (log [EvCreateDirectory EmptyString] s).
Proof.
  intros P. unfold save_socket_id_to_file. cbv zeta.
  rewrite P, bind_emit. eexists. reflexivity.
Qed.

End Properties.

(** * The properties on concrete runs *)

(** C4 on a session whose stub launch fails: the failure goes to the standard
    error stream and the session enters its loop. *)
Lemma client_handle_stub_launch_witness :
  let env := session_launch_fails [done_step] in
  let args := ["a.out"] in
  (IsConnected env = true /\ args <> [] /\ Fail (LaunchGDBServer_error env) = true) /\
  launch_stub env args start =
    Ret tt (log [EvLaunchGDBServer args EmptyString;
                 EvWrite Stderr ("failed to start gdbserver: " ++
                                 "unable to launch a GDB server" ++ nl)] start).
Proof.
  cbv zeta. split.
  - split; [reflexivity | split; [discriminate | reflexivity]].
  - destruct (client_handle_stub_launch (session_launch_fails [done_step])
                ["a.out"] start) as (_ & _ & W).
    destruct W as (W & _); [reflexivity | discriminate | reflexivity |].
    exact W.
Defined.

(** C4 as the spec words it fails: on a failed launch nothing that
    [client_handle] does about the failure reaches the peer. *)
Lemma stub_failure_not_reported_to_peer :
  ~ failure_reported_to_peer (session_launch_fails [done_step]) ["a.out"] start.
Proof. unfold failure_reported_to_peer. vm_compute. discriminate. Qed.

(** C9 on a launch that reports success and leaves the port empty. *)
Lemma client_handle_port_dereference_witness :
  let env := session_no_port [done_step] in
  let args := ["a.out"] in
  (IsConnected env = true /\ args <> [] /\
   Success (LaunchGDBServer_error env) = true) /\
  client_handle env args start =
    Undefined (log [EvLaunchGDBServer args EmptyString] start).
Proof.
  cbv zeta. split.
  - split; [reflexivity | split; [discriminate | reflexivity]].
  - destruct (client_handle_port_dereference (session_no_port [done_step])
                ["a.out"] start) as (W & _).
    apply W; [reflexivity | discriminate | reflexivity].
Defined.

(** C1 on a pool whose only port, 9000, is taken: the connection is dropped
    with the diagnostic and deleted, and the daemon waits for the next one;
    and on a pool with the single port 9000 and two connections, after which
    the daemon is waiting for a third. *)
Lemma server_mode_accept_loop_witness :
  let taken := (spec_allocate_next (spec_range 9000 9000)).2 in
  let s := serving taken in
  let a1 := arrival 10 (spawn_ok 501) (session_ok []) in
  let a2 := arrival 11 (spawn_ok 502) (session_ok []) in
  let o := initial_options posix_host in
  (nonzero (g_server s) = true /\ Fail (Accept_error a2) = false /\
   GetNextAvailablePort (gdbserver_portmap s) = (None, taken)) /\
  accept_loop posix_host [a2] "lldb-server" o [] s
  = Waiting
      (set_portmap taken
         (log (connection_established ++
               [EvLock; EvPool (OpGetNextAvailablePort None); EvUnlock;
                dropping; EvDeleteConn 11]) s)) /\
  exists s',
    accept_loop posix_host [a1; a2] "lldb-server" o []
      (serving (spec_range 9000 9000))
    = Waiting s'.
Proof.
  cbv zeta.
  assert (G : GetNextAvailablePort
                (gdbserver_portmap
                   (serving (spec_allocate_next (spec_range 9000 9000)).2))
              = (None, (spec_allocate_next (spec_range 9000 9000)).2))
    by (vm_compute; reflexivity).
  split; [repeat split; solve [reflexivity | exact G] |]. split.
  - destruct (server_mode_accept_loop posix_host
                (arrival 11 (spawn_ok 502) (session_ok [])) []
                "lldb-server" (initial_options posix_host) []
                (serving (spec_allocate_next (spec_range 9000 9000)).2)
                eq_refl eq_refl) as [W _].
    rewrite G in W. destruct W as [_ W]. exact W.
  - destruct (server_mode_accept_loop posix_host
                (arrival 10 (spawn_ok 501) (session_ok []))
                [arrival 11 (spawn_ok 502) (session_ok [])]
                "lldb-server" (initial_options posix_host) []
                (serving (spec_range 9000 9000)) eq_refl eq_refl) as [_ W].
    apply W. repeat constructor.
Defined.

(** C2 on a launch that fails and on a handoff that fails. *)
Lemma spawn_failure_handling_witness :
  let s := serving (spec_range 9000 9002) in
  let pm := (spec_allocate_next (spec_range 9000 9002)).2 in
  let o := initial_options posix_host in
  let a1 := arrival 10 spawn_launch_fails (session_ok []) in
  let a2 := arrival 11 (spawn_handoff_fails 502) (session_ok []) in
  (nonzero (g_server s) = true /\
   GetNextAvailablePort (gdbserver_portmap s) = (Some 9000%Z, pm) /\
   Fail (LaunchProcess_error spawn_launch_fails) = true /\
   Fail (CompleteSending_error (spawn_handoff_fails 502)) = true) /\
  accept_loop posix_host [a1] "lldb-server" o [] s =
  Waiting
    (set_portmap (spec_free 9000 pm)
       (log (connection_established ++
             [EvLock; EvPool (OpGetNextAvailablePort (Some 9000%Z)); EvUnlock] ++
             [EvSharedSocket 10;
              EvLaunchProcess
                (spawn_launch_info "lldb-server"
                   ["platform"; "--child-platform-fd"; "5";
                    "--gdbserver-port"; "9000"] ["PATH=/usr/bin"])] ++
             [EvLock; EvPool (OpFreePort 9000); EvUnlock] ++
             spawn_failed (StatusError "posix_spawn failed") ++
             [EvDeleteConn 10]) s)) /\
  exists s2,
    spawn_process posix_host (spawn_handoff_fails 502) "lldb-server" 11 9000 0 []
      EmptyString EmptyString s
    = Ret (StatusError "cannot complete sending") s2 /\
    In (EvKill 502 SIGTERM) (trace s2).
Proof.
  cbv zeta.
  assert (G : GetNextAvailablePort (gdbserver_portmap (serving (spec_range 9000 9002)))
              = (Some 9000%Z, (spec_allocate_next (spec_range 9000 9002)).2))
    by (vm_compute; reflexivity).
  split; [repeat split; solve [reflexivity | exact G] |]. split.
  - destruct (spawn_failure_handling posix_host
                (arrival 10 spawn_launch_fails (session_ok [])) []
                "lldb-server" (initial_options posix_host) []
                (serving (spec_range 9000 9002)) 9000
                (spec_allocate_next (spec_range 9000 9002)).2
                eq_refl eq_refl G eq_refl) as [W _].
    destruct (W eq_refl) as [_ [_ W2]]. exact W2.
  - destruct (spawn_failure_handling posix_host
                (arrival 11 (spawn_handoff_fails 502) (session_ok [])) []
                "lldb-server" (initial_options posix_host) []
                (serving (spec_range 9000 9002)) 9000
                (spec_allocate_next (spec_range 9000 9002)).2
                eq_refl eq_refl G eq_refl) as [_ W].
    eexists. split.
    + apply W; [reflexivity | discriminate | reflexivity].
    + vm_compute. repeat (first [left; reflexivity | right]).
Defined.

(** C3 on a daemon started without [--server]: one session, then status 0,
    although a second connection is ready. *)
Lemma single_shot_serves_one_connection_witness :
  let a1 := arrival 10 (spawn_ok 501) (session_ok [done_step]) in
  let a2 := arrival 11 (spawn_ok 502) (session_ok [done_step]) in
  let env := sample_env (session_ok []) [a1; a2] in
  let run :=
    parent_platform posix_host env "lldb-server"
      (set_listen_host_port "*:1234" (initial_options posix_host)) [] start in
  (nonzero (g_server start) = false /\ Fail (Accept_error a1) = false) /\
  exit_status (fun z => z) run = Some 0%Z /\
  count_events is_accept (trace (final_state run)) = 1%nat.
Proof.
  cbv zeta. split; [split; reflexivity |].
  destruct (single_shot_serves_one_connection posix_host
              (sample_env (session_ok [])
                 [arrival 10 (spawn_ok 501) (session_ok [done_step]);
                  arrival 11 (spawn_ok 502) (session_ok [done_step])])
              (arrival 10 (spawn_ok 501) (session_ok [done_step]))
              [arrival 11 (spawn_ok 502) (session_ok [done_step])]
              "lldb-server"
              (set_listen_host_port "*:1234" (initial_options posix_host)) []
              start eq_refl eq_refl
              (fun no_file : false = true =>
                 False_ind _ (Bool.diff_false_true no_file))
              eq_refl eq_refl eq_refl) as [R C].
  split; [rewrite R; reflexivity | exact C].
Defined.

(** C5 fails on the code: a bad port value, a port that is not a number and an
    inverted port range all end the process with status 0, and a bad token
    does so too; the token given with a listen address and the token that
    cannot be resolved both end it with -1. *)
Lemma configuration_errors_exit_status :
  let run parsed env :=
    exit_status (fun z => z)
      (main_platform posix_host env "lldb-server" "platform" parsed [] start) in
  let env := sample_env (session_ok [done_step]) [] in
  let unresolved :=
    {| SetupLogging := true;
       GetNativeSocket_error := StatusError "invalid socket";
       GetNativeSocket_socket := -1;
       Acceptor_Create_error := StatusOk;
       Listen_error := StatusOk;
       GetLocalSocketId := "45678";
       GetSocketProtocol := "ProtocolTcp";
       GetSocketScheme := "tcp";
       fs_env := {| create_directory_result := StatusOk; write_result := StatusOk |};
       child_session := session_ok [done_step];
       arrivals := [] |} in
  run [GotOpt ch_L "*:1234"; GotOpt ch_P "80"] env = Some 0%Z /\
  run [GotOpt ch_L "*:1234"; GotOpt ch_P "port"] env = Some 0%Z /\
  run [GotOpt ch_L "*:1234"; GotOpt ch_m "9002"; GotOpt ch_M "9000"] env = Some 0%Z /\
  run [GotOpt ch_2 "seven"] env = Some 0%Z /\
  run [GotOpt ch_L "*:1234"; GotOpt ch_2 "7"] env = Some (-1)%Z /\
  run [GotOpt ch_2 "7"] unresolved = Some (-1)%Z /\
  run [GotOpt ch_h EmptyString] env = Some 0%Z.
Proof. cbv zeta. repeat split; vm_compute; reflexivity. Qed.

(** C6 as the spec words it fails: a command line with [-P] and a range is
    not rejected, be the [-P] before the range or after it; the daemon creates
    its acceptor and waits for connections. *)
Lemma port_and_range_reaches_listening :
  ~ rejected_before_listening
      (main_platform posix_host (sample_env (session_ok []) [])
         "lldb-server" "platform" port_and_range [] start) /\
  ~ rejected_before_listening
      (main_platform posix_host (sample_env (session_ok []) [])
         "lldb-server" "platform" range_and_port [] start).
Proof. split; intros [_ C]; vm_compute in C; discriminate. Qed.

(** C6, as amended, on the command line with [-P] after the range. *)
Lemma port_and_range_not_rejected_witness :
  let env := sample_env (session_ok []) [] in
  let o := port_and_range_options in
  let s1 := port_and_range_state in
  let run :=
    main_platform posix_host env "lldb-server" "platform" range_and_port [] start in
  (forallb (accepted_alone (PortMap:=SpecPortMap) posix_host) range_and_port = true /\
   to_integer_u16 posix_host "2000" = Some 2000%Z /\
   parse_options posix_host range_and_port (initial_options posix_host) start
     = Ret o s1 /\
   min_gdbserver_port o = 9000%Z /\ max_gdbserver_port o = 9002%Z) /\
  option_error o = 0%Z /\
  show_usage o = false /\
  In (EvPool (OpAllowPort 2000)) (trace s1) /\
  run = parent_platform posix_host env "lldb-server" o []
          (set_portmap (spec_range 9000 9002)
             (log [EvSetupLogging EmptyString EmptyString;
                   EvPool (OpAssignRange 9000 9002)] s1)) /\
  gdbserver_portmap (final_state run) = spec_range 9000 9002.
Proof.
  cbv zeta.
  assert (A : forallb (accepted_alone (PortMap:=SpecPortMap) posix_host)
                range_and_port = true)
    by (vm_compute; reflexivity).
  assert (P : parse_options posix_host range_and_port (initial_options posix_host)
                start = Ret port_and_range_options port_and_range_state)
    by (vm_compute; reflexivity).
  split; [repeat split; solve [reflexivity | exact A | exact P] |].
  destruct (port_and_range_not_rejected posix_host (sample_env (session_ok []) [])
              "lldb-server" "platform"
              [GotOpt ch_L "*:1234"; GotOpt ch_m "9000"; GotOpt ch_M "9002"]
              [] "2000" 2000 [] start
              port_and_range_state port_and_range_options
              A eq_refl P eq_refl eq_refl eq_refl eq_refl eq_refl)
    as (Oe & U & I & M & _).
  split; [exact Oe | split; [exact U | split; [exact I | split; [exact M |]]]].
  vm_compute. reflexivity.
Defined.

(** A parent that writes its socket id to [/tmp/lldb/socket.txt]. *)
Lemma discovery_file_written_once_on_sample :
  let env := sample_env (session_ok []) [] in
  let run := parent_platform posix_host env "lldb-server" discovery_options [] start in
  (FileSpec_bool (socket_file discovery_options) = true /\
   Fail (Acceptor_Create_error env) = false /\
   Fail (Listen_error env) = false /\
   Fail (directory_answer posix_host (fs_env env) (socket_file discovery_options))
   = false /\
   Fail (write_result (fs_env env)) = false) /\
  files (final_state run) !! "/tmp/lldb/socket.txt" = Some "45678".
Proof.
  cbv zeta. split; [repeat split; reflexivity |].
  destruct (discovery_file_written_once posix_host (sample_env (session_ok []) [])
              "lldb-server" discovery_options [] start eq_refl eq_refl eq_refl)
    as [W _].
  destruct (W eq_refl eq_refl) as (later & _ & _ & _ & L). exact L.
Defined.

(** C7 fails on the code for a discovery file that is given by a bare name,
    [--socket-file socket.txt].  The directory part of the path is empty, and
    [save_socket_id_to_file] calls [create_directory] on the empty path; the
    call fails, although the directory in which the file would go exists and
    the file system would have made any directory and written any file.  The
    daemon reports the failure and returns 1 after [Listen]: it has written
    no file, and it accepts no connection although one is waiting.  The same
    happens whenever the one call of [create_directory] fails, as it does for
    [/tmp/a/b/socket.txt] when [/tmp/a] is missing: no directory above the
    last one is made. *)
Lemma discovery_file_bare_name_not_written :
  let waiting := [arrival 10 (spawn_ok 501) (session_ok [done_step])] in
  let env := sample_env (session_ok []) waiting in
  let no_parent :=
    {| SetupLogging := true;
       GetNativeSocket_error := StatusOk;
       GetNativeSocket_socket := 7;
       Acceptor_Create_error := StatusOk;
       Listen_error := StatusOk;
       GetLocalSocketId := "45678";
       GetSocketProtocol := "ProtocolTcp";
       GetSocketScheme := "tcp";
       fs_env := {| create_directory_result :=
                      StatusError "No such file or directory";
                    write_result := StatusOk |};
       child_session := session_ok [];
       arrivals := waiting |} in
  let listening :=
    [EvSetupLogging EmptyString EmptyString;
     EvAcceptorCreate "*:0" false; EvListen 100] in
  main_platform posix_host env "lldb-server" "platform"
    [GotOpt ch_L "*:0"; GotOpt ch_f "socket.txt"] [] start
  = Ret 1%Z
      (log (listening ++
            [EvCreateDirectory EmptyString;
             EvWrite Stderr
               ("failed to write socket id to socket.txt: " ++
                "Failed to create directory : No such file or directory" ++ nl)])
         start) /\
  main_platform posix_host no_parent "lldb-server" "platform"
    [GotOpt ch_L "*:0"; GotOpt ch_f "/tmp/a/b/socket.txt"] [] start
  = Ret 1%Z
      (log (listening ++
            [EvCreateDirectory "/tmp/a/b";
             EvWrite Stderr
               ("failed to write socket id to /tmp/a/b/socket.txt: " ++
                "Failed to create directory /tmp/a/b: " ++
                "No such file or directory" ++ nl)])
         start).
Proof. cbv zeta. split; vm_compute; reflexivity. Qed.

(** C10 on three child sessions: one ended by a packet that sets [done], one
    by an interrupt, one by a failed exchange. *)
Lemma child_returns_zero_witness :
  let run script :=
    main_platform posix_host (sample_env (session_ok script) [])
      "lldb-server" "platform" child_options [] start in
  (session_ends (session_ok [more_step; done_step]) [] = true /\
   session_ends (session_ok [more_step; interrupt_step]) [] = true /\
   session_ends (session_ok [more_step; error_step]) [] = true) /\
  (exists s3, run [more_step; done_step] = Ret 0%Z s3) /\
  (exists s3, run [more_step; interrupt_step] = Ret 0%Z s3) /\
  (exists s3, run [more_step; error_step] = Ret 0%Z s3).
Proof.
  cbv zeta. split; [repeat split; reflexivity |].
  repeat split;
    (eapply (child_returns_zero posix_host (sample_env (session_ok _) [])
               "lldb-server" "platform" child_options [] start);
     [reflexivity | reflexivity | reflexivity | reflexivity | reflexivity
     | discriminate | reflexivity | reflexivity | reflexivity]).
Defined.

(** * The pool after the spec

    Facts on the pool that the concrete runs use: what it hands out is an
    allowed port that nothing held, it is reserved afterwards, and the pool
    says that it is exhausted only when every allowed port is held. *)

Lemma least_elem (l : list Z) (p : Z) :
  least l = Some p -> p ∈ l /\ forall q, q ∈ l -> (p <= q)%Z.
Proof.
  revert p. induction l as [|x l IH]; intros p E; [discriminate |].
  cbn [least foldr] in E. fold (least l) in E.
  destruct (least l) as [m|] eqn:L.
  - destruct (IH m eq_refl) as [Im Lm]. injection E as <-. split.
    + destruct (Z.min_spec x m) as [[_ ->] | [_ ->]];
        [left | right; exact Im].
    + intros q Hq. apply elem_of_cons in Hq as [-> | Hq]; [lia |].
      specialize (Lm q Hq). lia.
  - injection E as <-. split; [left |].
    intros q Hq. apply elem_of_cons in Hq as [-> | Hq]; [lia |].
    destruct l; [inversion Hq | cbn in L].
    destruct (foldr _ None l); discriminate.
Qed.

Lemma least_none (l : list Z) : least l = None -> l = [].
Proof.
  destruct l as [|x l]; [reflexivity |]. cbn [least foldr].
  destruct (foldr _ None l); discriminate.
Qed.

Lemma spec_allocate_next_port (pm pm' : SpecPortMap) (p : Z) :
  spec_allocate_next pm = (Some p, pm') ->
  p ∈ allowed pm /\ assigned pm !! p = None /\
  assigned pm' !! p = Some Reserved /\ allowed pm' = allowed pm.
Proof.
  unfold spec_allocate_next. intros E.
  destruct (least _) as [q|] eqn:L; [| discriminate].
  injection E as -> <-.
  apply least_elem in L as [I _].
  apply list_elem_of_filter in I as [Fr Al].
  apply elem_of_elements in Al.
  unfold is_free in Fr. apply bool_decide_eq_true in Fr.
  cbn [assigned allowed]. rewrite lookup_insert_eq. auto.
Qed.

(** Two allocations in a row never give the same port. *)
Lemma spec_allocate_next_twice (pm pm' pm'' : SpecPortMap) (p q : Z) :
  spec_allocate_next pm = (Some p, pm') ->
  spec_allocate_next pm' = (Some q, pm'') ->
  p <> q.
Proof.
  intros E1 E2 ->.
  apply spec_allocate_next_port in E1 as (_ & _ & R & _).
  apply spec_allocate_next_port in E2 as (_ & F & _).
  congruence.
Qed.

(** The pool is exhausted only when every allowed port is held. *)
Lemma spec_allocate_next_exhausted (pm pm' : SpecPortMap) :
  spec_allocate_next pm = (None, pm') ->
  pm' = pm /\ forall p, p ∈ allowed pm -> is_Some (assigned pm !! p).
Proof.
  unfold spec_allocate_next. intros E.
  destruct (least _) as [q|] eqn:L; [discriminate |].
  injection E as <-. split; [reflexivity |].
  intros p Al. apply least_none in L.
  destruct (assigned pm !! p) as [w|] eqn:A; [eauto |].
  assert (I : p ∈ filter (fun p => is_free pm p = true) (elements (allowed pm))).
  { apply list_elem_of_filter. split.
    - unfold is_free. apply bool_decide_eq_true. exact A.
    - apply elem_of_elements. exact Al. }
  rewrite L in I. inversion I.
Qed.

(** A port freed by the exit of its worker can be handed out again. *)
Lemma spec_free_for_worker_frees (pm : SpecPortMap) (port : Z) (pid : pid_t) :
  assigned pm !! port = Some (Worker pid) ->
  assigned (spec_free_for_worker pid pm) !! port = None.
Proof.
  intros A. unfold spec_free_for_worker. cbn [assigned].
  apply map_lookup_filter_None. right. intros w Hw Ne.
  rewrite A in Hw. injection Hw as <-. apply Ne. reflexivity.
Qed.


(** * The further properties on sample runs *)

(** A request for help followed by a listen address. *)
Lemma bad_option_ends_in_usage_witness :
  let env := sample_env (session_ok []) [] in
  let before := [GotOpt ch_h EmptyString] in
  let after := [GotOpt ch_L "*:1234"] in
  let o1 := set_show_usage true (initial_options posix_host) in
  (parse_options posix_host before (initial_options posix_host) start = Ret o1 start /\
   show_usage o1 = true /\ SetupLogging env = true) /\
  exists s',
    main_platform posix_host env "lldb-server" "platform" (before ++ after) [] start
    = Exit 0%Z s'.
Proof.
  cbv zeta. split; [repeat split; reflexivity |].
  destruct (bad_option_ends_in_usage posix_host (sample_env (session_ok []) [])
              "lldb-server" "platform" [GotOpt ch_h EmptyString]
              [GotOpt ch_L "*:1234"] [] start start
              (set_show_usage true (initial_options posix_host))
              eq_refl (or_intror eq_refl) eq_refl) as (s' & R & _).
  exists s'. exact R.
Defined.

(** A daemon without a discovery file that serves one session. *)
Lemma no_socket_file_no_discovery_write_witness :
  let env := sample_env (session_ok [])
               [arrival 11 (spawn_ok 100) (session_ok [done_step])] in
  let parsed := [GotOpt ch_L "*:1234"] in
  existsb gives_socket_file parsed = false /\
  files (final_state
           (main_platform posix_host env "lldb-server" "platform" parsed [] start))
  = files start.
Proof.
  cbv zeta. split; [reflexivity |].
  apply (no_socket_file_no_discovery_write posix_host
           (sample_env (session_ok [])
              [arrival 11 (spawn_ok 100) (session_ok [done_step])])
           "lldb-server" "platform" [GotOpt ch_L "*:1234"] [] start eq_refl).
Defined.

(** A daemon out of server mode with two connections waiting. *)
Lemma without_server_flag_one_accept_witness :
  let env := sample_env (session_ok [])
               [arrival 11 (spawn_ok 100) (session_ok [done_step]);
                arrival 12 (spawn_ok 101) (session_ok [done_step])] in
  let parsed := [GotOpt ch_L "*:1234"] in
  (nonzero (g_server start) = false /\ existsb gives_server_flag parsed = false) /\
  (count_events is_accept
     (trace (final_state
               (main_platform posix_host env "lldb-server" "platform" parsed [] start)))
   <= count_events is_accept (trace start) + 1)%nat.
Proof.
  cbv zeta. split; [split; reflexivity |].
  apply (without_server_flag_one_accept posix_host
           (sample_env (session_ok [])
              [arrival 11 (spawn_ok 100) (session_ok [done_step]);
               arrival 12 (spawn_ok 101) (session_ok [done_step])])
           "lldb-server" "platform" [GotOpt ch_L "*:1234"] [] start eq_refl eq_refl).
Defined.

(** A launch that fails for the reserved port 9000. *)
Lemma failed_spawn_frees_reserved_port_witness :
  let s := serving (spec_range 9000 9002) in
  let pm := (spec_allocate_next (spec_range 9000 9002)).2 in
  let a := arrival 10 spawn_launch_fails (session_ok []) in
  (nonzero (g_server s) = true /\ accept_ok a = true /\
   GetNextAvailablePort (gdbserver_portmap s) = (Some 9000%Z, pm)) /\
  exists s',
    accept_loop posix_host [a] "lldb-server" (initial_options posix_host) [] s
    = Waiting s' /\
    count_events (is_free_of 9000) (trace s') = 1%nat.
Proof.
  cbv zeta.
  assert (G : GetNextAvailablePort (gdbserver_portmap (serving (spec_range 9000 9002)))
              = (Some 9000%Z, (spec_allocate_next (spec_range 9000 9002)).2))
    by (vm_compute; reflexivity).
  split; [repeat split; solve [reflexivity | exact G] |].
  destruct (failed_spawn_frees_reserved_port posix_host
              (arrival 10 spawn_launch_fails (session_ok []))
              "lldb-server" (initial_options posix_host) []
              (serving (spec_range 9000 9002)) 9000
              (spec_allocate_next (spec_range 9000 9002)).2
              eq_refl eq_refl G) as (s' & R & _ & F & _).
  exists s'. split; [exact R | exact F].
Defined.


(** A run that asks for help and whose log cannot be set up. *)
Lemma logging_set_up_from_last_options_witness :
  let parsed :=
    [GotOpt ch_l "/tmp/a.log"; GotOpt ch_h EmptyString;
     GotOpt ch_l "/tmp/b.log"; GotOpt ch_l EmptyString] in
  let run :=
    main_platform posix_host sample_env_without_log "lldb-server" "platform"
      parsed [] start in
  SetupLogging sample_env_without_log = false /\
  exists o s1,
    parse_options posix_host parsed (initial_options posix_host) start = Ret o s1 /\
    trace (final_state run)
    = (trace s1 ++ [EvSetupLogging "/tmp/b.log" EmptyString])%list /\
    exit_status (fun code => code) run = Some (-1)%Z.
Proof.
  cbv zeta. split; [reflexivity |].
  destruct (logging_set_up_from_last_options posix_host sample_env_without_log
              "lldb-server" "platform"
              [GotOpt ch_l "/tmp/a.log"; GotOpt ch_h EmptyString;
               GotOpt ch_l "/tmp/b.log"; GotOpt ch_l EmptyString] [] start)
    as (o & s1 & later & E & T & F).
  destruct (F eq_refl) as [-> X].
  exists o, s1. split; [exact E |]. split; [exact T | exact X].
Defined.

(** A listen address together with a handoff token. *)
Lemma listen_with_fd_is_rejected_witness :
  let env := sample_env (session_ok []) [] in
  let run :=
    main_platform posix_host env "lldb-server" "platform" listen_and_token [] start in
  (parse_options posix_host listen_and_token (initial_options posix_host) start
   = Ret listen_and_token_options start /\
   nonempty (listen_host_port listen_and_token_options) = true /\
   fd listen_and_token_options <> kInvalidFD posix_host) /\
  exists s', (run = Exit 0%Z s' \/ run = Ret (-1)%Z s') /\ files s' = files start.
Proof.
  cbv zeta.
  assert (Fd : fd listen_and_token_options <> kInvalidFD posix_host)
    by (vm_compute; discriminate).
  split; [split; [reflexivity | split; [reflexivity | exact Fd]] |].
  destruct (listen_with_fd_is_rejected posix_host (sample_env (session_ok []) [])
              "lldb-server" "platform" listen_and_token [] start start
              listen_and_token_options eq_refl eq_refl Fd) as (s' & R & _ & F).
  exists s'. split; [exact R | exact F].
Defined.

(** A daemon in server mode with a connection that gets a worker. *)
Lemma server_flag_decides_who_serves_witness :
  let env := sample_env (session_ok [])
               [arrival 11 (spawn_ok 100) (session_ok [done_step])] in
  let parsed := [GotFlag flag_server; GotOpt ch_L "*:1234"] in
  let o := set_listen_host_port "*:1234" (initial_options posix_host) in
  (parse_options posix_host parsed (initial_options posix_host) start
   = Ret o (set_g_server 1 start) /\
   nonzero (g_server start) || existsb gives_server_flag parsed = true /\
   fd o = kInvalidFD posix_host) /\
  extends serves_nothing_itself start
    (final_state
       (main_platform posix_host env "lldb-server" "platform" parsed [] start)).
Proof.
  cbv zeta. split; [repeat split; reflexivity |].
  destruct (server_flag_decides_who_serves posix_host
              (sample_env (session_ok [])
                 [arrival 11 (spawn_ok 100) (session_ok [done_step])])
              "lldb-server" "platform" [GotFlag flag_server; GotOpt ch_L "*:1234"]
              [] start (set_g_server 1 start)
              (set_listen_host_port "*:1234" (initial_options posix_host))
              eq_refl) as [W _].
  apply W; reflexivity.
Defined.


(** A lower bound for the ports without an upper bound. *)
Lemma improper_port_range_ends_in_usage_witness :
  let env := sample_env (session_ok []) [] in
  let o := lower_bound_alone_options in
  (parse_options posix_host lower_bound_alone (initial_options posix_host) start
   = Ret o start /\
   SetupLogging env = true /\
   nonzero (min_gdbserver_port o) || nonzero (max_gdbserver_port o) = true /\
   nonzero (min_gdbserver_port o)
   && (min_gdbserver_port o <? max_gdbserver_port o)%Z = false) /\
  exists s',
    main_platform posix_host env "lldb-server" "platform" lower_bound_alone [] start
    = Exit 0%Z s' /\
    gdbserver_portmap s' = gdbserver_portmap start.
Proof.
  cbv zeta.
  assert (E : parse_options posix_host lower_bound_alone (initial_options posix_host)
                start = Ret lower_bound_alone_options start)
    by (vm_compute; reflexivity).
  split; [split; [exact E | repeat split; reflexivity] |].
  destruct (improper_port_range_ends_in_usage posix_host
              (sample_env (session_ok []) []) "lldb-server" "platform"
              lower_bound_alone [] start start lower_bound_alone_options
              E eq_refl eq_refl eq_refl) as (s' & text & R & _ & P).
  exists s'. split; [exact R | exact P].
Defined.


(** A parent whose discovery file cannot be written: status 1, and no option
    error behind it. *)
Lemma main_platform_statuses_witness :
  let parsed := [GotOpt ch_L "*:0"; GotOpt ch_f "socket.txt"] in
  let run :=
    main_platform posix_host (sample_env (session_ok []) []) "lldb-server"
      "platform" parsed [] start in
  exit_status (fun c => c) run = Some 1%Z /\
  exists o s1 o2 s2,
    parse_options posix_host parsed (initial_options posix_host) start = Ret o s1 /\
    make_port_range o (log [EvSetupLogging (log_file o) (log_channels o)] s1)
    = Ret o2 s2 /\
    option_error o2 = 0%Z /\ show_usage o2 = false.
Proof.
  cbv zeta.
  assert (H : exit_status (fun c => c)
                (main_platform posix_host (sample_env (session_ok []) [])
                   "lldb-server" "platform"
                   [GotOpt ch_L "*:0"; GotOpt ch_f "socket.txt"] [] start)
              = Some 1%Z)
    by (vm_compute; reflexivity).
  split; [exact H |].
  destruct (main_platform_statuses posix_host (sample_env (session_ok []) [])
              "lldb-server" "platform"
              [GotOpt ch_L "*:0"; GotOpt ch_f "socket.txt"] [] start 1%Z H)
    as [X | [X | [_ W]]]; [discriminate X | discriminate X |].
  destruct W as (o & s1 & o2 & s2 & E & Pr & Oe & U & _).
  exists o, s1, o2, s2. repeat split; assumption.
Defined.
